(** * Kani TTS WebSocket server: protocol, generation bridge and audio framing

    A shallow embedding of [websocket_server.py].  The synthesis model, the
    audio writer and the libraries the server calls are external: they appear
    here as explicit behaviours supplied by the environment, and the server's
    own logic (validation, dispatch, the worker/consumer hand-off, PCM16 and
    duration arithmetic) is transcribed function by function.

    What the model takes for granted:
    - [json.loads] decodes a frame, raises [JSONDecodeError], or raises
      another [Exception] ([RecursionError], [ValueError], ...);
    - [websocket.send] succeeds (a closed connection ends the read loop and is
      not followed further);
    - the arrays of one Generator run are floating-point arrays of one binary
      format; finite samples are the rationals they denote, arithmetic rounds
      to the nearest value of the format, ties to even, and the sign of zero
      is not kept;
    - the Generator calls the sink only before it returns or raises; what it
      raises is an [Exception], or a [BaseException] that [except Exception]
      does not catch ([SystemExit], [KeyboardInterrupt], [GeneratorExit]);
    - loading the models succeeds or raises an [Exception];
    - one connection is followed; the handler's flag is the only state that
      connections share, and it is only ever set. *)

From Stdlib Require Import ZArith QArith Qabs Qround Qreduction Qpower SpecFloat.
From Stdlib Require Import List String Ascii Lia Lqa Bool.
From stdpp Require Import base option gmap strings list.
Import ListNotations.

Open Scope string_scope.
Open Scope Z_scope.
Open Scope list_scope.

(** ** Numeric model of the audio arrays

    A chunk is a numpy array of floating-point items.  An item is a finite
    value, written as the rational it denotes, an infinity or a NaN. *)

Inductive scalar : Type :=
| Num (q : Q)
| Inf (negative : bool)
| NaN.

Definition chunk : Type := list scalar.

(** Modelled from the spec: the [config] module is not part of the sources;
    the audio format is 22050 Hz. *)
Definition SAMPLE_RATE : Z := 22050.

(** A binary floating-point format: [prec] bits of significand, exponents
    below [emax]; the smallest positive value is [2 ^ emin]. *)
Record float_format : Type := {
  prec : Z;
  emax : Z
}.

Definition binary16 : float_format := {| prec := 11; emax := 16 |}.
Definition binary32 : float_format := {| prec := 24; emax := 128 |}.
Definition binary64 : float_format := {| prec := 53; emax := 1024 |}.

Definition emin (fmt : float_format) : Z := 3 - emax fmt - prec fmt.

(** [q * 2 ^ e] *)
Definition Qshift (q : Q) (e : Z) : Q := (q * 2 ^ e)%Q.

(** The binary exponent of a rational other than zero: the [k] with
    [2 ^ k <= |q| < 2 ^ (k + 1)]. *)
Definition Qlog2 (q : Q) : Z :=
  let k := Z.log2 (Z.abs (Qnum q)) - Z.log2 (Zpos (Qden q)) in
  if Qle_bool (2 ^ k) (Qabs q) then k else k - 1.

(** The nearest integer, ties to the even one. *)
Definition Qround_nearest (x : Q) : Z :=
  let f := Qfloor x in
  let r := (x - inject_Z f)%Q in
  match (r ?= 1 # 2)%Q with
  | Lt => f
  | Gt => f + 1
  | Eq => if Z.even f then f else f + 1
  end.

(** The exponent of the unit in the last place of the values of a format
    around [q]. *)
Definition ulp_exponent (fmt : float_format) (q : Q) : Z :=
  Z.max (Qlog2 q + 1 - prec fmt) (emin fmt).

(** Rounding of an exact result into a format: the nearest multiple of the
    unit in the last place, ties to even; an infinity when it lies beyond the
    largest finite value. *)
Definition round_ne (fmt : float_format) (q : Q) : scalar :=
  if Qeq_bool q 0 then Num 0
  else
    let e := ulp_exponent fmt q in
    let r := Qshift (inject_Z (Qround_nearest (Qshift q (- e)))) e in
    if Qle_bool (2 ^ emax fmt) (Qabs r) then Inf (Qnum q <? 0)
    else Num (Qred r).

(** The product of two items of a format. *)
Definition fmul (fmt : float_format) (x y : scalar) : scalar :=
  match x, y with
  | NaN, _ | _, NaN => NaN
  | Num a, Num b => round_ne fmt (a * b)
  | Inf s, Inf t => Inf (xorb s t)
  | Inf s, Num b | Num b, Inf s =>
      if Qeq_bool b 0 then NaN else Inf (xorb s (Qnum b <? 0))
  end.

(** The item that a float of the Standard Library's IEEE 754 specification
    denotes. *)
Definition SF2scalar (x : spec_float) : scalar :=
  match x with
  | S754_zero _ => Num 0
  | S754_infinity s => Inf s
  | S754_nan => NaN
  | S754_finite s m e =>
      Num (Qred (Qshift (inject_Z (if s then Z.neg m else Z.pos m)) e))
  end.

(** Conversion of a float to an integer by [astype]: the fractional part is
    discarded (truncation toward zero). *)
Definition Qtrunc (x : Q) : Z := Z.quot (Qnum x) (Zpos (Qden x)).

(** A 16-bit destination keeps the low 16 bits, read in two's complement.
    Inside the int16 range this is the identity. *)
Definition wrap_int16 (z : Z) : Z := (z + 32768) mod 65536 - 32768.

(** [astype(np.int16)] of one item.  Outside the int16 range C leaves the
    conversion undefined; written here is what numpy's loops do on x86-64,
    where the value goes through a 32-bit integer: the low 16 bits of a
    truncated value within the int32 range, and 0 beyond it, for the
    infinities and for NaN. *)
Definition astype_int16 (x : scalar) : Z :=
  match x with
  | Num q =>
      let t := Qtrunc q in
      if (-2147483648 <=? t) && (t <=? 2147483647) then wrap_int16 t else 0
  | _ => 0
  end.

(** [ndarray.tobytes] of one int16, little-endian. *)
Definition int16_tobytes (v : Z) : list Z :=
  [Z.land v 255; Z.land (Z.shiftr v 8) 255].

(** [(data * 32767).astype(np.int16)]: the Python int takes the float type
    of the array, and the product is rounded in that format. *)
Definition pcm_data (fmt : float_format) (data : chunk) : list Z :=
  map (fun x => astype_int16 (fmul fmt x (round_ne fmt (inject_Z 32767)))) data.

(** [pcm_data.tobytes()] *)
Definition chunk_bytes (fmt : float_format) (data : chunk) : list Z :=
  flat_map int16_tobytes (pcm_data fmt data).

(** Reading side: a pair of bytes as a little-endian signed 16-bit integer. *)
Definition int16_frombytes (lo hi : Z) : Z := wrap_int16 (lo + 256 * hi).

Fixpoint decode_pcm16 (bs : list Z) : list Z :=
  match bs with
  | lo :: hi :: rest => int16_frombytes lo hi :: decode_pcm16 rest
  | _ => []
  end.

(** *** The conversion as the specification words it

    Clamp to [-1, 1], scale by 32767, round to the nearest integer (ties to
    even, as numpy rounds), serialize little-endian; on finite samples. *)

Definition clamp_unit (x : Q) : Q :=
  if Qle_bool x (-1) then (-1)%Q else if Qle_bool 1 x then 1%Q else x.

Definition toPCM16_spec (samples : list Q) : list Z :=
  flat_map int16_tobytes
    (map (fun x => Qround_nearest (clamp_unit x * inject_Z 32767)%Q) samples).

(** A finite sample within [-1, 1]. *)
Definition in_unit_range (x : scalar) : Prop :=
  match x with
  | Num q => (-1 <= q)%Q /\ (q <= 1)%Q
  | _ => False
  end.

(** ** The WAV container written by [scipy.io.wavfile.write]

    The writer picks the sample format from the dtype of the array it is
    given.  The [audio] module that fixes the dtype of the generated chunks is
    not part of the sources, so the dtype is a parameter: its kind, its item
    size and the byte image of one item. *)

Record dtype : Type := {
  dkind_float : bool;
  itemsize : nat;
  item_tobytes : scalar -> list Z
}.

Definition dtype_wf (dt : dtype) : Prop :=
  forall x, length (item_tobytes dt x) = itemsize dt.

(** The array the streaming path builds by hand, as a dtype. *)
Definition int16_dtype : dtype :=
  {| dkind_float := false; itemsize := 2;
     item_tobytes := fun x => int16_tobytes (astype_int16 x) |}.

(** [struct.pack] with formats [<H] and [<I]. *)
Definition pack_H (v : Z) : list Z :=
  [Z.land v 255; Z.land (Z.shiftr v 8) 255].

Definition pack_I (v : Z) : list Z :=
  [Z.land v 255; Z.land (Z.shiftr v 8) 255;
   Z.land (Z.shiftr v 16) 255; Z.land (Z.shiftr v 24) 255].

Definition bytes_of_string (s : string) : list Z :=
  map (fun c => Z.of_nat (nat_of_ascii c)) (list_ascii_of_string s).

Definition fmt_chunk_data (dt : dtype) (fs : Z) : list Z :=
  let format_tag := if dkind_float dt then 3 else 1 in
  let channels := 1 in
  let bit_depth := Z.of_nat (itemsize dt) * 8 in
  let bytes_per_second := fs * (bit_depth / 8) * channels in
  let block_align := channels * (bit_depth / 8) in
  pack_H format_tag ++ pack_H channels ++ pack_I fs ++ pack_I bytes_per_second
    ++ pack_H block_align ++ pack_H bit_depth
    ++ (if dkind_float dt then [0; 0] else []).

(** Everything that precedes the sample bytes, the RIFF size left at zero. *)
Definition header_data (dt : dtype) (fs : Z) (nsamples : nat) : list Z :=
  bytes_of_string "RIFF" ++ [0; 0; 0; 0] ++ bytes_of_string "WAVE"
    ++ bytes_of_string "fmt "
    ++ pack_I (Z.of_nat (length (fmt_chunk_data dt fs)))
    ++ fmt_chunk_data dt fs
    ++ (if dkind_float dt
        then bytes_of_string "fact" ++ pack_I 4 ++ pack_I (Z.of_nat nsamples)
        else []).

Definition wav_header_len (dt : dtype) : nat :=
  if dkind_float dt then 58%nat else 44%nat.

(** Exceptions carry the text that [str(e)] yields. *)
Inductive result (A : Type) : Type :=
| Ok (a : A)
| Exc (msg : string).
Arguments Ok {A} a.
Arguments Exc {A} msg.

(** [wav_write(buffer, rate, data)] followed by reading the buffer back. *)
Definition wav_write (dt : dtype) (rate : Z) (data : chunk) : result (list Z) :=
  let hd := header_data dt rate (length data) in
  let nbytes := Z.of_nat (itemsize dt * length data) in
  if 4294967295 <? (Z.of_nat (length hd) - 4 - 4) + (4 + 4 + nbytes)
  then Exc "Data exceeds wave file size limit"
  else
    let payload := flat_map (item_tobytes dt) data in
    let size := Z.of_nat (length hd) + 8 + Z.of_nat (length payload) in
    Ok (firstn 4 hd ++ pack_I (size - 8) ++ skipn 8 hd
          ++ bytes_of_string "data" ++ pack_I nbytes ++ payload).

(** Samples a reader finds in a container: the bytes after the header, one
    item each. *)
Definition decodable_samples (dt : dtype) (audio : list Z) : Z :=
  (Z.of_nat (length audio) - Z.of_nat (wav_header_len dt)) / Z.of_nat (itemsize dt).

(** [len(audio_data) / (SAMPLE_RATE * 2)] *)
Definition response_duration (audio_data : list Z) : Q :=
  (inject_Z (Z.of_nat (length audio_data)) / inject_Z (SAMPLE_RATE * 2))%Q.

(** [len(data) / SAMPLE_RATE] *)
Definition chunk_duration (data : chunk) : Q :=
  (inject_Z (Z.of_nat (length data)) / inject_Z SAMPLE_RATE)%Q.

(** ** Decoded messages

    What [json.loads] returns: Python values, dictionaries as finite maps. *)

#[warnings="-register-all"]
Inductive json : Type :=
| JNull
| JBool (b : bool)
| JInt (n : Z)
| JFloat (q : Q)
| JStr (s : string)
| JArr (l : list json)
| JObj (d : gmap string json).

(** Python truthiness, as tested by [if not text]. *)
Definition truthy (v : json) : bool :=
  match v with
  | JNull => false
  | JBool b => b
  | JInt n => negb (n =? 0)
  | JFloat q => negb (Qeq_bool q 0)
  | JStr s => negb (String.eqb s "")
  | JArr l => match l with [] => false | _ => true end
  | JObj d => negb (Nat.eqb (size d) 0)
  end.

Definition type_name (v : json) : string :=
  match v with
  | JNull => "NoneType"
  | JBool _ => "bool"
  | JInt _ => "int"
  | JFloat _ => "float"
  | JStr _ => "str"
  | JArr _ => "list"
  | JObj _ => "dict"
  end.

(** [v.get(key, dflt)]: only dictionaries have [get]; on anything else the
    call raises [AttributeError]. *)
Definition py_get (v : json) (key : string) (dflt : json) : result json :=
  match v with
  | JObj d => Ok (default dflt (d !! key))
  | _ => Exc ("'" +:+ type_name v +:+ "' object has no attribute 'get'")
  end.

(** [v == "literal"] *)
Definition eq_str (v : json) (lit : string) : bool :=
  match v with
  | JStr s => String.eqb s lit
  | _ => false
  end.

(** Modelled from the spec: the defaults of the [config] module, which is not
    part of the sources. *)
Definition TEMPERATURE : json := JFloat (6 # 10).
Definition MAX_TOKENS : json := JInt 1200.
Definition TOP_P : json := JFloat (95 # 100).
Definition CHUNK_SIZE : json := JInt 25.
Definition LOOKBACK_FRAMES : json := JInt 15.

Record TTSConfig : Type := {
  temperature : json;
  max_tokens : json;
  top_p : json;
  chunk_size : json;
  lookback_frames : json;
  language : json;
  emotion : json;
  speed : json;
  voice_id : json
}.

(** [TTSConfig.__init__] *)
Definition TTSConfig_init (data : json) : result TTSConfig :=
  match data with
  | JObj d =>
      Ok {| temperature := default TEMPERATURE (d !! "temperature");
            max_tokens := default MAX_TOKENS (d !! "max_tokens");
            top_p := default TOP_P (d !! "top_p");
            chunk_size := default CHUNK_SIZE (d !! "chunk_size");
            lookback_frames := default LOOKBACK_FRAMES (d !! "lookback_frames");
            language := default (JStr "spanish") (d !! "language");
            emotion := default (JStr "neutral") (d !! "emotion");
            speed := default (JFloat 1) (d !! "speed");
            voice_id := default (JStr "default") (d !! "voice_id") |}
  | _ => Exc ("'" +:+ type_name data +:+ "' object has no attribute 'get'")
  end.

(** ** Outbound envelopes

    One constructor per dictionary literal the server sends; [msg_type] is its
    ["type"] entry.  An [audio] field holds the bytes whose base64 text goes on
    the wire. *)

Record response_metadata : Type := {
  md_duration : Q;
  md_sample_rate : Z;
  md_channels : Z;
  md_language : json;
  md_emotion : json;
  md_speed : json
}.

Record chunk_metadata : Type := {
  cm_chunk_size : nat;
  cm_duration : Q;
  cm_sample_rate : Z;
  cm_channels : Z
}.

Inductive envelope : Type :=
| tts_response (audio : list Z) (status message : string)
    (metadata : option response_metadata)
| tts_stream_chunk (audio : list Z) (status : string) (metadata : chunk_metadata)
| tts_stream_complete (status message : string)
| pong (status : string) (tts_initialized : bool).

Definition msg_type (e : envelope) : string :=
  match e with
  | tts_response _ _ _ _ => "tts_response"
  | tts_stream_chunk _ _ _ => "tts_stream_chunk"
  | tts_stream_complete _ _ => "tts_stream_complete"
  | pong _ _ => "pong"
  end.

(** The envelope built by [_send_error]. *)
Definition error_envelope (error_message : string) : envelope :=
  tts_response [] "error" error_message None.

(** The envelope built for a ["chunk"] queue entry. *)
Definition chunk_envelope (fmt : float_format) (data : chunk) : envelope :=
  tts_stream_chunk (chunk_bytes fmt data) "streaming"
    {| cm_chunk_size := length (chunk_bytes fmt data);
       cm_duration := chunk_duration data;
       cm_sample_rate := SAMPLE_RATE;
       cm_channels := 1 |}.

Definition complete_envelope : envelope :=
  tts_stream_complete "completed" "Audio streaming completed".

Definition is_chunk_msg (e : envelope) : bool :=
  match e with tts_stream_chunk _ _ _ => true | _ => false end.

Definition is_success_msg (e : envelope) : bool :=
  match e with
  | tts_response _ "success" _ (Some _) => true
  | _ => false
  end.

(** ** The external Generator and audio writer

    One call of the Generator with its writer is a black box that invokes the
    sink some number of times and then returns, raises an [Exception], or
    raises a [BaseException] that is not an [Exception]. *)

Record gen_args : Type := {
  g_text : json;
  g_max_tokens : json;
  g_chunk_size : json;
  g_lookback_frames : json
}.

Inductive ending : Type :=
| Returns
| Raises (msg : string)
| RaisesBase (msg : string).

Record gen_run : Type := {
  emitted : list chunk;
  ending_of : ending
}.

(** ** The generation bridge of [_stream_audio]

    A worker thread and the connection's coroutine share one unbounded FIFO
    queue of tagged entries. *)

Inductive qitem : Type :=
| QChunk (data : chunk)
| QDone
| QError (reason : string).

Definition is_sentinel (it : qitem) : bool :=
  match it with QChunk _ => false | _ => true end.

(** [ChunkList.append]: keep the chunk in the list and put it on the queue.
    The pair is the list object and the puts made so far. *)
Definition ChunkList_append (self : list chunk * list qitem) (c : chunk)
  : list chunk * list qitem :=
  (fst self ++ [c], snd self ++ [QChunk c]).

(** The writer's sink calls during one Generator run, then how the run ends. *)
Definition writer_run (run : gen_run) : list chunk * list qitem * ending :=
  (fold_left ChunkList_append (emitted run) ([], []), ending_of run).

(** The closure [generate] run by the worker thread: the queue puts it makes,
    in order, and how the closure itself ends, [Exc] being an exception that
    leaves it.  [except Exception] turns an [Exception] into the "error"
    entry; another [BaseException] passes through, and no entry is put. *)
Definition generate (run : gen_run) : list qitem * result unit :=
  match writer_run run with
  | (_, puts, Returns) => (puts ++ [QDone], Ok tt)
  | (_, puts, Raises e) => (puts ++ [QError e], Ok tt)
  | (_, puts, RaisesBase e) => (puts, Exc e)
  end.

(** State of one streaming request while worker and consumer run. *)
Record bridge : Type := {
  worker_todo : list qitem;
  chunk_queue : list qitem;
  consumer_waiting : bool;
  sent : list envelope
}.

(** What can happen next: the worker makes its next put (a worker that has
    made them all has ended, by returning or by the exception that left it),
    the consumer's [get] returns the oldest entry, or the consumer's [get]
    gives up after thirty seconds on an empty queue. *)
Inductive choice : Type :=
| Work
| Get
| Timeout.

(** One iteration of the consumer's loop on a received entry. *)
Definition consume (fmt : float_format) (it : qitem) (b : bridge)
    (rest : list qitem) : bridge :=
  match it with
  | QChunk data =>
      {| worker_todo := worker_todo b; chunk_queue := rest;
         consumer_waiting := true;
         sent := sent b ++ [chunk_envelope fmt data] |}
  | QDone =>
      {| worker_todo := worker_todo b; chunk_queue := rest;
         consumer_waiting := false;
         sent := sent b ++ [complete_envelope] |}
  | QError data =>
      {| worker_todo := worker_todo b; chunk_queue := rest;
         consumer_waiting := false;
         sent := sent b ++ [error_envelope ("Generation error: " +:+ data)] |}
  end.

Definition bridge_step (fmt : float_format) (b : bridge) (c : choice) : bridge :=
  match c with
  | Work =>
      match worker_todo b with
      | [] => b
      | it :: todo =>
          {| worker_todo := todo; chunk_queue := chunk_queue b ++ [it];
             consumer_waiting := consumer_waiting b; sent := sent b |}
      end
  | Get =>
      if consumer_waiting b then
        match chunk_queue b with
        | [] => b
        | it :: rest => consume fmt it b rest
        end
      else b
  | Timeout =>
      if consumer_waiting b then
        match chunk_queue b with
        | [] =>
            {| worker_todo := worker_todo b; chunk_queue := [];
               consumer_waiting := false;
               sent := sent b ++ [error_envelope "Generation timeout"] |}
        | _ :: _ => b
        end
      else b
  end.

Definition bridge_init (run : gen_run) : bridge :=
  {| worker_todo := fst (generate run); chunk_queue := [];
     consumer_waiting := true; sent := [] |}.

Definition run_bridge (fmt : float_format) (sched : list choice) (b : bridge)
  : bridge :=
  fold_left (bridge_step fmt) sched b.

(** [gen_thread.join()] returns once the loop is left and the worker thread
    has ended. *)
Definition joined (b : bridge) : bool :=
  negb (consumer_waiting b)
  && match worker_todo b with [] => true | _ => false end.

(** A schedule that lets the worker finish and the consumer drain [n]
    entries. *)
Definition drain_schedule (n : nat) : list choice :=
  repeat Work n ++ repeat Get n.

(** The same, the consumer then waiting in vain. *)
Definition starve_schedule (n : nat) : list choice :=
  drain_schedule n ++ [Timeout].

(** ** The handler

    Effects of the connection's coroutine: the initialization flag, the
    observable events, and how a call ends. *)

Record WebSocketTTSHandler : Type := {
  initialized : bool
}.

Inductive event : Type :=
| Send (e : envelope)
| LoadModels
| Generate (a : gen_args)
| ThreadStart (a : gen_args)
| ThreadJoin.

(** How a call ends: it returns, an [Exception] leaves it, a [BaseException]
    that is not an [Exception] leaves it, or it has not ended. *)
Inductive outcome (A : Type) : Type :=
| Done (a : A)
| Raised (msg : string)
| RaisedBase (msg : string)
| Pending.
Arguments Done {A} a.
Arguments Raised {A} msg.
Arguments RaisedBase {A} msg.
Arguments Pending {A}.

Definition M (A : Type) : Type :=
  WebSocketTTSHandler -> WebSocketTTSHandler * list event * outcome A.

Definition ret {A} (a : A) : M A := fun h => (h, [], Done a).

Definition bind {A B} (m : M A) (k : A -> M B) : M B :=
  fun h =>
    match m h with
    | (h1, t1, Done a) =>
        match k a h1 with
        | (h2, t2, o) => (h2, t1 ++ t2, o)
        end
    | (h1, t1, Raised msg) => (h1, t1, Raised msg)
    | (h1, t1, RaisedBase msg) => (h1, t1, RaisedBase msg)
    | (h1, t1, Pending) => (h1, t1, Pending)
    end.

Definition raise {A} (msg : string) : M A := fun h => (h, [], Raised msg).

Definition raise_base {A} (msg : string) : M A :=
  fun h => (h, [], RaisedBase msg).

Definition pending {A} : M A := fun h => (h, [], Pending).

Definition emit (evs : list event) : M unit := fun h => (h, evs, Done tt).

Definition lift {A} (r : result A) : M A :=
  match r with
  | Ok a => ret a
  | Exc msg => raise msg
  end.

(** [try: body except Exception as e: handler(str(e))]; a [BaseException]
    that is not an [Exception] is not caught. *)
Definition try_except {A} (body : M A) (handler : string -> M A) : M A :=
  fun h =>
    match body h with
    | (h1, t1, Raised msg) =>
        match handler msg h1 with
        | (h2, t2, o) => (h2, t1 ++ t2, o)
        end
    | r => r
    end.

Notation "'let*' x := m 'in' k" := (bind m (fun x => k))
  (at level 10, x name, m at level 100, k at level 200).

(** What the environment does during one request: whether loading the models
    fails, how the Generator behaves on given arguments, the float format of
    the arrays its writer appends, and how worker and consumer interleave. *)
Record world : Type := {
  load_models : result unit;
  generator : gen_args -> gen_run;
  sample_format : float_format;
  schedule : list choice
}.

(** What [json.loads] does with a frame. *)
Inductive decoding : Type :=
| Decoded (data : json)
| JSONDecodeError
| OtherError (text : string).

(** Library functions the server calls. *)
Record runtime : Type := {
  json_loads : string -> decoding;
  py_str : json -> string;
  array_dtype : dtype
}.

(** An f-string field: a string is inserted as it is, anything else through
    [str]. *)
Definition format_value (rt : runtime) (v : json) : string :=
  match v with
  | JStr s => s
  | _ => py_str rt v
  end.

Definition _send_error (error_message : string) : M unit :=
  emit [Send (error_envelope error_message)].

Definition initialize (w : world) : M unit :=
  fun h =>
    if initialized h then (h, [], Done tt)
    else
      match load_models w with
      | Ok _ => ({| initialized := true |}, [LoadModels], Done tt)
      | Exc msg => (h, [], Raised msg)
      end.

Definition writer_args (text : json) (config : TTSConfig) : gen_args :=
  {| g_text := text; g_max_tokens := max_tokens config;
     g_chunk_size := chunk_size config;
     g_lookback_frames := lookback_frames config |}.

Definition _generate_audio (rt : runtime) (w : world)
    (text : json) (config : TTSConfig) (reference_audio : json) : M (list Z) :=
  let a := writer_args text config in
  let* _ := emit [Generate a] in
  let audio_writer := generator w a in
  match ending_of audio_writer with
  | Raises msg => raise msg
  | RaisesBase msg => raise_base msg
  | Returns =>
      match emitted audio_writer with
      | [] => raise "No audio generated"
      | audio_chunks =>
          lift (wav_write (array_dtype rt) SAMPLE_RATE (concat audio_chunks))
      end
  end.

Definition success_envelope (audio_data : list Z) (config : TTSConfig) : envelope :=
  tts_response audio_data "success" "Audio generated successfully"
    (Some {| md_duration := response_duration audio_data;
             md_sample_rate := SAMPLE_RATE;
             md_channels := 1;
             md_language := language config;
             md_emotion := emotion config;
             md_speed := speed config |}).

Definition handle_tts_request (rt : runtime) (w : world) (message : json) : M unit :=
  try_except
    (let* data := lift (py_get message "data" (JObj ∅)) in
     let* text := lift (py_get data "text" (JStr "")) in
     let* config_data := lift (py_get data "config" (JObj ∅)) in
     let* reference_audio := lift (py_get data "reference_audio" JNull) in
     if negb (truthy text) then _send_error "No text provided"
     else
       let* config := lift (TTSConfig_init config_data) in
       let* _ := initialize w in
       let* audio_data := _generate_audio rt w text config reference_audio in
       emit [Send (success_envelope audio_data config)])
    (fun e => _send_error e).

Definition _stream_audio (w : world)
    (text : json) (config : TTSConfig) (reference_audio : json) : M unit :=
  let a := writer_args text config in
  let* _ := emit [ThreadStart a] in
  let b := run_bridge (sample_format w) (schedule w)
             (bridge_init (generator w a)) in
  let* _ := emit (map Send (sent b)) in
  if joined b then emit [ThreadJoin] else pending.

Definition handle_streaming_request (w : world) (message : json) : M unit :=
  try_except
    (let* data := lift (py_get message "data" (JObj ∅)) in
     let* text := lift (py_get data "text" (JStr "")) in
     let* config_data := lift (py_get data "config" (JObj ∅)) in
     let* reference_audio := lift (py_get data "reference_audio" JNull) in
     if negb (truthy text) then _send_error "No text provided"
     else
       let* config := lift (TTSConfig_init config_data) in
       let* _ := initialize w in
       _stream_audio w text config reference_audio)
    (fun e => _send_error e).

(** The body of the loop of [handle_client] for one inbound message. *)
Definition handle_message (rt : runtime) (message : string) (w : world) : M unit :=
  match json_loads rt message with
  | JSONDecodeError => _send_error "Invalid JSON format"
  | OtherError e => _send_error e
  | Decoded data =>
      try_except
        (let* message_type := lift (py_get data "type" (JStr "")) in
         if eq_str message_type "tts_request" then handle_tts_request rt w data
         else if eq_str message_type "tts_stream_request"
              then handle_streaming_request w data
         else if eq_str message_type "ping" then
           fun h => emit [Send (pong "alive" (initialized h))] h
         else _send_error ("Unknown message type: " +:+ format_value rt message_type))
        (fun e => _send_error e)
  end.

(** [handle_client]: messages are handled one after the other; a handler that
    has not returned keeps the later messages waiting, and an exception that
    leaves a handler ends the connection's coroutine. *)
Fixpoint handle_client (rt : runtime) (inbound : list (string * world)) : M unit :=
  match inbound with
  | [] => ret tt
  | (message, w) :: rest =>
      let* _ := handle_message rt message w in handle_client rt rest
  end.

Definition trace_of {A} (r : WebSocketTTSHandler * list event * outcome A)
  : list event := snd (fst r).

Definition state_of {A} (r : WebSocketTTSHandler * list event * outcome A)
  : WebSocketTTSHandler := fst (fst r).

Definition outcome_of {A} (r : WebSocketTTSHandler * list event * outcome A)
  : outcome A := snd r.

(** The envelopes among the events, in order. *)
Definition sent_of (t : list event) : list envelope :=
  flat_map (fun ev => match ev with Send e => [e] | _ => [] end) t.

Definition is_generation (ev : event) : bool :=
  match ev with
  | Generate _ | ThreadStart _ => true
  | _ => false
  end.

Definition is_load (ev : event) : bool :=
  match ev with LoadModels => true | _ => false end.

(** ** Startup

    [main]: the models are loaded before the server accepts connections; an
    exception of [initialize] leaves [main] before anything is served.  One
    connection is followed. *)
Definition main (rt : runtime) (w : world) (inbound : list (string * world))
  : M unit :=
  let* _ := initialize w in
  handle_client rt inbound.

(** ** Vocabulary of the properties *)

(** [v] is [q] with its fractional part dropped: no further from zero than
    [q], and less than one away from it. *)
Definition truncation_of (q : Q) (v : Z) : Prop :=
  (Qabs (inject_Z v) <= Qabs q)%Q /\ (Qabs (q - inject_Z v) < 1)%Q.

(** The terminal entry the worker puts for a run, if it puts one. *)
Definition sentinel_of (run : gen_run) : option qitem :=
  match ending_of run with
  | Returns => Some QDone
  | Raises msg => Some (QError msg)
  | RaisesBase _ => None
  end.

Definition sentinel_puts (run : gen_run) : list qitem :=
  match sentinel_of run with
  | Some s => [s]
  | None => []
  end.

(** The envelope the consumer sends on a terminal entry. *)
Definition terminal_envelope (it : qitem) : envelope :=
  match it with
  | QError data => error_envelope ("Generation error: " +:+ data)
  | _ => complete_envelope
  end.

(** What holds of a streaming request at every moment: while the consumer is
    in its loop it has sent one chunk message per entry received, and received
    entries, queued entries and entries still to be put make up the worker's
    puts in order; once it has left the loop it has sent one more message, for
    the sentinel or for the timeout. *)
Inductive bridge_inv (fmt : float_format) (run : gen_run) (b : bridge) : Prop :=
| inv_waiting (got : list chunk) :
    consumer_waiting b = true ->
    sent b = map (chunk_envelope fmt) got ->
    map QChunk got ++ chunk_queue b ++ worker_todo b = fst (generate run) ->
    bridge_inv fmt run b
| inv_finished (s : qitem) :
    consumer_waiting b = false ->
    sentinel_of run = Some s ->
    sent b = map (chunk_envelope fmt) (emitted run) ++ [terminal_envelope s] ->
    chunk_queue b = [] ->
    worker_todo b = [] ->
    bridge_inv fmt run b
| inv_timed_out (got : list chunk) :
    consumer_waiting b = false ->
    sent b = map (chunk_envelope fmt) got ++ [error_envelope "Generation timeout"] ->
    map QChunk got ++ chunk_queue b ++ worker_todo b = fst (generate run) ->
    bridge_inv fmt run b.

(** The initialization flag after a trace that started with [flag]. *)
Definition flag_after (flag : bool) (t : list event) : bool :=
  flag || existsb is_load t.

(** A trace is coherent with the flag it started from: the models are loaded
    only while the flag is unset, which sets it, and every pong says "alive"
    and reports the flag as it is at that point. *)
Fixpoint trace_ok (flag : bool) (t : list event) : bool :=
  match t with
  | [] => true
  | LoadModels :: t' => negb flag && trace_ok true t'
  | Send (pong s b) :: t' => String.eqb s "alive" && Bool.eqb b flag && trace_ok flag t'
  | _ :: t' => trace_ok flag t'
  end.

Definition is_pong_msg (e : envelope) : bool :=
  match e with pong _ _ => true | _ => false end.

(** What every handler call keeps: a coherent trace, a flag that is the one
    the trace leads to, and no [Exception] left uncaught. *)
Definition coherent {A} (h : WebSocketTTSHandler)
    (r : WebSocketTTSHandler * list event * outcome A) : Prop :=
  trace_ok (initialized h) (trace_of r) = true /\
  initialized (state_of r) = flag_after (initialized h) (trace_of r) /\
  forall msg, outcome_of r <> Raised msg.

(** The chunks among queue entries, in order. *)
Definition chunks_of (l : list qitem) : list chunk :=
  flat_map (fun it => match it with QChunk c => [c] | _ => [] end) l.

(** The same world with another interleaving. *)
Definition with_schedule (w : world) (sched : list choice) : world :=
  {| load_models := load_models w; generator := generator w;
     sample_format := sample_format w; schedule := sched |}.

(** Two decoded requests that differ at most in [data.reference_audio]. *)
Definition same_but_reference_audio (m1 m2 : json) : Prop :=
  exists (msg d1 d2 : gmap string json),
    m1 = JObj (<["data" := JObj d1]> msg) /\
    m2 = JObj (<["data" := JObj d2]> msg) /\
    delete "reference_audio" d1 = delete "reference_audio" d2.

Ltac unfold_monad :=
  unfold _send_error, try_except, bind, lift, ret, raise, raise_base, emit, pending.

(** Membership in a list that computes. *)
Ltac in_list := vm_compute; repeat (first [left; reflexivity | right]).

(** A schedule that computes, without a timeout. *)
Ltac no_timeout :=
  vm_compute; intros H; repeat (destruct H as [H | H]; [discriminate H |]); exact H.

(** ** Vocabulary of the further properties *)

(** The value a number is rounded to, before the test for overflow: the
    nearest multiple of its unit in the last place. *)
Definition rnd (fmt : float_format) (q : Q) : Q :=
  Qshift (inject_Z (Qround_nearest (Qshift q (- ulp_exponent fmt q))))
    (ulp_exponent fmt q).

(** The audio bytes and the duration a chunk message carries. *)
Definition chunk_audio (e : envelope) : list Z :=
  match e with
  | tts_stream_chunk audio _ _ => audio
  | _ => []
  end.

Definition chunk_seconds (e : envelope) : Q :=
  match e with
  | tts_stream_chunk _ _ metadata => cm_duration metadata
  | _ => 0%Q
  end.

Definition chunk_size_field (e : envelope) : nat :=
  match e with
  | tts_stream_chunk _ _ metadata => cm_chunk_size metadata
  | _ => 0%nat
  end.

Definition Qsum (l : list Q) : Q := fold_right Qplus 0%Q l.

(** The shapes of envelope the server builds. *)
Definition server_envelope (e : envelope) : Prop :=
  (exists m, e = error_envelope m) \/
  (exists b, e = pong "alive" b) \/
  (exists audio config, e = success_envelope audio config) \/
  (exists fmt c, e = chunk_envelope fmt c) \/
  e = complete_envelope.

(** The keys of a configuration that reach the Generator and its writer, and
    those that are echoed in the metadata of a full response. *)
Definition generation_keys : list string :=
  ["max_tokens"; "chunk_size"; "lookback_frames"].

Definition metadata_keys : list string := ["language"; "emotion"; "speed"].

(** A decoded request of a given type, text and configuration, with whatever
    else in its data. *)
Definition request_with (msg data : gmap string json) (text : option json)
    (config : gmap string json) : Prop :=
  default (JObj ∅) (msg !! "data") = JObj data /\
  data !! "text" = text /\
  default (JObj ∅) (data !! "config") = JObj config.

(** The configuration object made from a dictionary. *)
Definition config_of (c : gmap string json) : TTSConfig :=
  {| temperature := default TEMPERATURE (c !! "temperature");
     max_tokens := default MAX_TOKENS (c !! "max_tokens");
     top_p := default TOP_P (c !! "top_p");
     chunk_size := default CHUNK_SIZE (c !! "chunk_size");
     lookback_frames := default LOOKBACK_FRAMES (c !! "lookback_frames");
     language := default (JStr "spanish") (c !! "language");
     emotion := default (JStr "neutral") (c !! "emotion");
     speed := default (JFloat 1) (c !! "speed");
     voice_id := default (JStr "default") (c !! "voice_id") |}.

(** What [initialize] leaves: the state and the events, or the exception. *)
Definition loaded (w : world) (h : WebSocketTTSHandler)
  : result (WebSocketTTSHandler * list event) :=
  if initialized h then Ok (h, [])
  else
    match load_models w with
    | Ok _ => Ok ({| initialized := true |}, [LoadModels])
    | Exc e => Exc e
    end.

(** How a full request ends once the Generator has been called on [a]: the
    one envelope that answers it, or the exception that leaves the handler. *)
Definition full_reply (rt : runtime) (w : world) (a : gen_args)
    (config : TTSConfig) : list event * outcome unit :=
  match ending_of (generator w a) with
  | RaisesBase e => ([], RaisedBase e)
  | Raises e => ([Send (error_envelope e)], Done tt)
  | Returns =>
      match emitted (generator w a) with
      | [] => ([Send (error_envelope "No audio generated")], Done tt)
      | _ :: _ =>
          match wav_write (array_dtype rt) SAMPLE_RATE
                  (concat (emitted (generator w a))) with
          | Ok audio => ([Send (success_envelope audio config)], Done tt)
          | Exc e => ([Send (error_envelope e)], Done tt)
          end
      end
  end.

(** An inbound message that decodes to a request of type [kind] with a text
    that passes validation and a configuration that is a dictionary. *)
Definition valid_request (rt : runtime) (m kind : string)
    (text : json) (c : gmap string json) : Prop :=
  exists msg d,
    json_loads rt m = Decoded (JObj msg) /\
    msg !! "type" = Some (JStr kind) /\
    request_with msg d (Some text) c /\
    truthy text = true.

(** ** Sample inputs *)

(** A thousand opening brackets: not JSON, and nested too deep for the
    decoder, which gives up with a [RecursionError]. *)
Definition deep_frame : string :=
  string_of_list_ascii (repeat "["%char 1000).

Definition recursion_error : string :=
  "maximum recursion depth exceeded while decoding a JSON array from a unicode string".

(** A decoder that knows a few texts and rejects every other one. *)
Definition sample_request (kind text : string) : json :=
  JObj (<["type" := JStr kind]> {["data" := JObj {["text" := JStr text]}]}).

Definition sample_loads (s : string) : decoding :=
  if String.eqb s "ping" then Decoded (JObj {["type" := JStr "ping"]})
  else if String.eqb s "say" then Decoded (sample_request "tts_request" "Hola")
  else if String.eqb s "stream"
       then Decoded (sample_request "tts_stream_request" "Hola")
  else if String.eqb s "mute" then Decoded (sample_request "tts_request" "")
  else if String.eqb s "dance" then Decoded (JObj {["type" := JStr "dance"]})
  else if String.eqb s deep_frame then OtherError recursion_error
  else JSONDecodeError.

Definition sample_runtime : runtime :=
  {| json_loads := sample_loads;
     py_str := fun _ => "?";
     array_dtype := int16_dtype |}.

(** Two chunks, of two samples and of one. *)
Definition sample_run : gen_run :=
  {| emitted := [[Num (1 # 4); Num (-1)]; [Num 0]]; ending_of := Returns |}.

Definition sample_world : world :=
  {| load_models := Ok tt;
     generator := fun _ => sample_run;
     sample_format := binary32;
     schedule := drain_schedule 3 |}.

(** The same, the arrays holding 16-bit integers. *)
Definition pcm_world : world :=
  {| load_models := Ok tt;
     generator := fun _ =>
       {| emitted := [[Num (inject_Z 8191); Num (inject_Z (-32767))]; [Num 0]];
          ending_of := Returns |};
     sample_format := binary32;
     schedule := drain_schedule 3 |}.

Definition pcm_audio : list Z :=
  [82; 73; 70; 70; 42; 0; 0; 0; 87; 65; 86; 69; 102; 109; 116; 32;
   16; 0; 0; 0; 1; 0; 1; 0; 34; 86; 0; 0; 68; 172; 0; 0; 2; 0; 16; 0;
   100; 97; 116; 97; 6; 0; 0; 0; 255; 31; 1; 128; 0; 0].

Definition pcm_metadata : response_metadata :=
  {| md_duration := response_duration pcm_audio;
     md_sample_rate := SAMPLE_RATE;
     md_channels := 1;
     md_language := JStr "spanish";
     md_emotion := JStr "neutral";
     md_speed := JFloat 1 |}.

Definition default_args (text : string) : gen_args :=
  {| g_text := JStr text; g_max_tokens := MAX_TOKENS;
     g_chunk_size := CHUNK_SIZE; g_lookback_frames := LOOKBACK_FRAMES |}.

(** A Generator that returns without a chunk. *)
Definition silent_world : world :=
  {| load_models := Ok tt;
     generator := fun _ => {| emitted := []; ending_of := Returns |};
     sample_format := binary32;
     schedule := drain_schedule 1 |}.

Definition fresh_handler : WebSocketTTSHandler := {| initialized := false |}.

(** A Generator that raises after one chunk. *)
Definition failing_world : world :=
  {| load_models := Ok tt;
     generator := fun _ =>
       {| emitted := [[Num (1 # 4)]]; ending_of := Raises "CUDA out of memory" |};
     sample_format := binary32;
     schedule := drain_schedule 2 |}.

(** A Generator that raises before its first chunk. *)
Definition stillborn_world : world :=
  {| load_models := Ok tt;
     generator := fun _ =>
       {| emitted := []; ending_of := Raises "CUDA out of memory" |};
     sample_format := binary32;
     schedule := drain_schedule 1 |}.

(** A Generator that calls [sys.exit] after one chunk; the consumer drains
    the queue and then waits in vain. *)
Definition exiting_run : gen_run :=
  {| emitted := [[Num (1 # 4)]]; ending_of := RaisesBase "1" |}.

Definition exiting_world : world :=
  {| load_models := Ok tt;
     generator := fun _ => exiting_run;
     sample_format := binary32;
     schedule := starve_schedule 1 |}.

(** Pairs of floats: around the rounding of a scaled sample, at the limits
    of the exponent range, and special values. *)
Definition float_pairs : list (spec_float * spec_float) :=
  [(S754_finite false 32769 (-16), S754_finite false 32767 0);
   (S754_finite true 32769 (-30), S754_finite false 32767 0);
   (S754_finite false 11184811 (-25), S754_finite false 32767 0);
   (S754_finite false 1 0, S754_finite false 32767 0);
   (S754_finite true 1 (-149), S754_finite false 1 (-1));
   (S754_finite true 3 (-149), S754_finite false 1 (-1));
   (S754_finite false 16777215 104, S754_finite false 32767 0);
   (S754_infinity true, S754_finite false 32767 0);
   (S754_nan, S754_finite false 32767 0);
   (S754_zero false, S754_finite false 32767 0)].

(** Models that cannot be loaded. *)
Definition unloadable_world : world :=
  {| load_models := Exc "weights not found";
     generator := fun _ => sample_run;
     sample_format := binary32;
     schedule := drain_schedule 3 |}.

(** * Properties *)

(** ** Floating-point products *)

(** On the sample pairs the product is the one of the Standard Library's
    IEEE 754 specification, in single and in double precision. *)
Example fmul_is_SFmul_binary32 :
  map (fun ab => fmul binary32 (SF2scalar (fst ab)) (SF2scalar (snd ab))) float_pairs
    = map (fun ab => SF2scalar (SFmul 24 128 (fst ab) (snd ab))) float_pairs.
Proof. vm_compute. reflexivity. Qed.

Example fmul_is_SFmul_binary64 :
  map (fun ab => fmul binary64 (SF2scalar (fst ab)) (SF2scalar (snd ab))) float_pairs
    = map (fun ab => SF2scalar (SFmul 53 1024 (fst ab) (snd ab))) float_pairs.
Proof. vm_compute. reflexivity. Qed.

Lemma pow2_pos e : (0 < 2 ^ e)%Q.
Proof. apply Qpower_0_lt. reflexivity. Qed.

Lemma pow2_Z k : 0 <= k -> (inject_Z (2 ^ k) == 2 ^ k)%Q.
Proof. intros Hk. apply (Zpower_Qpower 2 k Hk). Qed.

Lemma Qshift_back q e : (Qshift (Qshift q (- e)) e == q)%Q.
Proof.
  unfold Qshift. rewrite Qpower_opp.
  pose proof (pow2_pos e) as Hp. field. lra.
Qed.

(** The nearest integer is at most a half away. *)
Lemma Qround_nearest_spec x :
  (inject_Z (Qround_nearest x) - (1 # 2) <= x)%Q /\
  (x <= inject_Z (Qround_nearest x) + (1 # 2))%Q.
Proof.
  unfold Qround_nearest.
  pose proof (Qfloor_le x) as Hlo. pose proof (Qlt_floor x) as Hhi.
  rewrite inject_Z_plus in Hhi. change (inject_Z 1) with 1%Q in Hhi.
  set (f := Qfloor x) in *.
  destruct (Qcompare_spec (x - inject_Z f) (1 # 2)) as [H | H | H].
  - destruct (Z.even f); rewrite ?inject_Z_plus; change (inject_Z 1) with 1%Q; lra.
  - lra.
  - rewrite inject_Z_plus. change (inject_Z 1) with 1%Q. lra.
Qed.

Lemma Qround_nearest_bound x N :
  (Qabs x <= inject_Z N)%Q -> Z.abs (Qround_nearest x) <= N.
Proof.
  intros H. apply Qabs_Qle_condition in H as [Hlo Hhi].
  destruct (Qround_nearest_spec x) as [H1 H2].
  set (n := Qround_nearest x) in *.
  assert (Hn1 : (inject_Z n < inject_Z (N + 1))%Q)
    by (rewrite inject_Z_plus; change (inject_Z 1) with 1%Q; lra).
  assert (Hn2 : (inject_Z (- N - 1) < inject_Z n)%Q).
  { unfold Z.sub. rewrite !inject_Z_plus, inject_Z_opp.
    change (inject_Z (- (1))) with (- (1))%Q. lra. }
  rewrite <- Zlt_Qlt in Hn1, Hn2. lia.
Qed.

Lemma Qround_nearest_exact x k : (x == inject_Z k)%Q -> Qround_nearest x = k.
Proof.
  intros H. destruct (Qround_nearest_spec x) as [H1 H2].
  set (n := Qround_nearest x) in *. rewrite H in H1, H2.
  assert (Hn1 : (inject_Z n < inject_Z (k + 1))%Q)
    by (rewrite inject_Z_plus; change (inject_Z 1) with 1%Q; lra).
  assert (Hn2 : (inject_Z (k - 1) < inject_Z n)%Q).
  { unfold Z.sub. rewrite !inject_Z_plus.
    change (inject_Z (- (1))) with (- (1))%Q. lra. }
  rewrite <- Zlt_Qlt in Hn1, Hn2. lia.
Qed.

(** The binary exponent is one: it is not above the value. *)
Lemma Qlog2_le q : ~ (q == 0)%Q -> (2 ^ Qlog2 q <= Qabs q)%Q.
Proof.
  intros Hq. unfold Qlog2.
  set (a := Z.log2 (Z.abs (Qnum q))). set (b := Z.log2 (Z.pos (Qden q))).
  destruct (Qle_bool (2 ^ (a - b)) (Qabs q)) eqn:E.
  - apply Qle_bool_iff in E. exact E.
  - assert (Hn : 0 < Z.abs (Qnum q)).
    { destruct q as [n d]. unfold Qeq in Hq. cbn in Hq |- *. lia. }
    assert (Ha : 0 <= a) by apply Z.log2_nonneg.
    assert (Hb : 0 <= b) by apply Z.log2_nonneg.
    destruct (Z.log2_spec _ Hn) as [Ha1 _]. fold a in Ha1.
    destruct (Z.log2_spec (Z.pos (Qden q)) ltac:(lia)) as [_ Hb2]. fold b in Hb2.
    replace (a - b - 1) with (a - Z.succ b) by lia.
    rewrite Qpower_minus by discriminate.
    rewrite <- !pow2_Z by lia.
    apply Qle_shift_div_r.
    + change 0%Q with (inject_Z 0). rewrite <- Zlt_Qlt. lia.
    + destruct q as [n d]. cbn [Qnum Qden] in *.
      unfold Qabs, Qle, Qmult, inject_Z. cbn [Qnum Qden].
      assert (0 < 2 ^ a) by (apply Z.pow_pos_nonneg; lia).
      nia.
Qed.

(** In a format of fifteen bits or more the values up to 32767 in magnitude
    are whole multiples of the unit in the last place of their neighbours. *)
Lemma ulp_exponent_small fmt q :
  ~ (q == 0)%Q -> (Qabs q <= 32767 # 1)%Q -> 15 <= prec fmt -> 16 <= emax fmt ->
  ulp_exponent fmt q <= 0.
Proof.
  intros Hq Hb Hp He. unfold ulp_exponent, emin.
  assert (Hl : Qlog2 q < 15).
  { apply Z.lt_nge. intros Hge.
    pose proof (Qlog2_le q Hq) as Hlow.
    assert (H15 : (2 ^ 15 <= 2 ^ Qlog2 q)%Q)
      by (apply Qpower_le_compat_l; [exact Hge | discriminate]).
    change (2 ^ 15)%Q with (32768 # 1)%Q in H15. lra. }
  lia.
Qed.

(** Rounding a value whose unit in the last place is at most one: there is
    no overflow below [2 ^ emax], a whole-number bound is kept, and the error
    is at most half a unit in the last place. *)
Lemma round_ne_finite fmt q N :
  ~ (q == 0)%Q -> ulp_exponent fmt q <= 0 ->
  (Qabs q <= inject_Z N)%Q -> (inject_Z N < 2 ^ emax fmt)%Q ->
  exists p, round_ne fmt q = Num p /\
            (Qabs p <= inject_Z N)%Q /\
            (Qabs (p - q) <= 2 ^ (ulp_exponent fmt q - 1))%Q.
Proof.
  intros Hq He HN Hmax. unfold round_ne.
  destruct (Qeq_bool q 0) eqn:E0; [apply Qeq_bool_iff in E0; contradiction |].
  set (e := ulp_exponent fmt q) in *. cbv zeta.
  set (s := Qshift q (- e)).
  set (n := Qround_nearest s).
  set (r := Qshift (inject_Z n) e).
  pose proof (pow2_pos e) as Hpe. pose proof (pow2_pos (- e)) as Hpme.
  assert (Hinv : (2 ^ e * 2 ^ (- e) == 1)%Q).
  { rewrite Qpower_opp. field. lra. }
  assert (Hs : (Qabs s <= inject_Z (N * 2 ^ (- e)))%Q).
  { unfold s, Qshift. rewrite Qabs_Qmult, inject_Z_mult, pow2_Z by lia.
    rewrite (Qabs_pos (2 ^ (- e))) by lra.
    apply Qmult_le_compat_r; [exact HN | lra]. }
  assert (Hn : (Qabs (inject_Z n) <= inject_Z (N * 2 ^ (- e)))%Q).
  { pose proof (Qround_nearest_bound s _ Hs) as Hb. fold n in Hb.
    change (Qabs (inject_Z n)) with (inject_Z (Z.abs n)).
    rewrite <- Zle_Qle. exact Hb. }
  assert (Hr : (Qabs r <= inject_Z N)%Q).
  { unfold r, Qshift. rewrite Qabs_Qmult, (Qabs_pos (2 ^ e)) by lra.
    rewrite inject_Z_mult, pow2_Z in Hn by lia.
    assert (H : (Qabs (inject_Z n) * 2 ^ e <= inject_Z N * 2 ^ (- e) * 2 ^ e)%Q)
      by (apply Qmult_le_compat_r; [exact Hn | lra]).
    rewrite <- Qmult_assoc, (Qmult_comm (2 ^ (- e))), Hinv, Qmult_1_r in H.
    exact H. }
  destruct (Qle_bool (2 ^ emax fmt) (Qabs r)) eqn:Eov.
  { apply Qle_bool_iff in Eov. lra. }
  exists (Qred r). split; [reflexivity |]. rewrite !Qred_correct.
  split; [exact Hr |].
  destruct (Qround_nearest_spec s) as [H1 H2]. fold n in H1, H2.
  assert (Hq' : (q == s * 2 ^ e)%Q).
  { unfold s. symmetry. apply Qshift_back. }
  assert (Hdiff : (r - q == (inject_Z n - s) * 2 ^ e)%Q).
  { unfold r, Qshift. rewrite Hq' at 1. ring. }
  rewrite Hdiff, Qabs_Qmult, (Qabs_pos (2 ^ e)) by lra.
  replace (e - 1) with (e + - 1) by lia.
  rewrite Qpower_plus by discriminate.
  change (2 ^ (- 1))%Q with (1 # 2)%Q.
  assert (Habs : (Qabs (inject_Z n - s) <= 1 # 2)%Q)
    by (apply Qabs_Qle_condition; split; lra).
  rewrite (Qmult_comm (2 ^ e)).
  apply Qmult_le_compat_r; [exact Habs | lra].
Qed.

(** A value that is a whole number of units in the last place is kept. *)
Lemma round_ne_exact fmt q k :
  ~ (q == 0)%Q ->
  (Qshift q (- ulp_exponent fmt q) == inject_Z k)%Q ->
  (Qabs q < 2 ^ emax fmt)%Q ->
  round_ne fmt q = Num (Qred q).
Proof.
  intros Hq Hk Hmax. unfold round_ne.
  destruct (Qeq_bool q 0) eqn:E0; [apply Qeq_bool_iff in E0; contradiction |].
  cbv zeta. rewrite (Qround_nearest_exact _ _ Hk).
  assert (Hr : (Qshift (inject_Z k) (ulp_exponent fmt q) == q)%Q).
  { unfold Qshift at 1. rewrite <- Hk. apply Qshift_back. }
  destruct (Qle_bool _ _) eqn:Eov.
  { apply Qle_bool_iff in Eov. rewrite Hr in Eov. lra. }
  f_equal. apply Qred_complete, Hr.
Qed.

Lemma pow2_emax fmt : 16 <= emax fmt -> (65536 # 1 <= 2 ^ emax fmt)%Q.
Proof.
  intros He. change (65536 # 1)%Q with (2 ^ 16)%Q.
  apply Qpower_le_compat_l; [exact He | discriminate].
Qed.

(** With fifteen bits of significand the factor 32767 is a value of the
    format. *)
Lemma round_ne_32767 fmt :
  15 <= prec fmt -> 16 <= emax fmt ->
  round_ne fmt (inject_Z 32767) = Num (inject_Z 32767).
Proof.
  intros Hp He.
  assert (Hnz : ~ (inject_Z 32767 == 0)%Q) by discriminate.
  assert (Hexp : ulp_exponent fmt (inject_Z 32767) <= 0).
  { apply ulp_exponent_small; auto. discriminate. }
  rewrite (round_ne_exact fmt (inject_Z 32767)
             (32767 * 2 ^ (- ulp_exponent fmt (inject_Z 32767)))).
  - reflexivity.
  - exact Hnz.
  - unfold Qshift. rewrite inject_Z_mult, pow2_Z by lia. reflexivity.
  - pose proof (pow2_emax fmt He) as H16.
    change (Qabs (inject_Z 32767)) with (32767 # 1)%Q. lra.
Qed.

(** The product of a sample within [-1, 1] with 32767, as the format has it:
    finite, within 32767 in magnitude, and at most half a unit in the last
    place from the exact product. *)
Lemma scaled_sample fmt q :
  15 <= prec fmt -> 16 <= emax fmt ->
  (-1 <= q)%Q -> (q <= 1)%Q ->
  exists p,
    fmul fmt (Num q) (round_ne fmt (inject_Z 32767)) = Num p /\
    round_ne fmt (q * inject_Z 32767) = Num p /\
    (Qabs p <= inject_Z 32767)%Q /\
    (Qabs (p - q * inject_Z 32767)
       <= 2 ^ (ulp_exponent fmt (q * inject_Z 32767) - 1))%Q.
Proof.
  intros Hp He Hlo Hhi. rewrite (round_ne_32767 fmt Hp He). cbn [fmul].
  assert (Hb : (Qabs (q * inject_Z 32767) <= inject_Z 32767)%Q).
  { apply Qabs_Qle_condition. change (inject_Z 32767) with (32767 # 1)%Q.
    split; lra. }
  destruct (Qeq_dec (q * inject_Z 32767) 0) as [Hz | Hnz].
  - exists 0%Q. unfold round_ne.
    assert (E : Qeq_bool (q * inject_Z 32767) 0 = true)
      by (apply Qeq_bool_iff, Hz).
    rewrite E. split; [reflexivity |]. split; [reflexivity |].
    split; [discriminate |].
    assert (Hd : (0 - q * inject_Z 32767 == 0)%Q) by (rewrite Hz; ring).
    rewrite Hd. change (Qabs 0) with 0%Q. apply Qlt_le_weak, pow2_pos.
  - assert (Hexp : ulp_exponent fmt (q * inject_Z 32767) <= 0)
      by (apply ulp_exponent_small; auto).
    destruct (round_ne_finite fmt (q * inject_Z 32767) 32767 Hnz Hexp Hb)
      as (p & Hr & Hpb & Herr).
    + pose proof (pow2_emax fmt He) as H16.
      change (inject_Z 32767) with (32767 # 1)%Q. lra.
    + exists p. auto.
Qed.

(** ** Audio framing *)

Example pcm_quarter : chunk_bytes binary32 [Num (1 # 4)] = [255; 31].
Proof. vm_compute. reflexivity. Qed.

Example spec_quarter : toPCM16_spec [(1 # 4)%Q] = [0; 32].
Proof. reflexivity. Qed.

Example pcm_negative :
  chunk_bytes binary32 [Num (-1); Num (1 # 2)] = [1; 128; 255; 63].
Proof. vm_compute. reflexivity. Qed.

(** Nothing clamps: twice full scale is 65534 after scaling and, kept on 16
    bits, reads back as -2, where clamping first would give 32767. *)
Example pcm_out_of_range :
  decode_pcm16 (chunk_bytes binary32 [Num 2]) = [-2] /\
  decode_pcm16 (toPCM16_spec [2%Q]) = [32767].
Proof. split; vm_compute; reflexivity. Qed.

(** The product is rounded before it is truncated: 32769/65536 times 32767
    is 16384 - 1/65536, which single precision rounds up to 16384 and double
    precision keeps. *)
Example pcm_rounded_product :
  pcm_data binary32 [Num (32769 # 65536)] = [16384] /\
  pcm_data binary64 [Num (32769 # 65536)] = [16383].
Proof. split; vm_compute; reflexivity. Qed.

(** In half precision 32767 is not a value of the format: the factor is
    32768, and full scale wraps around. *)
Example pcm_half_precision : pcm_data binary16 [Num 1] = [-32768].
Proof. vm_compute. reflexivity. Qed.

(** Beyond the 32-bit integers, and for infinities and NaN, the item is 0. *)
Example pcm_not_a_number :
  pcm_data binary32 [Num (inject_Z 100000); Inf false; Inf true; NaN] = [0; 0; 0; 0].
Proof. vm_compute. reflexivity. Qed.

Lemma wrap_int16_small z : -32768 <= z < 32768 -> wrap_int16 z = z.
Proof.
  intros Hz. unfold wrap_int16.
  rewrite Z.mod_small by lia. lia.
Qed.

Lemma land_255 v : Z.land v 255 = v mod 256.
Proof. change 255 with (Z.ones 8). rewrite Z.land_ones by lia. reflexivity. Qed.

Lemma byte_range v : 0 <= Z.land v 255 < 256.
Proof. rewrite land_255. apply Z.mod_pos_bound. lia. Qed.

Lemma int16_recombine v :
  Z.land v 255 + 256 * Z.land (Z.shiftr v 8) 255 = v mod 65536.
Proof.
  rewrite !land_255, Z.shiftr_div_pow2 by lia.
  change (2 ^ 8) with 256. change 65536 with (256 * 256).
  rewrite Z.rem_mul_r by lia. reflexivity.
Qed.

Lemma int16_roundtrip v :
  -32768 <= v < 32768 ->
  int16_frombytes (Z.land v 255) (Z.land (Z.shiftr v 8) 255) = v.
Proof.
  intros Hv. unfold int16_frombytes. rewrite int16_recombine.
  unfold wrap_int16.
  destruct (Z.neg_nonneg_cases v) as [Hneg | Hpos].
  - replace (v mod 65536) with (v + 65536).
    + replace (v + 65536 + 32768) with (v + 32768 + 1 * 65536) by lia.
      rewrite Z.mod_add by lia. rewrite Z.mod_small by lia. lia.
    + apply Z.mod_unique with (q := -1); lia.
  - rewrite (Z.mod_small v) by lia. rewrite Z.mod_small by lia. lia.
Qed.

Lemma decode_tobytes vs :
  Forall (fun v => -32768 <= v < 32768) vs ->
  decode_pcm16 (flat_map int16_tobytes vs) = vs.
Proof.
  induction 1 as [| v vs Hv _ IH]; [reflexivity |].
  cbn [flat_map int16_tobytes app decode_pcm16].
  rewrite int16_roundtrip by assumption. f_equal. exact IH.
Qed.

Lemma Qtrunc_truncation q : truncation_of q (Qtrunc q).
Proof.
  destruct q as [n d]. unfold truncation_of, Qtrunc. cbn [Qnum Qden].
  pose proof (Z.quot_rem' n (Z.pos d)) as Hqr.
  assert (Hd : 0 < Z.pos d) by lia.
  set (t := n ÷ Z.pos d) in *. set (r := Z.rem n (Z.pos d)) in *.
  assert (Hsign : (0 <= n /\ 0 <= t /\ 0 <= r < Z.pos d) \/
                  (n <= 0 /\ t <= 0 /\ - Z.pos d < r <= 0)).
  { destruct (Z.neg_nonneg_cases n) as [Hneg | Hpos].
    - right. split; [lia |]. split.
      + subst t. apply Z.quot_le_upper_bound; lia.
      + subst r. apply Z.rem_bound_pos_neg; lia.
    - left. split; [lia |]. split.
      + subst t. apply Z.quot_pos; lia.
      + subst r. apply Z.rem_bound_pos; lia. }
  unfold Qabs, Qle, Qlt, Qminus, Qplus, Qopp, inject_Z. cbn [Qnum Qden].
  split.
  - destruct Hsign as [(H1 & H2 & H3) | (H1 & H2 & H3)]; nia.
  - destruct Hsign as [(H1 & H2 & H3) | (H1 & H2 & H3)]; nia.
Qed.

Lemma Qtrunc_within q N : (Qabs q <= inject_Z N)%Q -> - N <= Qtrunc q <= N.
Proof.
  intros Hq. destruct (Qtrunc_truncation q) as [Ht _].
  assert (H : (inject_Z (Z.abs (Qtrunc q)) <= inject_Z N)%Q).
  { change (inject_Z (Z.abs (Qtrunc q))) with (Qabs (inject_Z (Qtrunc q))). lra. }
  rewrite <- Zle_Qle in H. lia.
Qed.

(** An item within the int16 range is converted by truncation alone. *)
Lemma astype_int16_small p :
  (Qabs p <= inject_Z 32767)%Q -> astype_int16 (Num p) = Qtrunc p.
Proof.
  intros Hp. pose proof (Qtrunc_within p 32767 Hp) as Ht.
  unfold astype_int16.
  replace (-2147483648 <=? Qtrunc p) with true by (symmetry; apply Z.leb_le; lia).
  replace (Qtrunc p <=? 2147483647) with true by (symmetry; apply Z.leb_le; lia).
  cbn [andb]. apply wrap_int16_small. lia.
Qed.

Lemma chunk_bytes_length fmt data :
  length (chunk_bytes fmt data) = (2 * length data)%nat.
Proof.
  unfold chunk_bytes, pcm_data.
  induction data as [| x xs IH]; [reflexivity |].
  cbn [map flat_map int16_tobytes app length]. rewrite IH. lia.
Qed.

Lemma chunk_bytes_are_bytes fmt data :
  Forall (fun b => 0 <= b < 256) (chunk_bytes fmt data).
Proof.
  unfold chunk_bytes, pcm_data.
  induction data as [| x xs IH]; [constructor |].
  cbn [map flat_map int16_tobytes app].
  repeat (constructor; [apply byte_range |]). exact IH.
Qed.

Lemma astype_int16_range x : -32768 <= astype_int16 x < 32768.
Proof.
  unfold astype_int16, wrap_int16. destruct x as [q | s |]; try lia.
  destruct (_ && _); [| lia].
  pose proof (Z.mod_pos_bound (Qtrunc q + 32768) 65536 ltac:(lia)). lia.
Qed.

Lemma pcm_data_range fmt data :
  Forall (fun v => -32768 <= v < 32768) (pcm_data fmt data).
Proof.
  unfold pcm_data. induction data as [| x xs IH]; cbn [map]; constructor.
  - apply astype_int16_range.
  - exact IH.
Qed.

(** Reading a chunk's bytes back gives the 16-bit integers it was made of. *)
Lemma decode_chunk_bytes fmt data :
  decode_pcm16 (chunk_bytes fmt data) = pcm_data fmt data.
Proof. unfold chunk_bytes. apply decode_tobytes, pcm_data_range. Qed.

(** C1 (as the code has it): in a float format of fifteen bits of precision
    or more (single, double), for samples within [-1, 1], the streamed chunk
    holds two bytes per sample, and reading them back as little-endian signed
    16-bit integers gives, sample by sample, the product with 32767 as the
    format has it (the nearest value of the format, at most half a unit in
    the last place from the exact product) with its fractional part dropped
    (truncation toward zero, not rounding to nearest), each value within
    [-32767, 32767]. *)
Theorem pcm16_truncates_scaled_samples (fmt : float_format) (data : chunk) :
  15 <= prec fmt -> 16 <= emax fmt ->
  Forall in_unit_range data ->
  length (chunk_bytes fmt data) = (2 * length data)%nat /\
  Forall (fun b => 0 <= b < 256) (chunk_bytes fmt data) /\
  Forall2 (fun x v =>
             exists q p,
               x = Num q /\
               fmul fmt x (round_ne fmt (inject_Z 32767)) = Num p /\
               round_ne fmt (q * inject_Z 32767) = Num p /\
               (Qabs (p - q * inject_Z 32767)
                  <= 2 ^ (ulp_exponent fmt (q * inject_Z 32767) - 1))%Q /\
               truncation_of p v /\ -32767 <= v <= 32767)
    data (decode_pcm16 (chunk_bytes fmt data)).
Proof.
  intros Hp He Hdata. split; [apply chunk_bytes_length |].
  split; [apply chunk_bytes_are_bytes |].
  rewrite decode_chunk_bytes. unfold pcm_data.
  induction Hdata as [| x xs Hx _ IH]; cbn [map]; constructor; [| exact IH].
  destruct x as [q | s |]; cbn [in_unit_range] in Hx; try contradiction.
  destruct Hx as [Hlo Hhi].
  destruct (scaled_sample fmt q Hp He Hlo Hhi) as (p & Hmul & Hround & Hb & Herr).
  exists q, p. rewrite Hmul, (astype_int16_small p Hb).
  split; [reflexivity |]. split; [reflexivity |]. split; [exact Hround |].
  split; [exact Herr |]. split; [apply Qtrunc_truncation |].
  apply (Qtrunc_within p 32767 Hb).
Qed.

Lemma pcm16_truncates_scaled_samples_witness :
  15 <= prec binary32 /\ 16 <= emax binary32 /\
  Forall in_unit_range [Num (1 # 4); Num (-1); Num 1; Num (32769 # 65536)] /\
  length (chunk_bytes binary32 [Num (1 # 4); Num (-1); Num 1; Num (32769 # 65536)])
    = 8%nat /\
  decode_pcm16 (chunk_bytes binary32
                  [Num (1 # 4); Num (-1); Num 1; Num (32769 # 65536)])
    = [8191; -32767; 32767; 16384].
Proof.
  assert (Hp : 15 <= prec binary32) by (cbn; lia).
  assert (He : 16 <= emax binary32) by (cbn; lia).
  assert (H : Forall in_unit_range
                [Num (1 # 4); Num (-1); Num 1; Num (32769 # 65536)]).
  { repeat constructor; unfold Qle; cbn; lia. }
  split; [exact Hp |]. split; [exact He |]. split; [exact H |].
  destruct (pcm16_truncates_scaled_samples binary32 _ Hp He H) as (Hlen & _ & _).
  split; [exact Hlen | vm_compute; reflexivity].
Defined.

(** C1 (as stated) fails: a quarter of full scale is 8191.75 after scaling,
    exactly, in single as in double precision; the nearest integer is 8192
    (bytes 00 20), the chunk carries 8191 (bytes FF 1F). *)
Lemma pcm16_not_rounded_to_nearest :
  chunk_bytes binary32 [Num (1 # 4)] <> toPCM16_spec [(1 # 4)%Q] /\
  fmul binary32 (Num (1 # 4)) (round_ne binary32 (inject_Z 32767)) = Num (32767 # 4) /\
  decode_pcm16 (chunk_bytes binary32 [Num (1 # 4)]) = [8191] /\
  decode_pcm16 (chunk_bytes binary64 [Num (1 # 4)]) = [8191] /\
  decode_pcm16 (toPCM16_spec [(1 # 4)%Q]) = [8192].
Proof.
  split; [| repeat split; vm_compute; reflexivity].
  vm_compute. intros H. discriminate H.
Qed.

(** ** The worker and the hand-off queue *)

Section Bridge.

Variable fmt : float_format.
Variable run : gen_run.

Lemma fold_ChunkList_append cs l q :
  fold_left ChunkList_append cs (l, q) = (l ++ cs, q ++ map QChunk cs).
Proof.
  revert l q. induction cs as [| c cs IH]; intros l q; cbn [fold_left map].
  - rewrite !app_nil_r. reflexivity.
  - unfold ChunkList_append at 2. cbn [fst snd]. rewrite IH.
    rewrite <- !app_assoc. reflexivity.
Qed.

Lemma generate_cases :
  match ending_of run with
  | Returns => generate run = (map QChunk (emitted run) ++ [QDone], Ok tt)
  | Raises msg => generate run = (map QChunk (emitted run) ++ [QError msg], Ok tt)
  | RaisesBase msg => generate run = (map QChunk (emitted run), Exc msg)
  end.
Proof.
  unfold generate, writer_run. rewrite fold_ChunkList_append. cbn [app].
  destruct (ending_of run); reflexivity.
Qed.

Lemma generate_puts :
  fst (generate run) = map QChunk (emitted run) ++ sentinel_puts run.
Proof.
  pose proof generate_cases as H. unfold sentinel_puts, sentinel_of.
  destruct (ending_of run); rewrite H; cbn [fst]; rewrite ?app_nil_r; reflexivity.
Qed.

Lemma sentinel_puts_cases :
  (sentinel_puts run = [] /\ sentinel_of run = None) \/
  (exists s, sentinel_puts run = [s] /\ sentinel_of run = Some s
             /\ is_sentinel s = true).
Proof.
  unfold sentinel_puts, sentinel_of.
  destruct (ending_of run); [right | right | left]; eauto.
Qed.

Lemma chunk_entries_no_sentinel cs :
  List.filter is_sentinel (map QChunk cs) = [].
Proof. induction cs as [| c cs IH]; [reflexivity | exact IH]. Qed.

Lemma sentinel_position got it rest :
  is_sentinel it = true ->
  map QChunk got ++ it :: rest = fst (generate run) ->
  got = emitted run /\ sentinel_of run = Some it /\ rest = [].
Proof.
  intros Hit. rewrite generate_puts.
  destruct sentinel_puts_cases as [[-> Hnone] | (s & -> & Hsome & Hs)].
  - rewrite app_nil_r. intros H. exfalso.
    assert (Hin : In it (map QChunk (emitted run)))
      by (rewrite <- H; apply in_or_app; right; left; reflexivity).
    apply in_map_iff in Hin as (c & <- & _). discriminate Hit.
  - rewrite Hsome. generalize (emitted run) as E. clear Hsome.
    induction got as [| g got IH]; intros [| e E] H; cbn in H.
    + injection H as -> ->. auto.
    + injection H as -> _. discriminate Hit.
    + injection H as <- _. discriminate Hs.
    + injection H as -> H. destruct (IH _ H) as (-> & Heq & ->). auto.
Qed.

Lemma chunks_prefix got tail :
  map QChunk got ++ tail = fst (generate run) ->
  exists later, emitted run = got ++ later.
Proof.
  rewrite generate_puts.
  assert (Hs : Forall (fun it => is_sentinel it = true) (sentinel_puts run)).
  { destruct sentinel_puts_cases as [[-> _] | (s & -> & _ & Hs)]; auto. }
  revert Hs. generalize (sentinel_puts run) as tl. generalize (emitted run) as E.
  induction got as [| g got IH]; intros E tl Hs H.
  - exists E. reflexivity.
  - destruct E as [| e E]; cbn in H.
    + exfalso. rewrite <- H in Hs. inversion Hs as [| ? ? Hg _]. discriminate Hg.
    + injection H as -> H. destruct (IH _ _ Hs H) as [later ->].
      exists later. reflexivity.
Qed.

Lemma bridge_inv_init : bridge_inv fmt run (bridge_init run).
Proof. apply inv_waiting with (got := []); reflexivity. Qed.

Lemma bridge_inv_step b c :
  bridge_inv fmt run b -> bridge_inv fmt run (bridge_step fmt b c).
Proof.
  intros Hinv. destruct c; cbn [bridge_step].
  - (* the worker puts its next entry *)
    destruct (worker_todo b) as [| it todo] eqn:Htodo; [exact Hinv |].
    destruct Hinv as [got Hw Hs Hq | s Hw Hsome Hs Hq Ht | got Hw Hs Hq].
    + apply inv_waiting with (got := got);
        cbn [worker_todo chunk_queue consumer_waiting sent]; auto.
      rewrite <- Hq, Htodo, <- !app_assoc. reflexivity.
    + rewrite Htodo in Ht. discriminate Ht.
    + apply inv_timed_out with (got := got);
        cbn [worker_todo chunk_queue consumer_waiting sent]; auto.
      rewrite <- Hq, Htodo, <- !app_assoc. reflexivity.
  - (* the consumer receives the oldest entry *)
    destruct (consumer_waiting b) eqn:Hw; [| exact Hinv].
    destruct (chunk_queue b) as [| it rest] eqn:Hqueue; [exact Hinv |].
    destruct Hinv as [got _ Hs Hq | s Hw' _ _ _ _ | got Hw' _ _];
      [| congruence | congruence].
    rewrite Hqueue in Hq.
    destruct it as [data | | reason]; cbn [consume].
    + apply inv_waiting with (got := got ++ [data]);
        cbn [worker_todo chunk_queue consumer_waiting sent]; auto.
      * rewrite Hs, map_app. reflexivity.
      * rewrite <- Hq, map_app, <- !app_assoc. reflexivity.
    + cbn [app] in Hq.
      apply sentinel_position in Hq as (-> & Hsome & Happ); [| reflexivity].
      apply app_eq_nil in Happ as [-> Htodo].
      apply inv_finished with (s := QDone);
        cbn [worker_todo chunk_queue consumer_waiting sent]; auto.
      rewrite Hs. reflexivity.
    + cbn [app] in Hq.
      apply sentinel_position in Hq as (-> & Hsome & Happ); [| reflexivity].
      apply app_eq_nil in Happ as [-> Htodo].
      apply inv_finished with (s := QError reason);
        cbn [worker_todo chunk_queue consumer_waiting sent]; auto.
      rewrite Hs. reflexivity.
  - (* the consumer's wait times out *)
    destruct (consumer_waiting b) eqn:Hw; [| exact Hinv].
    destruct (chunk_queue b) as [| it rest] eqn:Hqueue; [| exact Hinv].
    destruct Hinv as [got _ Hs Hq | s Hw' _ _ _ _ | got Hw' _ _];
      [| congruence | congruence].
    apply inv_timed_out with (got := got);
      cbn [worker_todo chunk_queue consumer_waiting sent]; auto.
    + rewrite Hs. reflexivity.
    + rewrite <- Hq, Hqueue. reflexivity.
Qed.

Lemma bridge_inv_run sched b :
  bridge_inv fmt run b -> bridge_inv fmt run (run_bridge fmt sched b).
Proof.
  revert b. induction sched as [| c sched IH]; intros b Hinv; cbn.
  - exact Hinv.
  - apply IH, bridge_inv_step, Hinv.
Qed.

Lemma bridge_inv_reached sched :
  bridge_inv fmt run (run_bridge fmt sched (bridge_init run)).
Proof. apply bridge_inv_run, bridge_inv_init. Qed.

Lemma run_bridge_app s1 s2 b :
  run_bridge fmt (s1 ++ s2) b = run_bridge fmt s2 (run_bridge fmt s1 b).
Proof. unfold run_bridge. apply fold_left_app. Qed.

Lemma run_bridge_cons c sched b :
  run_bridge fmt (c :: sched) b = run_bridge fmt sched (bridge_step fmt b c).
Proof. reflexivity. Qed.

(** Once the consumer has left its loop nothing more is sent. *)
Lemma left_loop_step b c :
  consumer_waiting b = false ->
  consumer_waiting (bridge_step fmt b c) = false
  /\ sent (bridge_step fmt b c) = sent b.
Proof.
  intros Hw. destruct c; cbn [bridge_step]; rewrite ?Hw; auto.
  destruct (worker_todo b); cbn; auto.
Qed.

Lemma left_loop_run sched b :
  consumer_waiting b = false ->
  consumer_waiting (run_bridge fmt sched b) = false
  /\ sent (run_bridge fmt sched b) = sent b.
Proof.
  revert b. induction sched as [| c sched IH]; intros b Hw; [auto |].
  rewrite run_bridge_cons.
  destruct (left_loop_step b c Hw) as [Hw' Hs'].
  destruct (IH _ Hw') as [Hw'' Hs'']. split; congruence.
Qed.

(** What has been sent is never taken back. *)
Lemma sent_grows_step b c :
  exists more, sent (bridge_step fmt b c) = sent b ++ more.
Proof.
  destruct c; cbn [bridge_step].
  - destruct (worker_todo b); exists []; cbn; rewrite app_nil_r; reflexivity.
  - destruct (consumer_waiting b); [| exists []; rewrite app_nil_r; reflexivity].
    destruct (chunk_queue b) as [| it rest];
      [exists []; rewrite app_nil_r; reflexivity |].
    destruct it; cbn; eexists; reflexivity.
  - destruct (consumer_waiting b); [| exists []; rewrite app_nil_r; reflexivity].
    destruct (chunk_queue b); [eexists; reflexivity |].
    exists []; rewrite app_nil_r; reflexivity.
Qed.

Lemma sent_grows_run sched b :
  exists more, sent (run_bridge fmt sched b) = sent b ++ more.
Proof.
  revert b. induction sched as [| c sched IH]; intros b.
  - exists []. rewrite app_nil_r. reflexivity.
  - rewrite run_bridge_cons. destruct (sent_grows_step b c) as [m1 H1].
    destruct (IH (bridge_step fmt b c)) as [m2 H2].
    exists (m1 ++ m2). rewrite H2, H1, app_assoc. reflexivity.
Qed.

(** Letting the worker run empties its list of puts. *)
Lemma work_until_exit n b :
  (length (worker_todo b) <= n)%nat ->
  worker_todo (run_bridge fmt (repeat Work n) b) = [].
Proof.
  revert b. induction n as [| n IH]; intros b Hn; cbn [repeat].
  - destruct (worker_todo b) eqn:E; [exact E | cbn in Hn; lia].
  - rewrite run_bridge_cons. apply IH. cbn [bridge_step].
    destruct (worker_todo b) as [| it todo] eqn:Htodo; cbn.
    + rewrite Htodo. cbn. lia.
    + cbn in Hn. lia.
Qed.

Lemma get_keeps_todo n b :
  worker_todo (run_bridge fmt (repeat Get n) b) = worker_todo b.
Proof.
  revert b. induction n as [| n IH]; intros b; cbn [repeat]; [reflexivity |].
  rewrite run_bridge_cons, IH. cbn [bridge_step].
  destruct (consumer_waiting b); [| reflexivity].
  destruct (chunk_queue b) as [| it rest]; [reflexivity |].
  destruct it; reflexivity.
Qed.

(** Letting the consumer receive, with the worker gone, ends its loop or
    empties the queue. *)
Lemma get_until_empty n b :
  worker_todo b = [] ->
  (length (chunk_queue b) <= n)%nat ->
  worker_todo (run_bridge fmt (repeat Get n) b) = [] /\
  (consumer_waiting (run_bridge fmt (repeat Get n) b) = false \/
   chunk_queue (run_bridge fmt (repeat Get n) b) = []).
Proof.
  intros Htodo. rewrite get_keeps_todo. split; [exact Htodo |].
  clear Htodo. revert b H. induction n as [| n IH]; intros b Hn; cbn [repeat].
  - right. destruct (chunk_queue b) eqn:E; [exact E | cbn in Hn; lia].
  - destruct (consumer_waiting b) eqn:Hw.
    + rewrite run_bridge_cons. cbn [bridge_step]. rewrite Hw.
      destruct (chunk_queue b) as [| it rest] eqn:Hq.
      * apply IH. rewrite Hq. cbn. lia.
      * cbn in Hn. apply IH. destruct it; cbn; lia.
    + left. apply left_loop_run, Hw.
Qed.

(** The timeout envelope is sent by a timeout only. *)
Lemma timeout_needs_Timeout sched b :
  In (error_envelope "Generation timeout") (sent (run_bridge fmt sched b)) ->
  In (error_envelope "Generation timeout") (sent b) \/ In Timeout sched.
Proof.
  revert b. induction sched as [| c sched IH]; intros b Hin; [left; exact Hin |].
  rewrite run_bridge_cons in Hin. apply IH in Hin as [Hin | Hin];
    [| right; right; exact Hin].
  destruct c; cbn [bridge_step] in Hin.
  - left. destruct (worker_todo b); exact Hin.
  - left. destruct (consumer_waiting b); [| exact Hin].
    destruct (chunk_queue b) as [| it rest]; [exact Hin |].
    destruct it as [data | | reason]; cbn [consume sent] in Hin;
      apply in_app_or in Hin as [Hin | [Hin | []]]; auto; discriminate Hin.
  - right. left. reflexivity.
Qed.

Lemma waiting_not_drained got s :
  sentinel_of run = Some s ->
  map QChunk got ++ [] ++ [] <> fst (generate run).
Proof.
  intros Hsome H. cbn [app] in H. rewrite app_nil_r in H.
  assert (Hin : In s (fst (generate run))).
  { rewrite generate_puts. apply in_or_app. right.
    unfold sentinel_puts. rewrite Hsome. left. reflexivity. }
  rewrite <- H in Hin. apply in_map_iff in Hin as (c & <- & _).
  unfold sentinel_of in Hsome. destruct (ending_of run); discriminate Hsome.
Qed.

(** Every partial execution of a streaming request can be completed: once
    the worker has ended and the consumer has received what is queued, the
    loop is left, on the sentinel, or, when the worker ended without one, on
    the timeout of the next wait; then [join] returns.  A run that ends with
    a sentinel needs no timeout for it. *)
Lemma bridge_can_finish sched :
  exists more,
    joined (run_bridge fmt (sched ++ more) (bridge_init run)) = true /\
    (sentinel_of run <> None -> ~ In Timeout more).
Proof.
  set (b0 := run_bridge fmt sched (bridge_init run)).
  set (b1 := run_bridge fmt (repeat Work (length (worker_todo b0))) b0).
  set (drain := repeat Work (length (worker_todo b0))
                  ++ repeat Get (length (chunk_queue b1))).
  assert (Hdrain : ~ In Timeout drain).
  { unfold drain. intros Hin. apply in_app_or in Hin as [Hin | Hin];
      apply repeat_spec in Hin; discriminate Hin. }
  assert (Htodo : worker_todo b1 = []) by (apply work_until_exit; lia).
  destruct (get_until_empty (length (chunk_queue b1)) b1 Htodo ltac:(lia))
    as [Htodo2 Hend].
  set (b2 := run_bridge fmt (repeat Get (length (chunk_queue b1))) b1) in *.
  assert (Hb2 : run_bridge fmt (sched ++ drain) (bridge_init run) = b2).
  { unfold drain. rewrite app_assoc, !run_bridge_app. reflexivity. }
  destruct (consumer_waiting b2) eqn:Hw.
  - destruct Hend as [Hf | Hq]; [discriminate Hf |].
    destruct (sentinel_of run) as [s |] eqn:Hsome.
    + exfalso.
      assert (Hinv : bridge_inv fmt run b2)
        by (rewrite <- Hb2; apply bridge_inv_reached).
      destruct Hinv as [got _ _ Hp | s' Hw' _ _ _ _ | got Hw' _ _]; try congruence.
      rewrite Hq, Htodo2 in Hp. exact (waiting_not_drained _ _ Hsome Hp).
    + exists (drain ++ [Timeout]). split; [| intros H; contradiction].
      rewrite app_assoc, run_bridge_app, Hb2.
      cbn [run_bridge fold_left]. unfold joined, bridge_step.
      rewrite Hw, Hq. cbn. rewrite Htodo2. reflexivity.
  - exists drain. split; [| intros _; exact Hdrain].
    rewrite Hb2. unfold joined. rewrite Hw, Htodo2. reflexivity.
Qed.

(** ** The worker's puts (C3) *)

(** C3 (as the code has it): every sink call puts exactly one
    ("chunk", data) entry; when the Generator returned the worker's puts are
    the chunk entries followed by "done", when it raised an [Exception] they
    are the chunk entries followed by "error" with its reason, and in both
    cases the worker's function ends normally; when it raised a
    [BaseException] that is not an [Exception], the puts are the chunk
    entries alone and the exception leaves the worker's function.  In every
    case there is at most one sentinel, it is the last put, also among the
    puts made up to any moment of any interleaving. *)
Theorem worker_puts_chunks_then_one_sentinel :
  (forall self c, snd (ChunkList_append self c) = snd self ++ [QChunk c]) /\
  match ending_of run with
  | Returns => generate run = (map QChunk (emitted run) ++ [QDone], Ok tt)
  | Raises msg => generate run = (map QChunk (emitted run) ++ [QError msg], Ok tt)
  | RaisesBase msg => generate run = (map QChunk (emitted run), Exc msg)
  end /\
  (snd (generate run) = Ok tt <->
   length (List.filter is_sentinel (fst (generate run))) = 1%nat) /\
  (length (List.filter is_sentinel (fst (generate run))) <= 1)%nat /\
  (forall before it after,
      fst (generate run) = before ++ it :: after ->
      is_sentinel it = true -> after = []) /\
  (forall sched,
      exists pushed,
        pushed ++ worker_todo (run_bridge fmt sched (bridge_init run))
          = fst (generate run)).
Proof.
  split; [reflexivity |].
  split; [exact generate_cases |].
  assert (Hcount : length (List.filter is_sentinel (fst (generate run)))
                   = length (sentinel_puts run)).
  { rewrite generate_puts, List.filter_app, chunk_entries_no_sentinel.
    cbn [app].
    destruct sentinel_puts_cases as [[-> _] | (s & -> & _ & Hs)]; [reflexivity |].
    cbn [List.filter]. rewrite Hs. reflexivity. }
  split.
  { rewrite Hcount. pose proof generate_cases as H.
    unfold sentinel_puts, sentinel_of.
    destruct (ending_of run); rewrite H; cbn [snd length]; split; auto;
      discriminate. }
  split.
  { rewrite Hcount.
    destruct sentinel_puts_cases as [[-> _] | (s & -> & _)]; cbn; lia. }
  split.
  { intros before it after Hsplit Hit.
    assert (Hall : fst (generate run) = map QChunk (chunks_of before) ++ it :: after
                   /\ before = map QChunk (chunks_of before)).
    { assert (Hb : before = map QChunk (chunks_of before)).
      { clear Hit. revert Hsplit. rewrite generate_puts.
        generalize (emitted run) as E. revert after.
        induction before as [| x before IH]; intros after E H; [reflexivity |].
        destruct E as [| e E]; cbn in H.
        - destruct sentinel_puts_cases as [[Hn _] | (s & Hn & _)];
            rewrite Hn in H; [discriminate H |].
          injection H as _ H. destruct before; discriminate H.
        - injection H as <- H. cbn [chunks_of flat_map app map].
          f_equal. exact (IH _ _ H). }
      split; [rewrite <- Hb; exact Hsplit | exact Hb]. }
    destruct Hall as [Hall _].
    symmetry in Hall. apply sentinel_position in Hall as (_ & _ & ->);
      [reflexivity | exact Hit]. }
  intros sched.
  destruct (bridge_inv_reached sched) as [got _ _ Hq | s _ _ _ _ Ht | got _ _ Hq].
  - exists (map QChunk got ++ chunk_queue (run_bridge fmt sched (bridge_init run))).
    rewrite <- app_assoc. exact Hq.
  - exists (fst (generate run)). rewrite Ht. apply app_nil_r.
  - exists (map QChunk got ++ chunk_queue (run_bridge fmt sched (bridge_init run))).
    rewrite <- app_assoc. exact Hq.
Qed.

End Bridge.

(** ** Requests *)

Section Connection.

Variable rt : runtime.

Lemma sent_of_app t1 t2 : sent_of (t1 ++ t2) = sent_of t1 ++ sent_of t2.
Proof. unfold sent_of. apply flat_map_app. Qed.

Lemma sent_of_map_Send l : sent_of (map Send l) = l.
Proof.
  unfold sent_of. induction l as [| e l IH]; [reflexivity |].
  cbn. f_equal. exact IH.
Qed.

Lemma initialize_cases w h :
  (initialized h = true /\ initialize w h = (h, [], Done tt)) \/
  (initialized h = false /\
   initialize w h = ({| initialized := true |}, [LoadModels], Done tt)) \/
  (initialized h = false /\
   exists e, load_models w = Exc e /\ initialize w h = (h, [], Raised e)).
Proof.
  unfold initialize. destruct (initialized h); [left; auto | right].
  destruct (load_models w) as [u | e]; [left; auto | right; eauto].
Qed.

Lemma _generate_audio_cases w text config ra h :
  let a := writer_args text config in
  (exists e, _generate_audio rt w text config ra h = (h, [Generate a], Raised e) /\
      (ending_of (generator w a) = Returns ->
       emitted (generator w a) = [] -> e = "No audio generated") /\
      (forall x, ending_of (generator w a) <> RaisesBase x)) \/
  (exists audio,
      _generate_audio rt w text config ra h = (h, [Generate a], Done audio) /\
      ending_of (generator w a) = Returns /\
      emitted (generator w a) <> [] /\
      wav_write (array_dtype rt) SAMPLE_RATE
        (concat (emitted (generator w a))) = Ok audio) \/
  (exists e,
      _generate_audio rt w text config ra h = (h, [Generate a], RaisedBase e) /\
      ending_of (generator w a) = RaisesBase e).
Proof.
  intros a. unfold _generate_audio. fold a. unfold_monad.
  destruct (ending_of (generator w a)) as [| msg | msg] eqn:Hend.
  - destruct (emitted (generator w a)) as [| c cs] eqn:Hem.
    + left. eexists. split; [reflexivity |]. split; [auto | discriminate].
    + destruct (wav_write _ _ _) as [audio | msg] eqn:Hwav.
      * right. left. exists audio. repeat split; auto.
      * left. eexists. split; [reflexivity |]. split; [| discriminate].
        intros _ H. discriminate H.
  - left. eexists. split; [reflexivity |]. split; [| discriminate].
    intros H. discriminate H.
  - right. right. eauto.
Qed.

(** How a full request can end: one error envelope before any generation, a
    generation followed by one envelope, an error or the audio, or a
    generation that a [BaseException] ends, which then leaves the handler. *)
Lemma handle_tts_request_cases w message h :
  (exists e,
      handle_tts_request rt w message h
        = (h, [Send (error_envelope e)], Done tt))
  \/
  (exists a pre h' x,
      handle_tts_request rt w message h
        = (h', pre ++ [Generate a; Send x], Done tt) /\
      (pre = [] /\ h' = h /\ initialized h = true \/
       pre = [LoadModels] /\ h' = {| initialized := true |}
         /\ initialized h = false) /\
      ((exists e, x = error_envelope e /\
           (ending_of (generator w a) = Returns ->
            emitted (generator w a) = [] -> e = "No audio generated") /\
           (forall y, ending_of (generator w a) <> RaisesBase y)) \/
       (exists audio config,
           x = success_envelope audio config /\
           ending_of (generator w a) = Returns /\
           emitted (generator w a) <> [] /\
           wav_write (array_dtype rt) SAMPLE_RATE
             (concat (emitted (generator w a))) = Ok audio)))
  \/
  (exists a pre h' e,
      handle_tts_request rt w message h
        = (h', pre ++ [Generate a], RaisedBase e) /\
      (pre = [] /\ h' = h /\ initialized h = true \/
       pre = [LoadModels] /\ h' = {| initialized := true |}
         /\ initialized h = false) /\
      ending_of (generator w a) = RaisesBase e).
Proof.
  unfold handle_tts_request. unfold_monad.
  destruct (py_get message "data" (JObj ∅)) as [data | e]; [| left; eauto].
  destruct (py_get data "text" (JStr "")) as [text | e]; [| left; eauto].
  destruct (py_get data "config" (JObj ∅)) as [config_data | e]; [| left; eauto].
  destruct (py_get data "reference_audio" JNull) as [ra | e]; [| left; eauto].
  destruct (truthy text); cbn [negb]; [| left; eauto].
  destruct (TTSConfig_init config_data) as [config | e]; [| left; eauto].
  destruct (initialize_cases w h)
    as [[Hi ->] | [[Hi ->] | [Hi (e & _ & ->)]]]; [| | left; eauto].
  - right.
    destruct (_generate_audio_cases w text config ra h)
      as [(e & -> & He) | [(audio & -> & Hend & Hem & Hwav) | (e & -> & Hend)]].
    + left. eexists _, [], h, _. split; [reflexivity |]. split; [auto |].
      left. eauto.
    + left. eexists _, [], h, _. split; [reflexivity |]. split; [auto |].
      right. exists audio, config. auto.
    + right. eexists _, [], h, e. split; [reflexivity |]. split; auto.
  - right.
    destruct (_generate_audio_cases w text config ra {| initialized := true |})
      as [(e & -> & He) | [(audio & -> & Hend & Hem & Hwav) | (e & -> & Hend)]].
    + left. eexists _, [LoadModels], _, _. split; [reflexivity |].
      split; [auto |]. left. eauto.
    + left. eexists _, [LoadModels], _, _. split; [reflexivity |].
      split; [auto |]. right. exists audio, config. auto.
    + right. eexists _, [LoadModels], _, e. split; [reflexivity |]. split; auto.
Qed.

(** How a streaming request can end, whatever the interleaving: one error
    envelope before any worker is started, or a worker and what the consumer
    sent while it ran. *)
Lemma handle_streaming_request_cases w message h :
  (exists e, forall sched,
      handle_streaming_request (with_schedule w sched) message h
        = (h, [Send (error_envelope e)], Done tt))
  \/
  (exists a pre h',
      (forall sched,
         let b := run_bridge (sample_format w) sched
                    (bridge_init (generator w a)) in
         handle_streaming_request (with_schedule w sched) message h
           = (h', pre ++ ThreadStart a :: map Send (sent b)
                    ++ (if joined b then [ThreadJoin] else []),
              if joined b then Done tt else Pending)) /\
      (pre = [] /\ h' = h /\ initialized h = true \/
       pre = [LoadModels] /\ h' = {| initialized := true |}
         /\ initialized h = false)).
Proof.
  unfold handle_streaming_request. unfold_monad.
  destruct (py_get message "data" (JObj ∅)) as [data | e]; [| left; eauto].
  destruct (py_get data "text" (JStr "")) as [text | e]; [| left; eauto].
  destruct (py_get data "config" (JObj ∅)) as [config_data | e]; [| left; eauto].
  destruct (py_get data "reference_audio" JNull) as [ra | e]; [| left; eauto].
  destruct (truthy text); cbn [negb]; [| left; eauto].
  destruct (TTSConfig_init config_data) as [config | e]; [| left; eauto].
  destruct (initialize_cases w h)
    as [[Hi Heq] | [[Hi Heq] | [Hi (e & _ & Heq)]]].
  - right. exists (writer_args text config), [], h. split; [| auto].
    intros sched. change (initialize (with_schedule w sched)) with (initialize w).
    rewrite Heq. unfold _stream_audio. unfold_monad. cbn.
    destruct (joined _); reflexivity.
  - right. exists (writer_args text config), [LoadModels], {| initialized := true |}.
    split; [| auto].
    intros sched. change (initialize (with_schedule w sched)) with (initialize w).
    rewrite Heq. unfold _stream_audio. unfold_monad. cbn.
    destruct (joined _); reflexivity.
  - left. exists e. intros sched.
    change (initialize (with_schedule w sched)) with (initialize w).
    rewrite Heq. reflexivity.
Qed.

Lemma with_schedule_same w : with_schedule w (schedule w) = w.
Proof. destruct w; reflexivity. Qed.

Lemma handle_tts_request_never_raises w message h msg :
  outcome_of (handle_tts_request rt w message h) <> Raised msg.
Proof.
  destruct (handle_tts_request_cases w message h)
    as [(e & ->) | [(a & pre & h' & x & -> & _) | (a & pre & h' & e & -> & _)]];
    discriminate.
Qed.

Lemma handle_streaming_request_never_raises w message h :
  outcome_of (handle_streaming_request w message h) = Done tt \/
  outcome_of (handle_streaming_request w message h) = Pending.
Proof.
  replace (handle_streaming_request w message h)
    with (handle_streaming_request (with_schedule w (schedule w)) message h)
    by (rewrite with_schedule_same; reflexivity).
  destruct (handle_streaming_request_cases w message h)
    as [(e & Heq) | (a & pre & h' & Heq & _)]; rewrite Heq; [left; reflexivity |].
  cbn. destruct (joined _); auto.
Qed.

Lemma try_except_no_raise {A} (body : M A) handler h :
  (forall msg, outcome_of (body h) <> Raised msg) ->
  try_except body handler h = body h.
Proof.
  intros H. unfold try_except.
  destruct (body h) as [[h1 t1] [a | msg | msg |]]; try reflexivity.
  exfalso. exact (H msg eq_refl).
Qed.

(** The branch [handle_client] takes on a decoded message. *)
Lemma handle_message_dispatch m w h data t :
  json_loads rt m = Decoded data ->
  py_get data "type" (JStr "") = Ok t ->
  handle_message rt m w h =
    if eq_str t "tts_request" then handle_tts_request rt w data h
    else if eq_str t "tts_stream_request" then handle_streaming_request w data h
    else if eq_str t "ping" then (h, [Send (pong "alive" (initialized h))], Done tt)
    else (h, [Send (error_envelope ("Unknown message type: " +:+ format_value rt t))],
          Done tt).
Proof.
  intros Hload Htype. unfold handle_message. rewrite Hload.
  rewrite try_except_no_raise.
  - unfold bind, lift. rewrite Htype. unfold ret at 1.
    destruct (eq_str t "tts_request").
    { destruct (handle_tts_request rt w data h) as [[h1 t1] [[] | | |]];
        rewrite ?app_nil_r; reflexivity. }
    destruct (eq_str t "tts_stream_request").
    { destruct (handle_streaming_request w data h) as [[h1 t1] [[] | | |]];
        rewrite ?app_nil_r; reflexivity. }
    destruct (eq_str t "ping"); reflexivity.
  - intros msg. unfold bind, lift. rewrite Htype. unfold ret at 1.
    destruct (eq_str t "tts_request").
    { pose proof (handle_tts_request_never_raises w data h msg) as Hr.
      destruct (handle_tts_request rt w data h) as [[h1 t1] o].
      cbn in Hr |- *. exact Hr. }
    destruct (eq_str t "tts_stream_request").
    { pose proof (handle_streaming_request_never_raises w data h) as Hr.
      destruct (handle_streaming_request w data h) as [[h1 t1] o].
      cbn in Hr |- *. destruct Hr as [-> | ->]; discriminate. }
    destruct (eq_str t "ping"); discriminate.
Qed.

Lemma handle_message_invalid_json m w h :
  json_loads rt m = JSONDecodeError ->
  handle_message rt m w h
    = (h, [Send (error_envelope "Invalid JSON format")], Done tt).
Proof. intros H. unfold handle_message. rewrite H. reflexivity. Qed.

Lemma handle_message_other_error m w h e :
  json_loads rt m = OtherError e ->
  handle_message rt m w h = (h, [Send (error_envelope e)], Done tt).
Proof. intros H. unfold handle_message. rewrite H. reflexivity. Qed.

Lemma handle_message_not_a_dict m w h data e :
  json_loads rt m = Decoded data ->
  py_get data "type" (JStr "") = Exc e ->
  handle_message rt m w h = (h, [Send (error_envelope e)], Done tt).
Proof.
  intros Hload Htype. unfold handle_message. rewrite Hload.
  unfold_monad. rewrite Htype. reflexivity.
Qed.

(** Every way one inbound message can be handled. *)
Lemma handle_message_cases m w h :
  (exists e, handle_message rt m w h = (h, [Send (error_envelope e)], Done tt)) \/
  handle_message rt m w h = (h, [Send (pong "alive" (initialized h))], Done tt) \/
  (exists data, handle_message rt m w h = handle_tts_request rt w data h) \/
  (exists data, handle_message rt m w h = handle_streaming_request w data h).
Proof.
  destruct (json_loads rt m) as [data | | e] eqn:Hload.
  - destruct (py_get data "type" (JStr "")) as [t | e] eqn:Htype.
    + rewrite (handle_message_dispatch m w h data t Hload Htype).
      destruct (eq_str t "tts_request"); [right; right; left; eauto |].
      destruct (eq_str t "tts_stream_request"); [right; right; right; eauto |].
      destruct (eq_str t "ping"); [right; left; reflexivity | left; eauto].
    + left. exists e. apply (handle_message_not_a_dict m w h data e Hload Htype).
  - left. eexists. apply handle_message_invalid_json, Hload.
  - left. eexists. apply handle_message_other_error, Hload.
Qed.

Lemma handle_client_cons m w rest h :
  handle_client rt ((m, w) :: rest) h =
    match handle_message rt m w h with
    | (h1, t1, Done _) =>
        match handle_client rt rest h1 with
        | (h2, t2, o) => (h2, t1 ++ t2, o)
        end
    | (h1, t1, Raised msg) => (h1, t1, Raised msg)
    | (h1, t1, RaisedBase msg) => (h1, t1, RaisedBase msg)
    | (h1, t1, Pending) => (h1, t1, Pending)
    end.
Proof. reflexivity. Qed.

(** ** The initialization flag along a connection *)

Lemma flag_after_app f t1 t2 :
  flag_after f (t1 ++ t2) = flag_after (flag_after f t1) t2.
Proof. unfold flag_after. rewrite existsb_app, orb_assoc. reflexivity. Qed.

Lemma trace_ok_app f t1 t2 :
  trace_ok f (t1 ++ t2) = trace_ok f t1 && trace_ok (flag_after f t1) t2.
Proof.
  revert f. induction t1 as [| ev t1 IH]; intros f.
  - cbn. unfold flag_after. cbn. rewrite orb_false_r. reflexivity.
  - destruct ev as [e | | a | a |]; cbn [app trace_ok].
    + destruct e; rewrite IH; rewrite <- ?andb_assoc; reflexivity.
    + rewrite IH, <- andb_assoc. unfold flag_after. cbn.
      rewrite orb_true_r. reflexivity.
    + apply IH.
    + apply IH.
    + apply IH.
Qed.

Lemma trace_ok_split f t pre s b post :
  trace_ok f t = true ->
  t = pre ++ Send (pong s b) :: post ->
  s = "alive" /\ b = flag_after f pre.
Proof.
  intros Hok ->. rewrite trace_ok_app in Hok.
  apply andb_prop in Hok as [_ Hok]. cbn [trace_ok] in Hok.
  apply andb_prop in Hok as [Hok _]. apply andb_prop in Hok as [Hs Hb].
  split; [apply String.eqb_eq, Hs | apply Bool.eqb_prop, Hb].
Qed.

Lemma trace_ok_loads f t :
  trace_ok f t = true ->
  (length (List.filter is_load t) <= 1)%nat /\
  (f = true -> List.filter is_load t = []).
Proof.
  revert f. induction t as [| ev t IH]; intros f Hok; [cbn; auto |].
  destruct ev as [e | | a | a |]; cbn [trace_ok] in Hok.
  - assert (Hok' : trace_ok f t = true).
    { destruct e; auto. apply andb_prop in Hok as [_ Hok]. exact Hok. }
    exact (IH f Hok').
  - apply andb_prop in Hok as [Hf Hok].
    destruct (IH true Hok) as [_ Hnone]. specialize (Hnone eq_refl).
    destruct f; [discriminate Hf |].
    cbn [List.filter is_load]. rewrite Hnone. cbn. split; [lia | discriminate].
  - exact (IH f Hok).
  - exact (IH f Hok).
  - exact (IH f Hok).
Qed.

Lemma sends_keep_flag f l : flag_after f (map Send l) = f.
Proof.
  unfold flag_after. induction l as [| e l IH]; cbn; [apply orb_false_r | exact IH].
Qed.

Lemma sends_trace_ok f l :
  existsb is_pong_msg l = false -> trace_ok f (map Send l) = true.
Proof.
  induction l as [| e l IH]; intros H; [reflexivity |].
  cbn in H. apply orb_false_elim in H as [He Hl].
  destruct e; cbn; try discriminate He; auto.
Qed.

Lemma chunk_envelopes_no_pong fmt cs x :
  is_pong_msg x = false ->
  existsb is_pong_msg (map (chunk_envelope fmt) cs ++ [x]) = false.
Proof.
  intros Hx. rewrite existsb_app. cbn. rewrite Hx, orb_false_r.
  induction cs as [| c cs IH]; [reflexivity | exact IH].
Qed.

Lemma sent_no_pong fmt run b :
  bridge_inv fmt run b -> existsb is_pong_msg (sent b) = false.
Proof.
  intros [got _ Hs _ | s _ _ Hs _ _ | got _ Hs _]; rewrite Hs; clear Hs.
  - induction got as [| c cs IH]; [reflexivity | exact IH].
  - apply chunk_envelopes_no_pong. destruct s; reflexivity.
  - apply chunk_envelopes_no_pong. reflexivity.
Qed.

Lemma handle_tts_request_coherent w message h :
  coherent h (handle_tts_request rt w message h).
Proof.
  unfold coherent.
  destruct (handle_tts_request_cases w message h)
    as [(e & ->) | [(a & pre & h' & x & -> & Hpre & Hx)
                   | (a & pre & h' & e & -> & Hpre & _)]];
    cbn [trace_of state_of outcome_of fst snd].
  - repeat split; [unfold flag_after; cbn; rewrite orb_false_r; reflexivity
                  | discriminate].
  - assert (Hxp : forall f, trace_ok f [Generate a; Send x] = true).
    { destruct Hx as [(e & -> & _) | (audio & config & -> & _)]; reflexivity. }
    destruct Hpre as [(-> & -> & Hi) | (-> & -> & Hi)]; rewrite Hi.
    + repeat split; [apply Hxp | discriminate].
    + repeat split; [cbn [app trace_ok negb andb]; apply Hxp | discriminate].
  - destruct Hpre as [(-> & -> & Hi) | (-> & -> & Hi)]; rewrite Hi;
      repeat split; discriminate.
Qed.

Lemma handle_streaming_request_coherent w message h :
  coherent h (handle_streaming_request w message h).
Proof.
  unfold coherent.
  replace (handle_streaming_request w message h)
    with (handle_streaming_request (with_schedule w (schedule w)) message h)
    by (rewrite with_schedule_same; reflexivity).
  destruct (handle_streaming_request_cases w message h)
    as [(e & Heq) | (a & pre & h' & Heq & Hpre)].
  - rewrite Heq. cbn [trace_of state_of outcome_of fst snd].
    repeat split; [unfold flag_after; cbn; rewrite orb_false_r; reflexivity
                  | discriminate].
  - cbn zeta in Heq. rewrite Heq. clear Heq.
    cbn [trace_of state_of outcome_of fst snd].
    set (b := run_bridge (sample_format w) (schedule w) (bridge_init (generator w a))).
    assert (Hnp : existsb is_pong_msg (sent b) = false)
      by (apply sent_no_pong with (fmt := sample_format w) (run := generator w a),
            bridge_inv_reached).
    assert (Htail : forall f,
               trace_ok f (ThreadStart a :: map Send (sent b)
                             ++ (if joined b then [ThreadJoin] else [])) = true
               /\ flag_after f (ThreadStart a :: map Send (sent b)
                             ++ (if joined b then [ThreadJoin] else [])) = f).
    { intros f. split.
      - cbn [trace_ok]. rewrite trace_ok_app, sends_trace_ok by exact Hnp.
        destruct (joined b); reflexivity.
      - change (ThreadStart a :: ?l) with ([ThreadStart a] ++ l).
        rewrite !flag_after_app, sends_keep_flag.
        unfold flag_after. destruct (joined b); cbn; rewrite !orb_false_r; reflexivity. }
    destruct Hpre as [(-> & -> & Hi) | (-> & -> & Hi)]; rewrite Hi; cbn [app].
    + destruct (Htail true) as [H1 H2]. repeat split; auto.
      destruct (joined b); discriminate.
    + destruct (Htail true) as [H1 H2]. repeat split.
      * cbn [trace_ok negb andb]. exact H1.
      * destruct (joined b); discriminate.
Qed.

Lemma handle_message_coherent m w h : coherent h (handle_message rt m w h).
Proof.
  destruct (handle_message_cases m w h)
    as [(e & ->) | [-> | [(data & ->) | (data & ->)]]].
  - unfold coherent. cbn [trace_of state_of outcome_of fst snd].
    repeat split; [unfold flag_after; cbn; rewrite orb_false_r; reflexivity
                  | discriminate].
  - unfold coherent. cbn [trace_of state_of outcome_of fst snd].
    repeat split.
    + cbn. rewrite Bool.eqb_reflx. reflexivity.
    + unfold flag_after. cbn. rewrite orb_false_r. reflexivity.
    + discriminate.
  - apply handle_tts_request_coherent.
  - apply handle_streaming_request_coherent.
Qed.

Lemma handle_client_coherent inbound h : coherent h (handle_client rt inbound h).
Proof.
  revert h. induction inbound as [| [m w] rest IH]; intros h.
  - unfold coherent. cbn. unfold flag_after. cbn.
    rewrite orb_false_r. repeat split. discriminate.
  - rewrite handle_client_cons.
    destruct (handle_message_coherent m w h) as (Hok & Hflag & Hraise).
    destruct (handle_message rt m w h) as [[h1 t1] [[] | msg | msg |]];
      cbn [trace_of state_of outcome_of fst snd] in *.
    + destruct (IH h1) as (Hok2 & Hflag2 & Hraise2).
      destruct (handle_client rt rest h1) as [[h2 t2] o].
      cbn [trace_of state_of outcome_of fst snd] in *.
      unfold coherent. cbn [trace_of state_of outcome_of fst snd].
      rewrite trace_ok_app, flag_after_app, Hok, <- Hflag, Hok2, Hflag2.
      repeat split. exact Hraise2.
    + exfalso. exact (Hraise msg eq_refl).
    + unfold coherent. cbn [trace_of state_of outcome_of fst snd]. auto.
    + unfold coherent. cbn [trace_of state_of outcome_of fst snd]. auto.
Qed.

(** ** Order of delivery (C4) *)

Lemma chunks_of_chunk_entries cs : chunks_of (map QChunk cs) = cs.
Proof.
  unfold chunks_of. induction cs as [| c cs IH]; [reflexivity |].
  cbn. f_equal. exact IH.
Qed.

Lemma chunk_messages_of_envelopes fmt cs tail :
  List.filter is_chunk_msg (map (chunk_envelope fmt) cs ++ tail)
    = map (chunk_envelope fmt) cs ++ List.filter is_chunk_msg tail.
Proof.
  induction cs as [| c cs IH]; [reflexivity |].
  cbn [map app List.filter chunk_envelope is_chunk_msg]. f_equal. exact IH.
Qed.

Lemma terminal_envelope_no_chunk s : is_chunk_msg (terminal_envelope s) = false.
Proof. destruct s; reflexivity. Qed.

(** The hand-off is first-in first-out: at every moment the entries the
    consumer has received, those queued and those still to be put make up
    the worker's puts in order, and the chunk messages sent carry the chunks
    received, in the same order. *)
Lemma bridge_fifo fmt run sched :
  let b := run_bridge fmt sched (bridge_init run) in
  exists received,
    received ++ chunk_queue b ++ worker_todo b = fst (generate run) /\
    List.filter is_chunk_msg (sent b) = map (chunk_envelope fmt) (chunks_of received) /\
    exists later, emitted run = chunks_of received ++ later.
Proof.
  intros b.
  destruct (bridge_inv_reached fmt run sched)
    as [got _ Hs Hq | s _ Hsome Hs Hq Ht | got _ Hs Hq];
    fold b in Hs, Hq |- *.
  - exists (map QChunk got). rewrite chunks_of_chunk_entries. split; [exact Hq |].
    split.
    + rewrite Hs, <- (app_nil_r (map (chunk_envelope fmt) got)).
      rewrite chunk_messages_of_envelopes. reflexivity.
    + apply chunks_prefix in Hq. exact Hq.
  - fold b in Ht. exists (fst (generate run)). rewrite Hq, Ht, !app_nil_r.
    rewrite generate_puts.
    assert (Hc : chunks_of (map QChunk (emitted run) ++ sentinel_puts run)
                 = emitted run).
    { unfold chunks_of. rewrite flat_map_app. fold (chunks_of (map QChunk (emitted run))).
      rewrite chunks_of_chunk_entries. unfold sentinel_puts, sentinel_of.
      destruct (ending_of run); cbn; apply app_nil_r. }
    rewrite Hc. split; [reflexivity |]. split.
    + rewrite Hs, chunk_messages_of_envelopes. cbn [List.filter].
      rewrite terminal_envelope_no_chunk. apply app_nil_r.
    + exists []. rewrite app_nil_r. reflexivity.
  - exists (map QChunk got). rewrite chunks_of_chunk_entries. split; [exact Hq |].
    split.
    + rewrite Hs, chunk_messages_of_envelopes. cbn. apply app_nil_r.
    + apply chunks_prefix in Hq. exact Hq.
Qed.

(** C4: the consumer receives the queue entries in the order the worker put
    them; the chunk messages of a streaming request carry, in order, an
    initial part of the chunks its Generator run produced (all of them once
    the completion message is sent); and a connection handles its messages
    one after the other, so that everything a request sends precedes
    everything a later request sends, and a later request is not started
    before the earlier handler has returned. *)
Theorem streamed_chunks_keep_worker_order :
  (forall fmt run sched,
      let b := run_bridge fmt sched (bridge_init run) in
      exists received,
        received ++ chunk_queue b ++ worker_todo b = fst (generate run) /\
        List.filter is_chunk_msg (sent b)
          = map (chunk_envelope fmt) (chunks_of received) /\
        exists later, emitted run = chunks_of received ++ later) /\
  (forall w message h,
      let t := trace_of (handle_streaming_request w message h) in
      (List.filter is_chunk_msg (sent_of t) = [] /\
       forall a, ~ In (ThreadStart a) t) \/
      (exists a got later,
          In (ThreadStart a) t /\
          emitted (generator w a) = got ++ later /\
          List.filter is_chunk_msg (sent_of t)
            = map (chunk_envelope (sample_format w)) got /\
          (In complete_envelope (sent_of t) -> later = []))) /\
  (forall m w rest h,
      trace_of (handle_client rt ((m, w) :: rest) h) =
        trace_of (handle_message rt m w h) ++
        match outcome_of (handle_message rt m w h) with
        | Done _ =>
            trace_of (handle_client rt rest (state_of (handle_message rt m w h)))
        | _ => []
        end).
Proof.
  split; [exact bridge_fifo |]. split.
  - intros w message h t. subst t.
    replace (handle_streaming_request w message h)
      with (handle_streaming_request (with_schedule w (schedule w)) message h)
      by (rewrite with_schedule_same; reflexivity).
    destruct (handle_streaming_request_cases w message h)
      as [(e & Heq) | (a & pre & h' & Heq & Hpre)]; rewrite Heq;
      cbn [trace_of fst snd].
    + left. split; [reflexivity |].
      intros a [H | []]. discriminate H.
    + right.
      set (fmt := sample_format w).
      set (b := run_bridge fmt (schedule w) (bridge_init (generator w a))).
      assert (Hsent : sent_of (pre ++ ThreadStart a :: map Send (sent b)
                                 ++ (if joined b then [ThreadJoin] else []))
                      = sent b).
      { rewrite sent_of_app.
        change (ThreadStart a :: ?l) with ([ThreadStart a] ++ l).
        rewrite !sent_of_app, sent_of_map_Send.
        destruct Hpre as [(-> & _) | (-> & _)]; destruct (joined b); cbn;
          apply app_nil_r. }
      rewrite Hsent.
      destruct (bridge_inv_reached fmt (generator w a) (schedule w))
        as [got _ Hs Hq | s _ _ Hs _ _ | got _ Hs Hq]; fold b in Hs.
      * apply chunks_prefix in Hq as [later Hlater].
        exists a, got, later. split; [apply in_or_app; right; left; reflexivity |].
        split; [exact Hlater |]. split.
        -- rewrite Hs, <- (app_nil_r (map (chunk_envelope fmt) got)).
           rewrite chunk_messages_of_envelopes. reflexivity.
        -- rewrite Hs. intros Hin. apply in_map_iff in Hin as (c & Hc & _).
           discriminate Hc.
      * exists a, (emitted (generator w a)), [].
        split; [apply in_or_app; right; left; reflexivity |].
        split; [rewrite app_nil_r; reflexivity |]. split; [| reflexivity].
        rewrite Hs, chunk_messages_of_envelopes. cbn [List.filter].
        rewrite terminal_envelope_no_chunk. apply app_nil_r.
      * apply chunks_prefix in Hq as [later Hlater].
        exists a, got, later. split; [apply in_or_app; right; left; reflexivity |].
        split; [exact Hlater |]. split.
        -- rewrite Hs, chunk_messages_of_envelopes. cbn. apply app_nil_r.
        -- rewrite Hs. intros Hin. apply in_app_or in Hin as [Hin | [Hin | []]].
           ++ apply in_map_iff in Hin as (c & Hc & _). discriminate Hc.
           ++ discriminate Hin.
  - intros m w rest h. rewrite handle_client_cons.
    destruct (handle_message rt m w h) as [[h1 t1] [[] | msg | msg |]];
      cbn [trace_of state_of outcome_of fst snd]; rewrite ?app_nil_r; try reflexivity.
    destruct (handle_client rt rest h1) as [[h2 t2] o]. reflexivity.
Qed.

(** ** The response to a streaming request (C2) *)

Lemma sent_of_streaming_trace pre a l (j : bool) :
  pre = [] \/ pre = [LoadModels] ->
  sent_of (pre ++ ThreadStart a :: map Send l ++ (if j then [ThreadJoin] else []))
    = l.
Proof.
  intros Hpre. rewrite sent_of_app.
  change (ThreadStart a :: ?t) with ([ThreadStart a] ++ t).
  rewrite !sent_of_app, sent_of_map_Send.
  destruct Hpre as [-> | ->]; destruct j; cbn; apply app_nil_r.
Qed.

Lemma thread_start_unique pre a a' l (j : bool) :
  pre = [] \/ pre = [LoadModels] ->
  In (ThreadStart a')
     (pre ++ ThreadStart a :: map Send l ++ (if j then [ThreadJoin] else [])) ->
  a' = a.
Proof.
  intros Hpre Hin. apply in_app_or in Hin as [Hin | Hin].
  - destruct Hpre as [-> | ->]; [destruct Hin |].
    destruct Hin as [Hin | []]. discriminate Hin.
  - destruct Hin as [Hin | Hin]; [injection Hin; auto |].
    apply in_app_or in Hin as [Hin | Hin].
    + apply in_map_iff in Hin as (e & He & _). discriminate He.
    + destruct j; [destruct Hin as [Hin | []]; discriminate Hin | destruct Hin].
Qed.

Lemma last_chunk_envelope fmt got l x :
  map (chunk_envelope fmt) got = l ++ [x] -> is_chunk_msg x = true.
Proof.
  intros H.
  assert (Hin : In x (map (chunk_envelope fmt) got))
    by (rewrite H; apply in_or_app; right; left; reflexivity).
  apply in_map_iff in Hin as (c & <- & _). reflexivity.
Qed.

Lemma not_in_chunk_envelopes fmt e cs :
  is_chunk_msg e = false -> ~ In e (map (chunk_envelope fmt) cs).
Proof.
  intros He Hin. apply in_map_iff in Hin as (c & <- & _). discriminate He.
Qed.

Lemma after_chunk_envelopes fmt e cs tail :
  is_chunk_msg e = false ->
  In e (map (chunk_envelope fmt) cs ++ [tail]) -> e = tail.
Proof.
  intros He Hin. apply in_app_or in Hin as [Hin | [Hin | []]]; [| auto].
  exfalso. revert Hin. apply not_in_chunk_envelopes, He.
Qed.

Lemma loaded_cases w h h' pre :
  loaded w h = Ok (h', pre) ->
  (pre = [] /\ h' = h /\ initialized h = true) \/
  (pre = [LoadModels] /\ h' = {| initialized := true |} /\ initialized h = false
   /\ load_models w = Ok tt).
Proof.
  unfold loaded. destruct (initialized h).
  - intros H. injection H as <- <-. auto.
  - destruct (load_models w) as [[] | e]; [| discriminate].
    intros H. injection H as <- <-. right. auto.
Qed.

(** A streaming request whose text passes validation: the configuration is
    read, the models are loaded if need be, then the worker is started. *)
Lemma streaming_after_validation message data text :
  py_get message "data" (JObj ∅) = Ok data ->
  py_get data "text" (JStr "") = Ok text ->
  truthy text = true ->
  exists config_data,
    py_get data "config" (JObj ∅) = Ok config_data /\
    forall w h,
      handle_streaming_request w message h =
        match TTSConfig_init config_data with
        | Exc e => (h, [Send (error_envelope e)], Done tt)
        | Ok config =>
            match loaded w h with
            | Exc e => (h, [Send (error_envelope e)], Done tt)
            | Ok (h', pre) =>
                let a := writer_args text config in
                let b := run_bridge (sample_format w) (schedule w)
                           (bridge_init (generator w a)) in
                (h',
                 pre ++ ThreadStart a
                     :: map Send (sent b) ++ (if joined b then [ThreadJoin] else []),
                 if joined b then Done tt else Pending)
            end
        end.
Proof.
  intros Hdata Htext Htruthy.
  destruct data as [| | | | | | d]; try discriminate Htext.
  exists (default (JObj ∅) (d !! "config")). split; [reflexivity |].
  intros w h. unfold handle_streaming_request. unfold_monad.
  rewrite Hdata, Htext. cbn [py_get]. rewrite Htruthy. cbn [negb].
  destruct (TTSConfig_init _) as [config | e]; [| reflexivity].
  unfold initialize, loaded, _stream_audio. unfold_monad. cbn zeta.
  destruct (initialized h).
  - destruct (joined _); reflexivity.
  - destruct (load_models w); [| reflexivity].
    destruct (joined _); reflexivity.
Qed.

(** C2: the envelopes sent for a streaming request with non-empty text are
    chunk messages followed by at most one further message, which is the
    completion message or an error envelope; while none has been sent the
    handler has not returned.  The completion message is sent only when the
    Generator returned, after all its chunks, and it is what a run that
    returned sends when no wait times out.  An error envelope says what
    interrupted: before any worker is started, a configuration that is not a
    dictionary or models that cannot be loaded; then the reason the Generator
    raised, after all the chunks it produced, or a timeout of a wait, after
    the chunks received so far.  Once the further message has been sent,
    however the worker and the consumer go on, nothing more is sent for the
    request; and every request can be brought to its end, without a timeout
    when the run puts a sentinel. *)
Theorem streaming_response_sequence w message h data text :
  py_get message "data" (JObj ∅) = Ok data ->
  py_get data "text" (JStr "") = Ok text ->
  truthy text = true ->
  let r := handle_streaming_request w message h in
  let fmt := sample_format w in
  (exists cs,
      (sent_of (trace_of r) = map (chunk_envelope fmt) cs /\ outcome_of r = Pending) \/
      (sent_of (trace_of r) = map (chunk_envelope fmt) cs ++ [complete_envelope]
       /\ outcome_of r = Done tt) \/
      (exists e,
          sent_of (trace_of r) = map (chunk_envelope fmt) cs ++ [error_envelope e])) /\
  (forall a,
      In (ThreadStart a) (trace_of r) ->
      let run := generator w a in
      (In complete_envelope (sent_of (trace_of r)) ->
       ending_of run = Returns /\
       sent_of (trace_of r)
         = map (chunk_envelope fmt) (emitted run) ++ [complete_envelope]) /\
      (forall e,
          In (error_envelope e) (sent_of (trace_of r)) ->
          (exists reason,
              ending_of run = Raises reason /\
              e = "Generation error: " +:+ reason /\
              sent_of (trace_of r)
                = map (chunk_envelope fmt) (emitted run) ++ [error_envelope e]) \/
          (e = "Generation timeout" /\ In Timeout (schedule w) /\
           exists got later,
             emitted run = got ++ later /\
             sent_of (trace_of r)
               = map (chunk_envelope fmt) got ++ [error_envelope e])) /\
      (ending_of run = Returns ->
       ~ In Timeout (schedule w) ->
       outcome_of r = Done tt ->
       sent_of (trace_of r)
         = map (chunk_envelope fmt) (emitted run) ++ [complete_envelope])) /\
  ((forall a, ~ In (ThreadStart a) (trace_of r)) ->
   exists e config_data,
     r = (h, [Send (error_envelope e)], Done tt) /\
     py_get data "config" (JObj ∅) = Ok config_data /\
     (TTSConfig_init config_data = Exc e \/
      initialized h = false /\ load_models w = Exc e)) /\
  (forall more,
      (exists l x, sent_of (trace_of r) = l ++ [x] /\ is_chunk_msg x = false) ->
      sent_of (trace_of (handle_streaming_request
                           (with_schedule w (schedule w ++ more)) message h))
        = sent_of (trace_of r)) /\
  (exists more,
      outcome_of (handle_streaming_request
                    (with_schedule w (schedule w ++ more)) message h) = Done tt /\
      (forall a,
          In (ThreadStart a) (trace_of r) ->
          (forall x, ending_of (generator w a) <> RaisesBase x) ->
          ~ In Timeout more)).
Proof.
  intros Hdata Htext Htruthy r fmt. subst r fmt.
  destruct (streaming_after_validation message data text Hdata Htext Htruthy)
    as (config_data & Hconfig & Heq).
  set (fmt := sample_format w).
  assert (Hmore : forall more,
             handle_streaming_request (with_schedule w (schedule w ++ more)) message h
             = match TTSConfig_init config_data with
               | Exc e => (h, [Send (error_envelope e)], Done tt)
               | Ok config =>
                   match loaded w h with
                   | Exc e => (h, [Send (error_envelope e)], Done tt)
                   | Ok (h', pre) =>
                       let a := writer_args text config in
                       let b := run_bridge fmt (schedule w ++ more)
                                  (bridge_init (generator w a)) in
                       (h',
                        pre ++ ThreadStart a
                            :: map Send (sent b)
                            ++ (if joined b then [ThreadJoin] else []),
                        if joined b then Done tt else Pending)
                   end
               end)
    by (intros more; rewrite Heq; reflexivity).
  rewrite Heq. setoid_rewrite Hmore. clear Heq Hmore. fold fmt.
  assert (Hrefused : forall e,
            TTSConfig_init config_data = Exc e \/
            initialized h = false /\ load_models w = Exc e ->
            let r := (h, [Send (error_envelope e)], @Done unit tt) in
            (exists cs,
                (sent_of (trace_of r) = map (chunk_envelope fmt) cs
                 /\ outcome_of r = Pending) \/
                (sent_of (trace_of r)
                   = map (chunk_envelope fmt) cs ++ [complete_envelope]
                 /\ outcome_of r = Done tt) \/
                (exists e,
                    sent_of (trace_of r)
                      = map (chunk_envelope fmt) cs ++ [error_envelope e])) /\
            (forall a, ~ In (ThreadStart a) (trace_of r)) /\
            exists e0 config_data0,
              r = (h, [Send (error_envelope e0)], Done tt) /\
              py_get data "config" (JObj ∅) = Ok config_data0 /\
              (TTSConfig_init config_data0 = Exc e0 \/
               initialized h = false /\ load_models w = Exc e0)).
  { intros e He r. split; [exists []; right; right; exists e; reflexivity |].
    split; [intros a [H | []]; discriminate H |].
    exists e, config_data. auto. }
  destruct (TTSConfig_init config_data) as [config | e] eqn:Hinit.
  2:{ destruct (Hrefused e (or_introl eq_refl)) as (H1 & H2 & H3).
      split; [exact H1 |].
      split; [intros a Hin; exfalso; exact (H2 a Hin) |].
      split; [intros _; exact H3 |].
      split; [intros more _; reflexivity |].
      exists []. split; [reflexivity | intros a Hin; exfalso; exact (H2 a Hin)]. }
  destruct (loaded w h) as [[h' pre] | e] eqn:Hload.
  2:{ assert (Hcause : initialized h = false /\ load_models w = Exc e).
      { unfold loaded in Hload. destruct (initialized h); [discriminate Hload |].
        destruct (load_models w); [discriminate Hload |].
        injection Hload as ->. auto. }
      destruct (Hrefused e (or_intror Hcause)) as (H1 & H2 & H3).
      split; [exact H1 |].
      split; [intros a Hin; exfalso; exact (H2 a Hin) |].
      split; [intros _; exact H3 |].
      split; [intros more _; reflexivity |].
      exists []. split; [reflexivity | intros a Hin; exfalso; exact (H2 a Hin)]. }
  clear Hrefused. cbn zeta.
  set (a := writer_args text config).
  set (run := generator w a).
  assert (Hpre : pre = [] \/ pre = [LoadModels])
    by (destruct (loaded_cases w h h' pre Hload) as [(-> & _) | (-> & _)]; auto).
  assert (Hsent : forall sched,
             sent_of (pre ++ ThreadStart a
                          :: map Send (sent (run_bridge fmt sched (bridge_init run)))
                          ++ (if joined (run_bridge fmt sched (bridge_init run))
                              then [ThreadJoin] else []))
             = sent (run_bridge fmt sched (bridge_init run)))
    by (intros sched; apply sent_of_streaming_trace, Hpre).
  cbn [trace_of outcome_of fst snd]. rewrite !Hsent.
  assert (Hstart : forall a',
             In (ThreadStart a')
                (pre ++ ThreadStart a
                     :: map Send (sent (run_bridge fmt (schedule w) (bridge_init run)))
                     ++ (if joined (run_bridge fmt (schedule w) (bridge_init run))
                         then [ThreadJoin] else [])) -> a' = a)
    by (intros a'; apply thread_start_unique, Hpre).
  assert (Hcan : exists more,
             (if joined (run_bridge fmt (schedule w ++ more) (bridge_init run))
              then Done tt else Pending) = Done tt /\
             ((forall x, ending_of run <> RaisesBase x) -> ~ In Timeout more)).
  { destruct (bridge_can_finish fmt run (schedule w)) as (more & Hj & Hfree).
    exists more. rewrite Hj. split; [reflexivity |].
    intros Hno. apply Hfree. unfold sentinel_of.
    destruct (ending_of run) as [| msg | msg] eqn:E; try discriminate.
    exfalso. exact (Hno msg eq_refl). }
  assert (Hlive : exists more,
             (if joined (run_bridge fmt (schedule w ++ more) (bridge_init run))
              then Done tt else Pending) = Done tt /\
             (forall a0,
                 In (ThreadStart a0)
                    (pre ++ ThreadStart a
                         :: map Send (sent (run_bridge fmt (schedule w)
                                              (bridge_init run)))
                         ++ (if joined (run_bridge fmt (schedule w) (bridge_init run))
                             then [ThreadJoin] else [])) ->
                 (forall x, ending_of (generator w a0) <> RaisesBase x) ->
                 ~ In Timeout more)).
  { destruct Hcan as (more & Hj & Hfree). exists more. split; [exact Hj |].
    intros a0 Hin Hno. apply Hstart in Hin. subst a0. exact (Hfree Hno). }
  assert (Hworker : ~ forall a0,
             ~ In (ThreadStart a0)
                  (pre ++ ThreadStart a
                       :: map Send (sent (run_bridge fmt (schedule w)
                                            (bridge_init run)))
                       ++ (if joined (run_bridge fmt (schedule w) (bridge_init run))
                           then [ThreadJoin] else []))).
  { intros Hno. apply (Hno a). apply in_or_app. right. left. reflexivity. }
  set (b := run_bridge fmt (schedule w) (bridge_init run)) in *.
  assert (Htimeout : In (error_envelope "Generation timeout") (sent b) ->
                     In Timeout (schedule w)).
  { intros Hin. apply timeout_needs_Timeout in Hin as [[] | Hin]. exact Hin. }
  destruct (bridge_inv_reached fmt run (schedule w))
    as [got Hw Hs Hq | s Hw Hsome Hs Hq Ht | got Hw Hs Hq]; fold b in Hw, Hs, Hq.
  - (* still in the loop *)
    split.
    { exists got. left. split; [exact Hs |]. unfold joined. rewrite Hw. reflexivity. }
    split.
    { intros a0 Hin. apply Hstart in Hin. subst a0. fold run.
      split; [| split].
      - intros Hin. exfalso. rewrite Hs in Hin.
        revert Hin. apply not_in_chunk_envelopes. reflexivity.
      - intros e Hin. exfalso. rewrite Hs in Hin.
        revert Hin. apply not_in_chunk_envelopes. reflexivity.
      - intros _ _ Hdone. unfold joined in Hdone. rewrite Hw in Hdone.
        discriminate Hdone. }
    split; [intros Hno; exfalso; exact (Hworker Hno) |].
    split; [| exact Hlive].
    intros more (l & x & Hl & Hx). rewrite Hs in Hl.
    apply last_chunk_envelope in Hl. congruence.
  - (* the sentinel was received *)
    fold b in Ht.
    assert (Hshape : (s = QDone /\ ending_of run = Returns) \/
                     (exists reason, s = QError reason /\ ending_of run = Raises reason)).
    { unfold sentinel_of in Hsome. destruct (ending_of run) as [| msg | msg];
        [left | right | discriminate Hsome]; injection Hsome as <-; eauto. }
    split.
    { exists (emitted run). unfold joined. rewrite Hw, Ht. cbn [negb andb].
      rewrite Hs.
      destruct Hshape as [[-> _] | (reason & -> & _)]; cbn [terminal_envelope];
        [right; left | right; right]; eauto. }
    split.
    { intros a0 Hin. apply Hstart in Hin. subst a0. fold run.
      rewrite Hs. split; [| split].
      - intros Hin. apply after_chunk_envelopes in Hin; [| reflexivity].
        destruct Hshape as [[-> Hend] | (reason & -> & _)];
          [auto | discriminate Hin].
      - intros e Hin. apply after_chunk_envelopes in Hin; [| reflexivity].
        left. destruct Hshape as [[-> _] | (reason & -> & Hend)];
          [discriminate Hin |].
        cbn [terminal_envelope] in Hin |- *. unfold error_envelope in Hin.
        injection Hin as ->. exists reason. auto.
      - intros Hend _ _.
        destruct Hshape as [[-> _] | (reason & -> & Hend')];
          [reflexivity | congruence]. }
    split; [intros Hno; exfalso; exact (Hworker Hno) |].
    split; [| exact Hlive].
    intros more _. rewrite Hsent, run_bridge_app.
    exact (proj2 (left_loop_run fmt more b Hw)).
  - (* a wait timed out *)
    assert (Hin : In Timeout (schedule w)).
    { apply Htimeout. rewrite Hs. apply in_or_app. right. left. reflexivity. }
    split; [exists got; right; right; eauto |].
    split.
    { intros a0 Hin0. apply Hstart in Hin0. subst a0. fold run.
      rewrite Hs. split; [| split].
      - intros H. exfalso. apply after_chunk_envelopes in H;
          [discriminate H | reflexivity].
      - intros e H. apply after_chunk_envelopes in H; [| reflexivity].
        unfold error_envelope in H. injection H as ->. right.
        split; [reflexivity |]. split; [exact Hin |].
        apply chunks_prefix in Hq as [later Hlater]. exists got, later. auto.
      - intros _ Hno. contradiction. }
    split; [intros Hno; exfalso; exact (Hworker Hno) |].
    split; [| exact Hlive].
    intros more _. rewrite Hsent, run_bridge_app.
    exact (proj2 (left_loop_run fmt more b Hw)).
Qed.

(** ** Requests that are refused (C6, C7) *)

Lemma handle_client_after_reply m w rest h ev :
  handle_message rt m w h = (h, [ev], Done tt) ->
  handle_client rt ((m, w) :: rest) h =
    (state_of (handle_client rt rest h),
     ev :: trace_of (handle_client rt rest h),
     outcome_of (handle_client rt rest h)).
Proof.
  intros H. rewrite handle_client_cons, H.
  destruct (handle_client rt rest h) as [[h2 t2] o]. reflexivity.
Qed.

Lemma no_text_full w msg d h :
  default (JObj ∅) (msg !! "data") = JObj d ->
  d !! "text" = None \/ d !! "text" = Some (JStr "") ->
  handle_tts_request rt w (JObj msg) h
    = (h, [Send (error_envelope "No text provided")], Done tt).
Proof.
  intros Hd Ht. unfold handle_tts_request. unfold_monad.
  cbn [py_get]. rewrite Hd. cbn [py_get].
  destruct Ht as [-> | ->]; reflexivity.
Qed.

Lemma no_text_streaming w msg d h :
  default (JObj ∅) (msg !! "data") = JObj d ->
  d !! "text" = None \/ d !! "text" = Some (JStr "") ->
  handle_streaming_request w (JObj msg) h
    = (h, [Send (error_envelope "No text provided")], Done tt).
Proof.
  intros Hd Ht. unfold handle_streaming_request. unfold_monad.
  cbn [py_get]. rewrite Hd. cbn [py_get].
  destruct Ht as [-> | ->]; reflexivity.
Qed.

(** C6: a full or streaming request whose data has no text, or the empty
    text, is answered with the single envelope "No text provided"; nothing
    else happens (no model is loaded, no generation is called, no worker
    is started, the handler's state is unchanged), and the connection goes on
    with the following messages as if from the same state. *)
Theorem missing_text_is_refused m w rest h msg t d :
  json_loads rt m = Decoded (JObj msg) ->
  msg !! "type" = Some (JStr t) ->
  t = "tts_request" \/ t = "tts_stream_request" ->
  default (JObj ∅) (msg !! "data") = JObj d ->
  d !! "text" = None \/ d !! "text" = Some (JStr "") ->
  handle_message rt m w h
    = (h, [Send (tts_response [] "error" "No text provided" None)], Done tt) /\
  existsb is_generation (trace_of (handle_message rt m w h)) = false /\
  existsb is_load (trace_of (handle_message rt m w h)) = false /\
  handle_client rt ((m, w) :: rest) h =
    (state_of (handle_client rt rest h),
     Send (tts_response [] "error" "No text provided" None)
       :: trace_of (handle_client rt rest h),
     outcome_of (handle_client rt rest h)).
Proof.
  intros Hload Htype Ht Hd Htext.
  assert (Hm : handle_message rt m w h
               = (h, [Send (error_envelope "No text provided")], Done tt)).
  { rewrite (handle_message_dispatch m w h (JObj msg) (JStr t) Hload)
      by (cbn [py_get]; rewrite Htype; reflexivity).
    destruct Ht as [-> | ->]; cbn [eq_str String.eqb Ascii.eqb Bool.eqb].
    - apply (no_text_full w msg d h Hd Htext).
    - apply (no_text_streaming w msg d h Hd Htext). }
  split; [exact Hm |]. rewrite Hm.
  split; [reflexivity |]. split; [reflexivity |].
  apply handle_client_after_reply, Hm.
Qed.

(** C7 (as the code has it): a frame on which [json.loads] raises
    [JSONDecodeError] is answered with the single envelope
    "Invalid JSON format"; a frame on which it raises another exception, with
    the single envelope that carries the text of that exception; a decoded
    message whose type is none of tts_request, tts_stream_request and ping,
    with a single envelope naming that type.  In each case nothing else
    happens, and the connection goes on with the following messages, so that
    a ping sent next is answered. *)
Theorem undecodable_and_unknown_are_refused m w rest h e :
  (json_loads rt m = JSONDecodeError /\ e = "Invalid JSON format") \/
  json_loads rt m = OtherError e \/
  (exists msg,
      json_loads rt m = Decoded (JObj msg) /\
      let t := default (JStr "") (msg !! "type") in
      eq_str t "tts_request" = false /\
      eq_str t "tts_stream_request" = false /\
      eq_str t "ping" = false /\
      e = "Unknown message type: " +:+ format_value rt t) ->
  handle_message rt m w h
    = (h, [Send (tts_response [] "error" e None)], Done tt) /\
  existsb is_generation (trace_of (handle_message rt m w h)) = false /\
  existsb is_load (trace_of (handle_message rt m w h)) = false /\
  handle_client rt ((m, w) :: rest) h =
    (state_of (handle_client rt rest h),
     Send (tts_response [] "error" e None) :: trace_of (handle_client rt rest h),
     outcome_of (handle_client rt rest h)) /\
  (forall m' w' msg',
      json_loads rt m' = Decoded (JObj msg') ->
      msg' !! "type" = Some (JStr "ping") ->
      handle_client rt [(m, w); (m', w')] h =
        (h, [Send (tts_response [] "error" e None);
             Send (pong "alive" (initialized h))], Done tt)).
Proof.
  intros Hcase.
  assert (Hm : handle_message rt m w h = (h, [Send (error_envelope e)], Done tt)).
  { destruct Hcase as [[Hload ->] | [Hload | (msg & Hload & H1 & H2 & H3 & ->)]].
    - apply handle_message_invalid_json, Hload.
    - apply handle_message_other_error, Hload.
    - rewrite (handle_message_dispatch m w h (JObj msg)
                 (default (JStr "") (msg !! "type")) Hload eq_refl).
      rewrite H1, H2, H3. reflexivity. }
  split; [exact Hm |]. split; [rewrite Hm; reflexivity |].
  split; [rewrite Hm; reflexivity |].
  split; [apply handle_client_after_reply, Hm |].
  intros m' w' msg' Hload' Hping.
  rewrite (handle_client_after_reply m w [(m', w')] h _ Hm).
  rewrite handle_client_cons.
  rewrite (handle_message_dispatch m' w' h (JObj msg') (JStr "ping") Hload')
    by (cbn [py_get]; rewrite Hping; reflexivity).
  reflexivity.
Qed.

(** ** Health checks (C8) *)

(** C8: a ping is answered with a pong that says "alive" and carries the
    handler's flag; along any sequence of messages on a connection each pong
    carries true exactly when the flag was set at the start or the models
    have been loaded before it; after a pong with true every later pong has
    true; the models are loaded at most once, and not at all when the flag
    was set at the start. *)
Theorem ping_reports_initialization inbound h :
  (forall m w msg,
      json_loads rt m = Decoded (JObj msg) ->
      msg !! "type" = Some (JStr "ping") ->
      handle_message rt m w h
        = (h, [Send (pong "alive" (initialized h))], Done tt)) /\
  (forall pre s b post,
      trace_of (handle_client rt inbound h) = pre ++ Send (pong s b) :: post ->
      s = "alive" /\ b = initialized h || existsb is_load pre) /\
  (forall pre s mid s' b' post,
      trace_of (handle_client rt inbound h)
        = pre ++ Send (pong s true) :: mid ++ Send (pong s' b') :: post ->
      b' = true) /\
  (length (List.filter is_load (trace_of (handle_client rt inbound h))) <= 1)%nat /\
  (initialized h = true ->
   List.filter is_load (trace_of (handle_client rt inbound h)) = [] /\
   initialized (state_of (handle_client rt inbound h)) = true).
Proof.
  destruct (handle_client_coherent inbound h) as (Hok & Hflag & _).
  split.
  { intros m w msg Hload Hping.
    rewrite (handle_message_dispatch m w h (JObj msg) (JStr "ping") Hload)
      by (cbn [py_get]; rewrite Hping; reflexivity).
    reflexivity. }
  split.
  { intros pre s b post Hsplit.
    exact (trace_ok_split _ _ _ _ _ _ Hok Hsplit). }
  split.
  { intros pre s mid s' b' post Hsplit.
    destruct (trace_ok_split _ _ pre s true
                (mid ++ Send (pong s' b') :: post) Hok Hsplit) as [_ H1].
    assert (Hsplit' : trace_of (handle_client rt inbound h)
                      = (pre ++ Send (pong s true) :: mid)
                          ++ Send (pong s' b') :: post)
      by (rewrite Hsplit, <- app_assoc; reflexivity).
    destruct (trace_ok_split _ _ _ _ _ _ Hok Hsplit') as [_ H2].
    rewrite H2, flag_after_app, <- H1. reflexivity. }
  destruct (trace_ok_loads _ _ Hok) as [Hcount Hnone].
  split; [exact Hcount |].
  intros Hi. split; [exact (Hnone Hi) |].
  rewrite Hflag, Hi. reflexivity.
Qed.

(** ** Full requests (C5, C9, C10) *)

Lemma sent_of_full_trace pre a x :
  pre = [] \/ pre = [LoadModels] ->
  sent_of (pre ++ [Generate a; Send x]) = [x].
Proof. intros [-> | ->]; reflexivity. Qed.

Lemma generate_event_unique pre a a' x :
  pre = [] \/ pre = [LoadModels] ->
  In (Generate a') (pre ++ [Generate a; Send x]) -> a' = a.
Proof.
  intros [-> | ->] Hin; cbn in Hin.
  - destruct Hin as [H | [H | []]]; [injection H; auto | discriminate H].
  - destruct Hin as [H | [H | [H | []]]];
      [discriminate H | injection H; auto | discriminate H].
Qed.

Lemma generate_event_alone pre a a' :
  pre = [] \/ pre = [LoadModels] ->
  In (Generate a') (pre ++ [Generate a]) -> a' = a.
Proof.
  intros [-> | ->] Hin; cbn in Hin.
  - destruct Hin as [H | []]. injection H; auto.
  - destruct Hin as [H | [H | []]]; [discriminate H | injection H; auto].
Qed.

Lemma sent_of_escaped_trace pre a :
  pre = [] \/ pre = [LoadModels] -> sent_of (pre ++ [Generate a]) = [].
Proof. intros [-> | ->]; reflexivity. Qed.

(** C9 (as the code has it): when the Generator was run for a full request
    and returned without having produced a chunk, the one envelope sent is
    the error envelope (type tts_response, status "error", empty audio) with
    message "No audio generated"; no success response is sent. *)
Theorem empty_generation_is_an_error w message h a :
  In (Generate a) (trace_of (handle_tts_request rt w message h)) ->
  ending_of (generator w a) = Returns ->
  emitted (generator w a) = [] ->
  sent_of (trace_of (handle_tts_request rt w message h))
    = [tts_response [] "error" "No audio generated" None] /\
  msg_type (tts_response [] "error" "No audio generated" None) = "tts_response" /\
  existsb is_success_msg (sent_of (trace_of (handle_tts_request rt w message h)))
    = false.
Proof.
  intros Hin Hend Hem.
  destruct (handle_tts_request_cases w message h)
    as [(e & Heq) | [(a0 & pre & h' & x & Heq & Hpre & Hx)
                    | (a0 & pre & h' & e & Heq & Hpre & Hbase)]];
    rewrite Heq in *; cbn [trace_of fst snd] in *.
  - destruct Hin as [H | []]. discriminate H.
  - assert (Hpre' : pre = [] \/ pre = [LoadModels])
      by (destruct Hpre as [(-> & _) | (-> & _)]; auto).
    apply (generate_event_unique pre a0 a x Hpre') in Hin. subst a0.
    rewrite (sent_of_full_trace pre a x Hpre').
    destruct Hx as [(e & -> & He & _) | (audio & config & _ & _ & Hne & _)].
    + rewrite (He Hend Hem). repeat split; reflexivity.
    + contradiction.
  - assert (Hpre' : pre = [] \/ pre = [LoadModels])
      by (destruct Hpre as [(-> & _) | (-> & _)]; auto).
    apply (generate_event_alone pre a0 a Hpre') in Hin. subst a0. congruence.
Qed.

Lemma lookup_but_reference_audio (d1 d2 : gmap string json) k :
  delete "reference_audio" d1 = delete "reference_audio" d2 ->
  k <> "reference_audio" ->
  d1 !! k = d2 !! k.
Proof.
  intros Hdel Hk.
  rewrite <- (lookup_delete_ne d1 "reference_audio" k) by auto.
  rewrite <- (lookup_delete_ne d2 "reference_audio" k) by auto.
  rewrite Hdel. reflexivity.
Qed.

(** C10: two full requests that differ at most in data.reference_audio are
    handled alike: same generation call with the same arguments, same
    envelopes, same resulting state; and so are the two messages on a
    connection. *)
Theorem reference_audio_is_ignored w m1 m2 h :
  same_but_reference_audio m1 m2 ->
  handle_tts_request rt w m1 h = handle_tts_request rt w m2 h /\
  (forall s1 s2,
      json_loads rt s1 = Decoded m1 -> json_loads rt s2 = Decoded m2 ->
      handle_message rt s1 w h = handle_message rt s2 w h).
Proof.
  intros (msg & d1 & d2 & -> & -> & Hdel).
  assert (Htext : d1 !! "text" = d2 !! "text")
    by (apply lookup_but_reference_audio; [exact Hdel | discriminate]).
  assert (Hconfig : d1 !! "config" = d2 !! "config")
    by (apply lookup_but_reference_audio; [exact Hdel | discriminate]).
  assert (Hfull : handle_tts_request rt w (JObj (<["data" := JObj d1]> msg)) h
                  = handle_tts_request rt w (JObj (<["data" := JObj d2]> msg)) h).
  { unfold handle_tts_request, _generate_audio. unfold_monad.
    cbn [py_get]. rewrite !lookup_insert_eq. cbn [from_option id py_get].
    rewrite Htext, Hconfig. reflexivity. }
  assert (Hstream : handle_streaming_request w (JObj (<["data" := JObj d1]> msg)) h
                  = handle_streaming_request w (JObj (<["data" := JObj d2]> msg)) h).
  { unfold handle_streaming_request, _stream_audio. unfold_monad.
    cbn [py_get]. rewrite !lookup_insert_eq. cbn [from_option id py_get].
    rewrite Htext, Hconfig. reflexivity. }
  split; [exact Hfull |].
  intros s1 s2 H1 H2.
  rewrite (handle_message_dispatch s1 w h _ _ H1 eq_refl).
  rewrite (handle_message_dispatch s2 w h _ _ H2 eq_refl).
  rewrite !lookup_insert_ne by discriminate.
  rewrite Hfull, Hstream. reflexivity.
Qed.

Lemma header_data_length dt fs n :
  (length (header_data dt fs n) + 8 = wav_header_len dt)%nat.
Proof.
  unfold header_data, fmt_chunk_data, wav_header_len.
  destruct (dkind_float dt); reflexivity.
Qed.

Lemma payload_length dt data :
  dtype_wf dt ->
  length (flat_map (item_tobytes dt) data) = (itemsize dt * length data)%nat.
Proof.
  intros Hwf. induction data as [| x xs IH]; cbn [flat_map length].
  - lia.
  - rewrite length_app, IH, Hwf. lia.
Qed.

(** The container is the header followed by one item per sample. *)
Lemma wav_write_length dt rate data audio :
  dtype_wf dt ->
  wav_write dt rate data = Ok audio ->
  length audio = (wav_header_len dt + itemsize dt * length data)%nat.
Proof.
  intros Hwf. unfold wav_write. cbv zeta.
  pose proof (header_data_length dt rate (length data)) as Hh.
  pose proof (payload_length dt data Hwf) as Hp.
  remember (header_data dt rate (length data)) as hd eqn:Hhd.
  remember (flat_map (item_tobytes dt) data) as payload eqn:Hpayload.
  destruct (_ <? _); [discriminate |].
  intros H. injection H as <-.
  rewrite !length_app, length_firstn. cbn [length].
  rewrite length_app. cbn [length]. rewrite length_skipn, Hp.
  assert (Hmin : (44 <= wav_header_len dt)%nat)
    by (unfold wav_header_len; destruct (dkind_float dt); lia).
  lia.
Qed.

Lemma decodable_samples_of_container dt n audio :
  (0 < itemsize dt)%nat ->
  length audio = (wav_header_len dt + itemsize dt * n)%nat ->
  decodable_samples dt audio = Z.of_nat n.
Proof.
  intros Hpos Hlen. unfold decodable_samples. rewrite Hlen.
  replace (Z.of_nat (wav_header_len dt + itemsize dt * n)
           - Z.of_nat (wav_header_len dt))
    with (Z.of_nat n * Z.of_nat (itemsize dt)) by lia.
  apply Z.div_mul. lia.
Qed.

(** C5 (what the code does): a full request that succeeds sends exactly one
    response, with status "success"; the audio is a container of [n] samples
    after a header of 44 bytes or more, and the duration in its metadata is
    the length of the whole container, header included, over twice the sample
    rate.  With samples of 16 bits or more it exceeds the duration of the [n]
    samples by a millisecond at least (22/22050 s). *)
Theorem full_response_duration_counts_header w message h audio text md :
  dtype_wf (array_dtype rt) ->
  (2 <= itemsize (array_dtype rt))%nat ->
  In (tts_response audio "success" text (Some md))
     (sent_of (trace_of (handle_tts_request rt w message h))) ->
  let n := decodable_samples (array_dtype rt) audio in
  sent_of (trace_of (handle_tts_request rt w message h))
    = [tts_response audio "success" text (Some md)] /\
  0 <= n /\
  Z.of_nat (length audio)
    = Z.of_nat (wav_header_len (array_dtype rt))
      + Z.of_nat (itemsize (array_dtype rt)) * n /\
  (md_duration md
   == inject_Z (Z.of_nat (length audio)) / inject_Z (SAMPLE_RATE * 2))%Q /\
  (inject_Z n / inject_Z SAMPLE_RATE + (22 # 22050) <= md_duration md)%Q.
Proof.
  intros Hwf Hsize Hin n.
  destruct (handle_tts_request_cases w message h)
    as [(e & Heq) | [(a & pre & h' & x & Heq & Hpre & Hx)
                    | (a & pre & h' & e & Heq & Hpre & _)]];
    rewrite Heq in *; cbn [trace_of fst snd] in *.
  - destruct Hin as [H | []]. discriminate H.
  - assert (Hpre' : pre = [] \/ pre = [LoadModels])
      by (destruct Hpre as [(-> & _) | (-> & _)]; auto).
    rewrite (sent_of_full_trace pre a x Hpre') in *.
    destruct Hin as [Hin | []]. subst x.
    destruct Hx as [(e & He & _) | (audio' & config & Hx & _ & _ & Hwav)];
      [discriminate He |].
    unfold success_envelope in Hx. injection Hx as -> -> ->.
    pose proof (wav_write_length _ _ _ _ Hwf Hwav) as Hlen.
    set (data := concat (emitted (generator w a))) in *.
    assert (Hn : n = Z.of_nat (length data)).
    { subst n. apply decodable_samples_of_container; [lia | exact Hlen]. }
    clearbody n. subst n.
    split; [reflexivity |]. split; [lia |]. split; [rewrite Hlen; lia |].
    split; [reflexivity |].
    cbn [md_duration]. unfold response_duration. rewrite Hlen.
    assert (Hh : (44 <= wav_header_len (array_dtype rt))%nat)
      by (unfold wav_header_len; destruct (dkind_float _); lia).
    change (inject_Z (SAMPLE_RATE * 2)) with (44100 # 1)%Q.
    change (inject_Z SAMPLE_RATE) with (22050 # 1)%Q.
    unfold Qle, Qplus, Qdiv, Qmult, Qinv, inject_Z. cbn [Qnum Qden].
    rewrite !Pos2Z.inj_mul. nia.
  - rewrite sent_of_escaped_trace in Hin
      by (destruct Hpre as [(-> & _) | (-> & _)]; auto).
    destruct Hin.
Qed.

End Connection.

(** ** Sample runs *)

Lemma streaming_response_sequence_witness :
  py_get (sample_request "tts_stream_request" "Hola") "data" (JObj ∅)
    = Ok (JObj {["text" := JStr "Hola"]}) /\
  py_get (JObj {["text" := JStr "Hola"]}) "text" (JStr "") = Ok (JStr "Hola") /\
  truthy (JStr "Hola") = true /\
  sent_of (trace_of (handle_streaming_request sample_world
                       (sample_request "tts_stream_request" "Hola") fresh_handler))
    = [chunk_envelope binary32 [Num (1 # 4); Num (-1)];
       chunk_envelope binary32 [Num 0]; complete_envelope] /\
  exists more,
    outcome_of (handle_streaming_request
                  (with_schedule sample_world (schedule sample_world ++ more))
                  (sample_request "tts_stream_request" "Hola") fresh_handler)
      = Done tt.
Proof.
  assert (H1 : py_get (sample_request "tts_stream_request" "Hola") "data" (JObj ∅)
               = Ok (JObj {["text" := JStr "Hola"]})) by (vm_compute; reflexivity).
  assert (H2 : py_get (JObj {["text" := JStr "Hola"]}) "text" (JStr "")
               = Ok (JStr "Hola")) by (vm_compute; reflexivity).
  assert (H3 : truthy (JStr "Hola") = true) by reflexivity.
  split; [exact H1 |]. split; [exact H2 |]. split; [exact H3 |].
  pose proof (streaming_response_sequence sample_world
                (sample_request "tts_stream_request" "Hola")
                fresh_handler _ _ H1 H2 H3) as H.
  cbv zeta in H. destruct H as (_ & Hcause & _ & _ & (more & Hdone & _)).
  split; [| exists more; exact Hdone].
  destruct (Hcause (default_args "Hola")) as (_ & _ & Hcomplete); [in_list |].
  apply Hcomplete; [reflexivity | no_timeout | vm_compute; reflexivity].
Defined.

Example streaming_timeout_example :
  sent_of (trace_of (handle_streaming_request
                       (with_schedule sample_world [Work; Get; Timeout; Work; Work])
                       (sample_request "tts_stream_request" "Hola") fresh_handler))
    = [chunk_envelope binary32 [Num (1 # 4); Num (-1)];
       error_envelope "Generation timeout"].
Proof. vm_compute. reflexivity. Qed.

(** C3 (as stated) fails: a Generator that calls [sys.exit] after one chunk
    raises [SystemExit], which [except Exception] does not catch; the worker
    has put the chunk and no sentinel, the exception leaves its function, and
    the consumer, having sent the chunk, waits until the timeout. *)
Lemma worker_lets_base_exceptions_through :
  generate exiting_run = ([QChunk [Num (1 # 4)]], Exc "1") /\
  List.filter is_sentinel (fst (generate exiting_run)) = [] /\
  handle_streaming_request exiting_world
    (sample_request "tts_stream_request" "Hola") fresh_handler
    = ({| initialized := true |},
       [LoadModels; ThreadStart (default_args "Hola");
        Send (chunk_envelope binary32 [Num (1 # 4)]);
        Send (error_envelope "Generation timeout"); ThreadJoin],
       Done tt).
Proof. repeat split; vm_compute; reflexivity. Qed.

Lemma missing_text_is_refused_witness :
  json_loads sample_runtime "mute" = Decoded (sample_request "tts_request" "") /\
  handle_client sample_runtime [("mute", sample_world); ("ping", sample_world)]
    fresh_handler
    = (fresh_handler,
       [Send (tts_response [] "error" "No text provided" None);
        Send (pong "alive" false)],
       Done tt).
Proof.
  split; [reflexivity |].
  assert (H : forall rest,
             handle_client sample_runtime (("mute", sample_world) :: rest) fresh_handler
             = (state_of (handle_client sample_runtime rest fresh_handler),
                Send (tts_response [] "error" "No text provided" None)
                  :: trace_of (handle_client sample_runtime rest fresh_handler),
                outcome_of (handle_client sample_runtime rest fresh_handler))).
  { intros rest.
    apply (missing_text_is_refused sample_runtime "mute" sample_world rest
             fresh_handler
             (<["type" := JStr "tts_request"]> {["data" := JObj {["text" := JStr ""]}]})
             "tts_request" {["text" := JStr ""]}).
    - reflexivity.
    - vm_compute; reflexivity.
    - left; reflexivity.
    - vm_compute; reflexivity.
    - right; vm_compute; reflexivity. }
  rewrite H. vm_compute. reflexivity.
Defined.

Lemma undecodable_and_unknown_are_refused_witness :
  json_loads sample_runtime "{not json" = JSONDecodeError /\
  handle_client sample_runtime [("{not json", sample_world); ("ping", sample_world)]
    fresh_handler
    = (fresh_handler,
       [Send (tts_response [] "error" "Invalid JSON format" None);
        Send (pong "alive" false)],
       Done tt) /\
  json_loads sample_runtime deep_frame = OtherError recursion_error /\
  handle_message sample_runtime deep_frame sample_world fresh_handler
    = (fresh_handler, [Send (tts_response [] "error" recursion_error None)], Done tt) /\
  handle_message sample_runtime "dance" sample_world fresh_handler
    = (fresh_handler,
       [Send (tts_response [] "error" "Unknown message type: dance" None)],
       Done tt).
Proof.
  assert (Hdeep : json_loads sample_runtime deep_frame = OtherError recursion_error)
    by (vm_compute; reflexivity).
  split; [reflexivity |]. split; [| split; [exact Hdeep | split]].
  - destruct (undecodable_and_unknown_are_refused sample_runtime "{not json"
                sample_world [] fresh_handler "Invalid JSON format")
      as (_ & _ & _ & _ & Hping).
    + left. split; reflexivity.
    + apply (Hping "ping" sample_world {["type" := JStr "ping"]}).
      * reflexivity.
      * vm_compute; reflexivity.
  - refine (proj1 (undecodable_and_unknown_are_refused sample_runtime deep_frame
                     sample_world [] fresh_handler recursion_error _)).
    right. left. exact Hdeep.
  - refine (proj1 (undecodable_and_unknown_are_refused sample_runtime "dance"
                     sample_world [] fresh_handler "Unknown message type: dance" _)).
    right. right. exists {["type" := JStr "dance"]}.
    split; [reflexivity |]. vm_compute. repeat split; reflexivity.
Defined.

(** C7 (as stated) fails: a thousand opening brackets are not JSON, but what
    [json.loads] raises on them is a [RecursionError], not a
    [JSONDecodeError]; the frame is answered with the text of that exception
    and not with "Invalid JSON format". *)
Lemma undecodable_is_not_always_invalid_json :
  String.length deep_frame = 1000%nat /\
  (forall data, json_loads sample_runtime deep_frame <> Decoded data) /\
  sent_of (trace_of (handle_message sample_runtime deep_frame sample_world
                       fresh_handler))
    = [tts_response [] "error" recursion_error None] /\
  ~ In (tts_response [] "error" "Invalid JSON format" None)
       (sent_of (trace_of (handle_message sample_runtime deep_frame sample_world
                             fresh_handler))).
Proof.
  assert (Hdeep : json_loads sample_runtime deep_frame = OtherError recursion_error)
    by (vm_compute; reflexivity).
  assert (Hsent : sent_of (trace_of (handle_message sample_runtime deep_frame
                                       sample_world fresh_handler))
                  = [tts_response [] "error" recursion_error None])
    by (unfold handle_message; rewrite Hdeep; reflexivity).
  split; [vm_compute; reflexivity |].
  split; [intros data H; rewrite Hdeep in H; discriminate H |].
  split; [exact Hsent |].
  rewrite Hsent. intros [H | []]. discriminate H.
Qed.

Lemma empty_generation_is_an_error_witness :
  In (Generate (default_args "Hola"))
     (trace_of (handle_tts_request sample_runtime silent_world
                  (sample_request "tts_request" "Hola") fresh_handler)) /\
  sent_of (trace_of (handle_tts_request sample_runtime silent_world
                       (sample_request "tts_request" "Hola") fresh_handler))
    = [tts_response [] "error" "No audio generated" None].
Proof.
  assert (Hin : In (Generate (default_args "Hola"))
                  (trace_of (handle_tts_request sample_runtime silent_world
                               (sample_request "tts_request" "Hola") fresh_handler)))
    by (vm_compute; right; left; reflexivity).
  split; [exact Hin |].
  exact (proj1 (empty_generation_is_an_error sample_runtime silent_world _
                  fresh_handler _ Hin eq_refl eq_refl)).
Defined.

(** C9 (as stated) fails: a Generator that raises before its first chunk has
    produced zero chunks, and the one envelope sent carries the text of its
    exception, not "No audio generated". *)
Lemma empty_generation_may_say_why :
  emitted (generator stillborn_world (default_args "Hola")) = [] /\
  In (Generate (default_args "Hola"))
     (trace_of (handle_tts_request sample_runtime stillborn_world
                  (sample_request "tts_request" "Hola") fresh_handler)) /\
  sent_of (trace_of (handle_tts_request sample_runtime stillborn_world
                       (sample_request "tts_request" "Hola") fresh_handler))
    = [tts_response [] "error" "CUDA out of memory" None].
Proof.
  split; [reflexivity |]. split; [in_list | vm_compute; reflexivity].
Qed.

Lemma reference_audio_is_ignored_witness :
  same_but_reference_audio
    (JObj (<["data" := JObj {["text" := JStr "Hola"]}]> {["type" := JStr "tts_request"]}))
    (JObj (<["data" := JObj (<["reference_audio" := JStr "UklGRg=="]>
                               {["text" := JStr "Hola"]})]>
             {["type" := JStr "tts_request"]})) /\
  handle_tts_request sample_runtime sample_world
    (JObj (<["data" := JObj {["text" := JStr "Hola"]}]> {["type" := JStr "tts_request"]}))
    fresh_handler
  = handle_tts_request sample_runtime sample_world
    (JObj (<["data" := JObj (<["reference_audio" := JStr "UklGRg=="]>
                               {["text" := JStr "Hola"]})]>
             {["type" := JStr "tts_request"]}))
    fresh_handler.
Proof.
  assert (H : same_but_reference_audio
    (JObj (<["data" := JObj {["text" := JStr "Hola"]}]> {["type" := JStr "tts_request"]}))
    (JObj (<["data" := JObj (<["reference_audio" := JStr "UklGRg=="]>
                               {["text" := JStr "Hola"]})]>
             {["type" := JStr "tts_request"]}))).
  { exists {["type" := JStr "tts_request"]}, {["text" := JStr "Hola"]},
      (<["reference_audio" := JStr "UklGRg=="]> {["text" := JStr "Hola"]}).
    split; [reflexivity |]. split; [reflexivity |]. vm_compute. reflexivity. }
  split; [exact H |].
  exact (proj1 (reference_audio_is_ignored sample_runtime sample_world _ _
                  fresh_handler H)).
Defined.

Lemma full_response_duration_counts_header_witness :
  dtype_wf (array_dtype sample_runtime) /\
  sent_of (trace_of (handle_tts_request sample_runtime pcm_world
                       (sample_request "tts_request" "Hola") fresh_handler))
    = [tts_response pcm_audio "success" "Audio generated successfully"
         (Some pcm_metadata)] /\
  decodable_samples int16_dtype pcm_audio = 3 /\
  (md_duration pcm_metadata == 50 # 44100)%Q /\
  (inject_Z 3 / inject_Z SAMPLE_RATE + (22 # 22050) <= md_duration pcm_metadata)%Q.
Proof.
  assert (Hwf : dtype_wf (array_dtype sample_runtime)) by (intros x; reflexivity).
  assert (Hin : In (tts_response pcm_audio "success" "Audio generated successfully"
                      (Some pcm_metadata))
                  (sent_of (trace_of (handle_tts_request sample_runtime pcm_world
                     (sample_request "tts_request" "Hola") fresh_handler))))
    by (left; vm_compute; reflexivity).
  destruct (full_response_duration_counts_header sample_runtime pcm_world _
              fresh_handler _ _ _ Hwf (le_n 2) Hin) as (Hone & _ & _ & _ & Hoff).
  split; [exact Hwf |]. split; [exact Hone |]. split; [reflexivity |].
  split; [reflexivity | exact Hoff].
Defined.

(** * Further properties *)

(** ** The PCM16 conversion *)

Lemma pcm_data_app fmt c1 c2 :
  pcm_data fmt (c1 ++ c2) = pcm_data fmt c1 ++ pcm_data fmt c2.
Proof. unfold pcm_data. apply map_app. Qed.

Lemma chunk_bytes_app fmt c1 c2 :
  chunk_bytes fmt (c1 ++ c2) = chunk_bytes fmt c1 ++ chunk_bytes fmt c2.
Proof. unfold chunk_bytes. rewrite pcm_data_app. apply flat_map_app. Qed.

Lemma chunk_bytes_concat fmt cs :
  flat_map (chunk_bytes fmt) cs = chunk_bytes fmt (concat cs).
Proof.
  induction cs as [| c cs IH]; [reflexivity |].
  cbn [flat_map concat]. rewrite chunk_bytes_app, IH. reflexivity.
Qed.


Lemma Qround_nearest_comp x y : (x == y)%Q -> Qround_nearest x = Qround_nearest y.
Proof.
  intros H. unfold Qround_nearest. rewrite (Qfloor_comp _ _ H).
  assert (Hc : ((x - inject_Z (Qfloor y) ?= 1 # 2) = (y - inject_Z (Qfloor y) ?= 1 # 2))%Q)
    by (rewrite H; reflexivity).
  rewrite Hc. reflexivity.
Qed.

Lemma Qround_nearest_le x N : (x <= inject_Z N)%Q -> Qround_nearest x <= N.
Proof.
  intros H. destruct (Qround_nearest_spec x) as [H1 _].
  set (n := Qround_nearest x) in *.
  assert (Hn : (inject_Z n < inject_Z (N + 1))%Q)
    by (rewrite inject_Z_plus; change (inject_Z 1) with 1%Q; lra).
  rewrite <- Zlt_Qlt in Hn. lia.
Qed.

Lemma Qround_nearest_ge x N : (inject_Z N <= x)%Q -> N <= Qround_nearest x.
Proof.
  intros H. destruct (Qround_nearest_spec x) as [_ H2].
  set (n := Qround_nearest x) in *.
  assert (Hn : (inject_Z (N - 1) < inject_Z n)%Q).
  { unfold Z.sub. rewrite inject_Z_plus.
    change (inject_Z (- (1))) with (- (1))%Q. lra. }
  rewrite <- Zlt_Qlt in Hn. lia.
Qed.

(** On a tie the even neighbour is taken. *)
Lemma Qround_nearest_tie_up x :
  (x == inject_Z (Qround_nearest x) - (1 # 2))%Q -> Z.even (Qround_nearest x) = true.
Proof.
  unfold Qround_nearest.
  pose proof (Qfloor_le x) as Hlo. pose proof (Qlt_floor x) as Hhi.
  rewrite inject_Z_plus in Hhi. change (inject_Z 1) with 1%Q in Hhi.
  set (f := Qfloor x) in *.
  destruct (Qcompare_spec (x - inject_Z f) (1 # 2)) as [H | H | H].
  - destruct (Z.even f) eqn:E; [intros _; exact E |].
    intros _. rewrite Z.even_add, E. reflexivity.
  - intros Ht. lra.
  - rewrite inject_Z_plus. change (inject_Z 1) with 1%Q. intros Ht. lra.
Qed.

Lemma Qround_nearest_tie_down x :
  (x == inject_Z (Qround_nearest x) + (1 # 2))%Q -> Z.even (Qround_nearest x) = true.
Proof.
  unfold Qround_nearest.
  pose proof (Qfloor_le x) as Hlo. pose proof (Qlt_floor x) as Hhi.
  rewrite inject_Z_plus in Hhi. change (inject_Z 1) with 1%Q in Hhi.
  set (f := Qfloor x) in *.
  destruct (Qcompare_spec (x - inject_Z f) (1 # 2)) as [H | H | H].
  - destruct (Z.even f) eqn:E; [intros _; exact E |].
    rewrite inject_Z_plus. change (inject_Z 1) with 1%Q. intros Ht. lra.
  - intros Ht. lra.
  - rewrite inject_Z_plus. change (inject_Z 1) with 1%Q. intros Ht. lra.
Qed.

Lemma Qround_nearest_mono x y : (x <= y)%Q -> Qround_nearest x <= Qround_nearest y.
Proof.
  intros Hxy.
  destruct (Qround_nearest_spec x) as [Hx1 Hx2].
  destruct (Qround_nearest_spec y) as [Hy1 Hy2].
  destruct (Z_le_gt_dec (Qround_nearest x) (Qround_nearest y)) as [Hle | Hgt];
    [exact Hle | exfalso].
  assert (Hn : (inject_Z (Qround_nearest y) + 1 <= inject_Z (Qround_nearest x))%Q).
  { change 1%Q with (inject_Z 1). rewrite <- inject_Z_plus, <- Zle_Qle. lia. }
  assert (Heq : (x == y)%Q) by lra.
  pose proof (Qround_nearest_comp x y Heq) as Hsame. lia.
Qed.

Lemma Qround_nearest_opp x : Qround_nearest (- x) = - Qround_nearest x.
Proof.
  destruct (Qround_nearest_spec x) as [Hx1 Hx2].
  destruct (Qround_nearest_spec (- x)) as [Hy1 Hy2].
  set (n := Qround_nearest x) in *. set (m := Qround_nearest (- x)) in *.
  assert (Hlo : (inject_Z (m + n - 2) < inject_Z 0)%Q).
  { unfold Z.sub. rewrite !inject_Z_plus.
    change (inject_Z (- (2))) with (- (2))%Q. change (inject_Z 0) with 0%Q. lra. }
  assert (Hhi : (inject_Z 0 < inject_Z (m + n + 2))%Q).
  { rewrite !inject_Z_plus.
    change (inject_Z 2) with 2%Q. change (inject_Z 0) with 0%Q. lra. }
  rewrite <- Zlt_Qlt in Hlo, Hhi.
  assert (Hcases : m + n = 0 \/ m + n = 1 \/ m + n = -1) by lia.
  destruct Hcases as [H | [H | H]]; [lia | exfalso | exfalso].
  - assert (Hm : (inject_Z m == 1 - inject_Z n)%Q).
    { unfold Qeq, Qminus, Qplus, Qopp, inject_Z. cbn [Qnum Qden]. lia. }
    assert (Ex : (x == inject_Z n - (1 # 2))%Q) by lra.
    assert (Ey : (- x == inject_Z m - (1 # 2))%Q) by lra.
    pose proof (Qround_nearest_tie_up x Ex) as E1. fold n in E1.
    pose proof (Qround_nearest_tie_up (- x) Ey) as E2. fold m in E2.
    replace m with (1 + - n) in E2 by lia.
    rewrite Z.even_add, (Z.even_opp n), E1 in E2. discriminate E2.
  - assert (Hm : (inject_Z m == - (1) - inject_Z n)%Q).
    { unfold Qeq, Qminus, Qplus, Qopp, inject_Z. cbn [Qnum Qden]. lia. }
    assert (Ex : (x == inject_Z n + (1 # 2))%Q) by lra.
    assert (Ey : (- x == inject_Z m + (1 # 2))%Q) by lra.
    pose proof (Qround_nearest_tie_down x Ex) as E1. fold n in E1.
    pose proof (Qround_nearest_tie_down (- x) Ey) as E2. fold m in E2.
    replace m with (- (1) + - n) in E2 by lia.
    rewrite Z.even_add, (Z.even_opp n), E1 in E2. discriminate E2.
Qed.

(** The binary exponent is the one: the value is below the next power. *)
Lemma Qlog2_lt q : ~ (q == 0)%Q -> (Qabs q < 2 ^ (Qlog2 q + 1))%Q.
Proof.
  intros Hq. unfold Qlog2.
  set (a := Z.log2 (Z.abs (Qnum q))). set (b := Z.log2 (Z.pos (Qden q))).
  destruct (Qle_bool (2 ^ (a - b)) (Qabs q)) eqn:E.
  - assert (Hn : 0 < Z.abs (Qnum q)).
    { destruct q as [n d]. unfold Qeq in Hq. cbn in Hq |- *. lia. }
    assert (Ha : 0 <= a) by apply Z.log2_nonneg.
    assert (Hb : 0 <= b) by apply Z.log2_nonneg.
    destruct (Z.log2_spec _ Hn) as [_ Ha2]. fold a in Ha2.
    destruct (Z.log2_spec (Z.pos (Qden q)) ltac:(lia)) as [Hb1 _]. fold b in Hb1.
    replace (a - b + 1) with (Z.succ a - b) by lia.
    rewrite Qpower_minus by discriminate.
    rewrite <- !pow2_Z by lia.
    apply Qlt_shift_div_l.
    + change 0%Q with (inject_Z 0). rewrite <- Zlt_Qlt.
      apply Z.pow_pos_nonneg; lia.
    + destruct q as [n d]. cbn [Qnum Qden] in *.
      unfold Qabs, Qlt, Qmult, inject_Z. cbn [Qnum Qden].
      assert (0 < 2 ^ b) by (apply Z.pow_pos_nonneg; lia).
      nia.
  - replace (a - b - 1 + 1) with (a - b) by lia.
    apply Qnot_le_lt. intros H. apply Qle_bool_iff in H. congruence.
Qed.

Lemma Qlog2_mono q1 q2 :
  ~ (q1 == 0)%Q -> ~ (q2 == 0)%Q -> (Qabs q1 <= Qabs q2)%Q -> Qlog2 q1 <= Qlog2 q2.
Proof.
  intros H1 H2 Hle.
  pose proof (Qlog2_le q1 H1) as Hlo. pose proof (Qlog2_lt q2 H2) as Hhi.
  assert (Hlt : (2 ^ Qlog2 q1 < 2 ^ (Qlog2 q2 + 1))%Q) by lra.
  apply Qpower_lt_compat_l_inv in Hlt; [lia | reflexivity].
Qed.

Lemma round_ne_value fmt q p :
  round_ne fmt q = Num p ->
  ((q == 0)%Q /\ (p == 0)%Q) \/ (~ (q == 0)%Q /\ (p == rnd fmt q)%Q).
Proof.
  unfold round_ne. destruct (Qeq_bool q 0) eqn:E.
  - intros H. injection H as <-. left. apply Qeq_bool_iff in E. split; [exact E | reflexivity].
  - cbv zeta. destruct (Qle_bool _ _); [discriminate |].
    intros H. injection H as <-. right. split.
    + intros Hq. apply Qeq_bool_iff in Hq. congruence.
    + change (Qred (rnd fmt q) == rnd fmt q)%Q. apply Qred_correct.
Qed.

Lemma Qabs_opp_eq q : Qabs (- q) = Qabs q.
Proof. destruct q as [n d]. unfold Qabs, Qopp. cbn [Qnum Qden]. rewrite Z.abs_opp. reflexivity. Qed.

Lemma Qlog2_opp q : Qlog2 (- q) = Qlog2 q.
Proof.
  unfold Qlog2. rewrite Qabs_opp_eq.
  destruct q as [n d]. cbn [Qopp Qnum Qden]. rewrite Z.abs_opp. reflexivity.
Qed.

Lemma rnd_opp fmt q : (rnd fmt (- q) == - rnd fmt q)%Q.
Proof.
  unfold rnd, ulp_exponent. rewrite Qlog2_opp.
  set (e := Z.max _ _).
  assert (Hs : (Qshift (- q) (- e) == - Qshift q (- e))%Q) by (unfold Qshift; ring).
  rewrite (Qround_nearest_comp _ _ Hs), Qround_nearest_opp.
  unfold Qshift. rewrite inject_Z_opp. ring.
Qed.

Lemma rnd_nonneg fmt q : (0 <= q)%Q -> (0 <= rnd fmt q)%Q.
Proof.
  intros Hq. unfold rnd. set (e := ulp_exponent fmt q).
  pose proof (pow2_pos e) as He. pose proof (pow2_pos (- e)) as Hme.
  assert (Hs : (inject_Z 0 <= Qshift q (- e))%Q).
  { unfold Qshift. change (inject_Z 0) with 0%Q. apply Qmult_le_0_compat; lra. }
  apply Qround_nearest_ge in Hs.
  unfold Qshift. apply Qmult_le_0_compat; [| lra].
  change 0%Q with (inject_Z 0). rewrite <- Zle_Qle. exact Hs.
Qed.

Lemma pow2_split a b : (2 ^ (a + b) == 2 ^ a * 2 ^ b)%Q.
Proof. apply Qpower_plus. discriminate. Qed.

Lemma rnd_mono_pos fmt q1 q2 :
  1 <= prec fmt -> (0 < q1)%Q -> (q1 <= q2)%Q -> (rnd fmt q1 <= rnd fmt q2)%Q.
Proof.
  intros Hp H1 H12.
  assert (Hn1 : ~ (q1 == 0)%Q) by lra. assert (Hn2 : ~ (q2 == 0)%Q) by lra.
  assert (Hk : Qlog2 q1 <= Qlog2 q2).
  { apply Qlog2_mono; auto. rewrite !Qabs_pos by lra. exact H12. }
  unfold rnd, ulp_exponent.
  set (k1 := Qlog2 q1) in *. set (k2 := Qlog2 q2) in *.
  set (e1 := Z.max (k1 + 1 - prec fmt) (emin fmt)).
  set (e2 := Z.max (k2 + 1 - prec fmt) (emin fmt)).
  pose proof (pow2_pos e1) as He1. pose proof (pow2_pos e2) as He2.
  pose proof (pow2_pos (- e1)) as Hme1. pose proof (pow2_pos (- e2)) as Hme2.
  destruct (Z.eq_dec e1 e2) as [Heq | Hne].
  - rewrite <- Heq. unfold Qshift.
    apply Qmult_le_compat_r; [| lra].
    rewrite <- Zle_Qle. apply Qround_nearest_mono.
    apply Qmult_le_compat_r; [exact H12 | lra].
  - assert (He : e1 < e2) by lia.
    assert (He2' : e2 = k2 + 1 - prec fmt) by lia.
    assert (Hk12 : k1 + 1 <= k2) by lia.
    pose proof (Qlog2_lt q1 Hn1) as Hq1. fold k1 in Hq1. rewrite Qabs_pos in Hq1 by lra.
    pose proof (Qlog2_le q2 Hn2) as Hq2. fold k2 in Hq2. rewrite Qabs_pos in Hq2 by lra.
    assert (Hpow : (2 ^ (k1 + 1) <= 2 ^ k2)%Q)
      by (apply Qpower_le_compat_l; [exact Hk12 | discriminate]).
    apply Qle_trans with (2 ^ k2)%Q.
    + (* the smaller value rounds to at most 2^k2 *)
      assert (Hs : (Qshift q1 (- e1) <= inject_Z (2 ^ (k2 - e1)))%Q).
      { rewrite pow2_Z by lia. unfold Qshift.
        replace (k2 - e1) with (k2 + - e1) by lia. rewrite pow2_split.
        apply Qmult_le_compat_r; lra. }
      apply Qround_nearest_le in Hs. rewrite Zle_Qle in Hs.
      rewrite pow2_Z in Hs by lia. unfold Qshift.
      assert (H : (inject_Z (Qround_nearest (Qshift q1 (- e1))) * 2 ^ e1
                   <= 2 ^ (k2 - e1) * 2 ^ e1)%Q)
        by (apply Qmult_le_compat_r; [exact Hs | lra]).
      rewrite <- pow2_split in H. replace (k2 - e1 + e1) with k2 in H by lia.
      exact H.
    + (* the larger value rounds to at least 2^k2 *)
      assert (Hs : (inject_Z (2 ^ (k2 - e2)) <= Qshift q2 (- e2))%Q).
      { rewrite pow2_Z by lia. unfold Qshift.
        replace (k2 - e2) with (k2 + - e2) by lia. rewrite pow2_split.
        apply Qmult_le_compat_r; lra. }
      apply Qround_nearest_ge in Hs. rewrite Zle_Qle in Hs.
      rewrite pow2_Z in Hs by lia. unfold Qshift.
      assert (H : (2 ^ (k2 - e2) * 2 ^ e2
                   <= inject_Z (Qround_nearest (Qshift q2 (- e2))) * 2 ^ e2)%Q)
        by (apply Qmult_le_compat_r; [exact Hs | lra]).
      rewrite <- pow2_split in H. replace (k2 - e2 + e2) with k2 in H by lia.
      exact H.
Qed.

(** Rounding keeps the order of the values it leaves finite. *)
Lemma round_ne_mono fmt q1 q2 p1 p2 :
  1 <= prec fmt -> (q1 <= q2)%Q ->
  round_ne fmt q1 = Num p1 -> round_ne fmt q2 = Num p2 -> (p1 <= p2)%Q.
Proof.
  intros Hp H12 R1 R2.
  apply round_ne_value in R1, R2.
  assert (Hneg : forall q, (q < 0)%Q -> (rnd fmt q <= 0)%Q).
  { intros q Hq. pose proof (rnd_nonneg fmt (- q) ltac:(lra)) as H.
    rewrite rnd_opp in H. lra. }
  destruct R1 as [[Z1 E1] | [N1 E1]], R2 as [[Z2 E2] | [N2 E2]];
    rewrite E1, E2.
  - lra.
  - apply rnd_nonneg. lra.
  - apply Hneg. destruct (Qlt_le_dec q1 0); [assumption | exfalso; apply N1; lra].
  - destruct (Qlt_le_dec 0 q1) as [Hpos | Hnpos].
    + apply rnd_mono_pos; auto.
    + assert (Hq1 : (q1 < 0)%Q)
        by (destruct (Qlt_le_dec q1 0); [assumption | exfalso; apply N1; lra]).
      destruct (Qlt_le_dec q2 0) as [Hq2 | Hq2].
      * pose proof (rnd_mono_pos fmt (- q2) (- q1) Hp ltac:(lra) ltac:(lra)) as H.
        rewrite !rnd_opp in H. lra.
      * pose proof (Hneg q1 Hq1). pose proof (rnd_nonneg fmt q2 Hq2). lra.
Qed.

(** Rounding treats the two signs alike. *)
Lemma round_ne_opp fmt q p :
  round_ne fmt q = Num p -> exists p', round_ne fmt (- q) = Num p' /\ (p' == - p)%Q.
Proof.
  unfold round_ne.
  assert (E0 : Qeq_bool (- q) 0 = Qeq_bool q 0).
  { destruct (Qeq_bool q 0) eqn:E.
    - apply Qeq_bool_iff. apply Qeq_bool_iff in E. rewrite E. reflexivity.
    - destruct (Qeq_bool (- q) 0) eqn:E'; [| reflexivity].
      apply Qeq_bool_iff in E'. assert (H : (q == 0)%Q) by lra.
      apply Qeq_bool_iff in H. congruence. }
  rewrite E0. destruct (Qeq_bool q 0).
  - intros H. injection H as <-. exists 0%Q. split; reflexivity.
  - cbv zeta. fold (rnd fmt q). fold (rnd fmt (- q)).
    assert (Eov : Qle_bool (2 ^ emax fmt) (Qabs (rnd fmt (- q)))
                  = Qle_bool (2 ^ emax fmt) (Qabs (rnd fmt q))).
    { assert (Ha : (Qabs (rnd fmt (- q)) == Qabs (rnd fmt q))%Q)
        by (rewrite rnd_opp; apply Qabs_opp).
      destruct (Qle_bool (2 ^ emax fmt) (Qabs (rnd fmt q))) eqn:E.
      - apply Qle_bool_iff. apply Qle_bool_iff in E. lra.
      - destruct (Qle_bool _ (Qabs (rnd fmt (- q)))) eqn:E'; [| reflexivity].
        apply Qle_bool_iff in E'. assert (H : (2 ^ emax fmt <= Qabs (rnd fmt q))%Q) by lra.
        apply Qle_bool_iff in H. congruence. }
    rewrite Eov.
    destruct (Qle_bool (2 ^ emax fmt) (Qabs (rnd fmt q))); [intros H; discriminate H |].
    intros H. assert (Hp : p = Qred (rnd fmt q)) by congruence. subst p.
    exists (Qred (rnd fmt (- q))). split; [reflexivity |].
    rewrite (Qred_correct (rnd fmt (- q))), (Qred_correct (rnd fmt q)).
    apply rnd_opp.
Qed.

Lemma Qtrunc_opp x : Qtrunc (- x) = - Qtrunc x.
Proof.
  unfold Qtrunc. destruct x as [n d]. cbn [Qopp Qnum Qden].
  apply Z.quot_opp_l. lia.
Qed.

Lemma Qtrunc_le x y : (x <= y)%Q -> Qtrunc x <= Qtrunc y.
Proof.
  destruct x as [n d], y as [m e]. unfold Qle, Qtrunc. cbn [Qnum Qden].
  intros H.
  rewrite <- (Z.quot_mul_cancel_r n (Z.pos d) (Z.pos e)) by lia.
  rewrite <- (Z.quot_mul_cancel_r m (Z.pos e) (Z.pos d)) by lia.
  rewrite (Z.mul_comm (Z.pos e) (Z.pos d)).
  apply Z.quot_le_mono; lia.
Qed.

Lemma Qtrunc_comp x y : (x == y)%Q -> Qtrunc x = Qtrunc y.
Proof.
  intros H. apply Z.le_antisymm; apply Qtrunc_le; rewrite H; apply Qle_refl.
Qed.

Lemma Qtrunc_small x : (Qabs x < 1)%Q -> Qtrunc x = 0.
Proof.
  destruct x as [n d]. unfold Qlt, Qabs, Qtrunc. cbn [Qnum Qden].
  intros H. destruct (Z.neg_nonneg_cases n) as [Hneg | Hpos].
  - rewrite <- (Z.opp_involutive n), Z.quot_opp_l by lia.
    rewrite Z.quot_small by lia. reflexivity.
  - apply Z.quot_small. lia.
Qed.

Lemma scaled_opp q : (- q * inject_Z 32767 = - (q * inject_Z 32767))%Q.
Proof.
  destruct q as [n d]. unfold Qmult, Qopp, inject_Z. cbn [Qnum Qden].
  f_equal. lia.
Qed.

(** The 16-bit integer of a sample within [-1, 1]: the product as the format
    has it, truncated. *)
Lemma pcm_sample fmt q :
  15 <= prec fmt -> 16 <= emax fmt -> in_unit_range (Num q) ->
  exists p,
    round_ne fmt (q * inject_Z 32767) = Num p /\
    (Qabs (p - q * inject_Z 32767)
       <= 2 ^ (ulp_exponent fmt (q * inject_Z 32767) - 1))%Q /\
    astype_int16 (fmul fmt (Num q) (round_ne fmt (inject_Z 32767))) = Qtrunc p.
Proof.
  intros Hp He [Hlo Hhi].
  destruct (scaled_sample fmt q Hp He Hlo Hhi) as (p & Hmul & Hr & Hb & Herr).
  exists p. split; [exact Hr |]. split; [exact Herr |].
  rewrite Hmul. apply astype_int16_small, Hb.
Qed.

Lemma in_unit_range_opp q : in_unit_range (Num q) -> in_unit_range (Num (- q)).
Proof. unfold in_unit_range. intros [Hlo Hhi]. split; lra. Qed.

(** In a float format of fifteen bits of precision or more, the
    conversion of samples within [-1, 1] treats the two signs alike, keeps
    the order of the samples, and sends every sample of magnitude at most
    1/65534 (a scaled value of at most one half) to zero. *)
Theorem pcm16_is_odd_and_monotone (fmt : float_format) (xs ys : list Q) :
  15 <= prec fmt -> 16 <= emax fmt ->
  Forall in_unit_range (map Num xs) ->
  Forall in_unit_range (map Num ys) ->
  pcm_data fmt (map Num (map Qopp xs)) = map Z.opp (pcm_data fmt (map Num xs)) /\
  (Forall2 Qle xs ys ->
   Forall2 Z.le (pcm_data fmt (map Num xs)) (pcm_data fmt (map Num ys))) /\
  (Forall (fun x => (Qabs x <= 1 # 65534)%Q) xs ->
   pcm_data fmt (map Num xs) = map (fun _ => 0) xs).
Proof.
  intros Hp He Hxs Hys. unfold pcm_data. split; [| split].
  - clear Hys. induction xs as [| x xs IH]; [reflexivity |].
    cbn [map] in Hxs |- *. inversion Hxs as [| ? ? Hx Hxs']; subst.
    rewrite (IH Hxs'). f_equal.
    destruct (pcm_sample fmt x Hp He Hx) as (p & Hr & _ & ->).
    destruct (pcm_sample fmt (- x) Hp He (in_unit_range_opp x Hx))
      as (p' & Hr' & _ & ->).
    rewrite scaled_opp in Hr'.
    destruct (round_ne_opp fmt _ _ Hr) as (p'' & Hr'' & Hpp).
    rewrite Hr'' in Hr'. injection Hr' as <-.
    rewrite (Qtrunc_comp _ _ Hpp). apply Qtrunc_opp.
  - intros Hle. revert Hxs Hys.
    induction Hle as [| x y xs ys Hxy _ IH]; cbn [map]; intros Hxs Hys;
      [constructor |].
    inversion Hxs as [| ? ? Hx Hxs']; subst.
    inversion Hys as [| ? ? Hy Hys']; subst.
    constructor; [| exact (IH Hxs' Hys')].
    destruct (pcm_sample fmt x Hp He Hx) as (p & Hr & _ & ->).
    destruct (pcm_sample fmt y Hp He Hy) as (p' & Hr' & _ & ->).
    apply Qtrunc_le. apply (round_ne_mono fmt _ _ _ _ ltac:(lia)) with (2 := Hr) (3 := Hr').
    apply Qmult_le_compat_r; [exact Hxy | discriminate].
  - clear Hys. intros Hsmall. revert Hxs.
    induction Hsmall as [| x xs Hx _ IH]; cbn [map]; intros Hxs; [reflexivity |].
    inversion Hxs as [| ? ? Hu Hxs']; subst.
    rewrite (IH Hxs'). f_equal.
    destruct (pcm_sample fmt x Hp He Hu) as (p & Hr & Herr & ->).
    apply Qtrunc_small.
    assert (Hhalf : (Qabs (x * inject_Z 32767) <= 1 # 2)%Q).
    { apply Qabs_Qle_condition in Hx as [H1 H2].
      apply Qabs_Qle_condition. change (inject_Z 32767) with (32767 # 1)%Q.
      split; lra. }
    apply round_ne_value in Hr as [[_ Hz] | [Hnz _]].
    + rewrite Hz. reflexivity.
    + assert (Hk : Qlog2 (x * inject_Z 32767) <= -1).
      { change (-1) with (Qlog2 (1 # 2)).
        apply Qlog2_mono; [exact Hnz | discriminate | exact Hhalf]. }
      assert (Hu' : ulp_exponent fmt (x * inject_Z 32767) - 1 <= -16)
        by (unfold ulp_exponent, emin; lia).
      assert (Hpow : (2 ^ (ulp_exponent fmt (x * inject_Z 32767) - 1) <= 2 ^ (-16))%Q)
        by (apply Qpower_le_compat_l; [exact Hu' | discriminate]).
      change (2 ^ (-16))%Q with (1 # 65536)%Q in Hpow.
      assert (Hd : (Qabs (p - x * inject_Z 32767) <= 1 # 65536)%Q) by lra.
      apply Qabs_Qle_condition in Hd as [Hd1 Hd2].
      apply Qabs_Qle_condition in Hhalf as [Hh1 Hh2].
      apply Qabs_Qlt_condition. split; lra.
Qed.

(** ** Streaming requests, further *)

(** The anatomy of a streaming request: refused with one error envelope, or
    a worker started on some arguments and the consumer's envelopes. *)
Lemma streaming_anatomy w message h :
  (exists e,
      handle_streaming_request w message h
        = (h, [Send (error_envelope e)], Done tt)) \/
  (exists a,
      let b := run_bridge (sample_format w) (schedule w)
                 (bridge_init (generator w a)) in
      sent_of (trace_of (handle_streaming_request w message h)) = sent b /\
      outcome_of (handle_streaming_request w message h)
        = (if joined b then Done tt else Pending) /\
      In (ThreadStart a) (trace_of (handle_streaming_request w message h)) /\
      (forall a', In (ThreadStart a')
                     (trace_of (handle_streaming_request w message h)) -> a' = a)).
Proof.
  replace (handle_streaming_request w message h)
    with (handle_streaming_request (with_schedule w (schedule w)) message h)
    by (rewrite with_schedule_same; reflexivity).
  destruct (handle_streaming_request_cases w message h)
    as [(e & Heq) | (a & pre & h' & Heq & Hpre)].
  - left. exists e. apply Heq.
  - right. exists a. cbn zeta. rewrite Heq. cbn [trace_of outcome_of fst snd].
    assert (Hpre' : pre = [] \/ pre = [LoadModels])
      by (destruct Hpre as [(-> & _) | (-> & _)]; auto).
    split; [apply sent_of_streaming_trace, Hpre' |].
    split; [reflexivity |].
    split; [apply in_or_app; right; left; reflexivity |].
    intros a'. apply thread_start_unique, Hpre'.
Qed.

(** What the last envelope of a streaming request tells about the run: the
    completion message is sent only when the Generator returned, and after
    every chunk it produced; an envelope "Generation error: reason" only when
    it raised that reason, and after every chunk it had produced; the timeout
    envelope only when a wait timed out.  A request that returned without a
    timeout has delivered every chunk, and its worker has put a sentinel. *)
Theorem last_envelope_tells_the_run w message h a :
  In (ThreadStart a) (trace_of (handle_streaming_request w message h)) ->
  let sent_msgs := sent_of (trace_of (handle_streaming_request w message h)) in
  let run := generator w a in
  let fmt := sample_format w in
  (In complete_envelope sent_msgs ->
   ending_of run = Returns /\
   sent_msgs = map (chunk_envelope fmt) (emitted run) ++ [complete_envelope]) /\
  (forall reason,
      In (error_envelope ("Generation error: " +:+ reason)) sent_msgs ->
      ending_of run = Raises reason /\
      sent_msgs = map (chunk_envelope fmt) (emitted run)
                    ++ [error_envelope ("Generation error: " +:+ reason)]) /\
  (In (error_envelope "Generation timeout") sent_msgs -> In Timeout (schedule w)) /\
  (outcome_of (handle_streaming_request w message h) = Done tt ->
   ~ In Timeout (schedule w) ->
   exists s,
     sentinel_of run = Some s /\
     sent_msgs = map (chunk_envelope fmt) (emitted run) ++ [terminal_envelope s]).
Proof.
  intros Hstart.
  destruct (streaming_anatomy w message h) as [(e & Heq) | (a0 & Hsent & Hout & _ & Huniq)].
  { rewrite Heq in Hstart. destruct Hstart as [H | []]. discriminate H. }
  apply Huniq in Hstart. subst a0. cbn zeta in Hsent, Hout |- *.
  rewrite Hsent, Hout. clear Hsent Hout Huniq.
  set (run := generator w a). set (fmt := sample_format w).
  set (b := run_bridge fmt (schedule w) (bridge_init run)).
  assert (Htimeout : In (error_envelope "Generation timeout") (sent b) ->
                     In Timeout (schedule w)).
  { intros Hin. apply timeout_needs_Timeout in Hin as [[] | Hin]. exact Hin. }
  destruct (bridge_inv_reached fmt run (schedule w))
    as [got Hw Hs Hq | s Hw Hsome Hs Hq Ht | got Hw Hs Hq]; fold b in Hw, Hs, Hq.
  - (* still in the loop *)
    split; [| split; [| split]].
    + intros Hin. exfalso. rewrite Hs in Hin.
      revert Hin. apply not_in_chunk_envelopes. reflexivity.
    + intros reason Hin. exfalso. rewrite Hs in Hin.
      revert Hin. apply not_in_chunk_envelopes. reflexivity.
    + exact Htimeout.
    + unfold joined. rewrite Hw. discriminate.
  - (* the sentinel was received *)
    fold b in Ht. split; [| split; [| split]].
    + intros Hin. rewrite Hs in Hin |- *.
      apply after_chunk_envelopes in Hin; [| reflexivity].
      unfold sentinel_of in Hsome. destruct (ending_of run);
        [| | discriminate Hsome]; injection Hsome as <-;
        [auto | discriminate Hin].
    + intros reason Hin. rewrite Hs in Hin |- *.
      apply after_chunk_envelopes in Hin; [| reflexivity].
      unfold sentinel_of in Hsome. destruct (ending_of run) as [| msg | msg];
        [| | discriminate Hsome]; injection Hsome as <-;
        [discriminate Hin |].
      cbn [terminal_envelope] in Hin |- *.
      unfold error_envelope in Hin.
      injection Hin as Hreason. change (reason = msg) in Hreason.
      subst msg. auto.
    + exact Htimeout.
    + intros _ _. exists s. auto.
  - (* a wait timed out *)
    assert (Hin : In Timeout (schedule w)).
    { apply Htimeout. rewrite Hs. apply in_or_app. right. left. reflexivity. }
    split; [| split; [| split]].
    + intros H. exfalso. rewrite Hs in H.
      apply after_chunk_envelopes in H; [discriminate H | reflexivity].
    + intros reason H. exfalso. rewrite Hs in H.
      apply after_chunk_envelopes in H; [| reflexivity].
      unfold error_envelope in H. discriminate H.
    + intros _. exact Hin.
    + intros _ Hno. contradiction.
Qed.

Lemma completion_means_all_chunks w message h a :
  In (ThreadStart a) (trace_of (handle_streaming_request w message h)) ->
  In complete_envelope (sent_of (trace_of (handle_streaming_request w message h))) ->
  sent_of (trace_of (handle_streaming_request w message h))
    = map (chunk_envelope (sample_format w)) (emitted (generator w a))
        ++ [complete_envelope].
Proof.
  intros Hstart Hin.
  destruct (streaming_anatomy w message h)
    as [(e & Heq) | (a0 & Hsent & _ & _ & Huniq)].
  { rewrite Heq in Hstart. destruct Hstart as [H | []]. discriminate H. }
  apply Huniq in Hstart. subst a0. cbn zeta in Hsent.
  rewrite Hsent in Hin |- *.
  destruct (bridge_inv_reached (sample_format w) (generator w a) (schedule w))
    as [got _ Hs _ | s _ _ Hs _ _ | got _ Hs _]; rewrite Hs in Hin |- *.
  - exfalso. revert Hin. apply not_in_chunk_envelopes. reflexivity.
  - apply after_chunk_envelopes in Hin; [| reflexivity].
    rewrite <- Hin. reflexivity.
  - exfalso. apply after_chunk_envelopes in Hin; [discriminate Hin | reflexivity].
Qed.

Lemma chunk_audio_of_envelopes fmt cs tail :
  is_chunk_msg tail = false ->
  flat_map chunk_audio (map (chunk_envelope fmt) cs ++ [tail])
    = chunk_bytes fmt (concat cs).
Proof.
  intros Htail. rewrite flat_map_app, <- chunk_bytes_concat.
  assert (Ht : flat_map chunk_audio [tail] = [])
    by (destruct tail; [reflexivity | discriminate Htail | reflexivity | reflexivity]).
  rewrite Ht, app_nil_r.
  induction cs as [| c cs IH]; [reflexivity |].
  cbn [map flat_map chunk_envelope chunk_audio]. rewrite IH. reflexivity.
Qed.

Lemma chunk_sizes_of_envelopes fmt cs tail :
  is_chunk_msg tail = false ->
  fold_right Nat.add 0%nat
    (map chunk_size_field (map (chunk_envelope fmt) cs ++ [tail]))
    = (2 * length (concat cs))%nat.
Proof.
  intros Htail. induction cs as [| c cs IH].
  - destruct tail; [reflexivity | discriminate Htail | reflexivity | reflexivity].
  - cbn [map app fold_right concat chunk_envelope chunk_size_field cm_chunk_size].
    rewrite IH, chunk_bytes_length, length_app. lia.
Qed.

Lemma chunk_duration_app c1 c2 :
  (chunk_duration (c1 ++ c2) == chunk_duration c1 + chunk_duration c2)%Q.
Proof.
  unfold chunk_duration. rewrite length_app, Nat2Z.inj_add, inject_Z_plus.
  unfold Qdiv. ring.
Qed.

Lemma chunk_seconds_of_envelopes fmt cs tail :
  is_chunk_msg tail = false ->
  (Qsum (map chunk_seconds (map (chunk_envelope fmt) cs ++ [tail]))
   == chunk_duration (concat cs))%Q.
Proof.
  intros Htail. induction cs as [| c cs IH].
  - destruct tail; try discriminate Htail; reflexivity.
  - cbn [map app Qsum fold_right concat chunk_envelope chunk_seconds cm_duration].
    fold (Qsum (map chunk_seconds (map (chunk_envelope fmt) cs ++ [tail]))).
    rewrite IH, chunk_duration_app. reflexivity.
Qed.

(** A stream that is completed carries every sample the Generator produced:
    the audio of its chunk messages, put end to end, is the PCM16 conversion
    of all the chunks put end to end, whatever the boundaries between chunks;
    the sizes announced add up to two bytes per sample and the durations to
    the duration of all the samples. *)
Theorem completed_stream_carries_every_sample w message h a :
  In (ThreadStart a) (trace_of (handle_streaming_request w message h)) ->
  In complete_envelope (sent_of (trace_of (handle_streaming_request w message h))) ->
  let sent_msgs := sent_of (trace_of (handle_streaming_request w message h)) in
  let samples := concat (emitted (generator w a)) in
  flat_map chunk_audio sent_msgs = chunk_bytes (sample_format w) samples /\
  decode_pcm16 (flat_map chunk_audio sent_msgs) = pcm_data (sample_format w) samples /\
  fold_right Nat.add 0%nat (map chunk_size_field sent_msgs)
    = (2 * length samples)%nat /\
  (Qsum (map chunk_seconds sent_msgs) == chunk_duration samples)%Q.
Proof.
  intros Hstart Hdone. cbn zeta.
  rewrite (completion_means_all_chunks w message h a Hstart Hdone).
  rewrite chunk_audio_of_envelopes by reflexivity.
  split; [reflexivity |]. split; [apply decode_chunk_bytes |].
  split; [apply chunk_sizes_of_envelopes; reflexivity |].
  apply chunk_seconds_of_envelopes. reflexivity.
Qed.

(** ** Connections, further *)

Section ConnectionFacts.

Variable rt : runtime.

Lemma sent_envelopes_of_bridge fmt run sched e :
  In e (sent (run_bridge fmt sched (bridge_init run))) -> server_envelope e.
Proof.
  intros Hin.
  assert (Hforms : forall cs tail,
             server_envelope tail ->
             In e (map (chunk_envelope fmt) cs ++ [tail]) -> server_envelope e).
  { intros cs tail Htail H. apply in_app_or in H as [H | [H | []]].
    - apply in_map_iff in H as (c & <- & _). right. right. right. left. eauto.
    - subst e. exact Htail. }
  destruct (bridge_inv_reached fmt run sched)
    as [got _ Hs _ | s _ _ Hs _ _ | got _ Hs _]; rewrite Hs in Hin.
  - apply in_map_iff in Hin as (c & <- & _). right. right. right. left. eauto.
  - revert Hin. apply Hforms. destruct s; cbn [terminal_envelope].
    + right. right. right. right. reflexivity.
    + right. right. right. right. reflexivity.
    + left. eauto.
  - revert Hin. apply Hforms. left. eauto.
Qed.

Lemma handle_message_envelopes m w h e :
  In e (sent_of (trace_of (handle_message rt m w h))) -> server_envelope e.
Proof.
  destruct (handle_message_cases rt m w h)
    as [(msg & ->) | [-> | [(data & ->) | (data & ->)]]].
  - intros [<- | []]. left. eauto.
  - intros [<- | []]. right. left. eauto.
  - destruct (handle_tts_request_cases rt w data h)
      as [(msg & ->) | [(a & pre & h' & x & -> & Hpre & Hx)
                       | (a & pre & h' & x & -> & Hpre & _)]];
      cbn [trace_of fst snd].
    + intros [<- | []]. left. eauto.
    + rewrite sent_of_full_trace
        by (destruct Hpre as [(-> & _) | (-> & _)]; auto).
      intros [<- | []].
      destruct Hx as [(msg & -> & _) | (audio & config & -> & _)].
      * left. eauto.
      * right. right. left. eauto.
    + rewrite sent_of_escaped_trace
        by (destruct Hpre as [(-> & _) | (-> & _)]; auto).
      intros [].
  - destruct (streaming_anatomy w data h) as [(msg & ->) | (a & Hsent & _)].
    + intros [<- | []]. left. eauto.
    + cbn zeta in Hsent. rewrite Hsent. apply sent_envelopes_of_bridge.
Qed.

Lemma handle_client_sent m w rest h :
  sent_of (trace_of (handle_client rt ((m, w) :: rest) h)) =
    sent_of (trace_of (handle_message rt m w h)) ++
    match outcome_of (handle_message rt m w h) with
    | Done _ =>
        sent_of (trace_of (handle_client rt rest (state_of (handle_message rt m w h))))
    | _ => []
    end.
Proof.
  rewrite handle_client_cons.
  destruct (handle_message rt m w h) as [[h1 t1] [[] | msg | msg |]];
    cbn [trace_of state_of outcome_of fst snd]; rewrite ?app_nil_r; try reflexivity.
  destruct (handle_client rt rest h1) as [[h2 t2] o].
  cbn [trace_of fst snd]. apply sent_of_app.
Qed.

Lemma handle_client_envelopes inbound h e :
  In e (sent_of (trace_of (handle_client rt inbound h))) -> server_envelope e.
Proof.
  revert h. induction inbound as [| [m w] rest IH]; intros h; [intros [] |].
  rewrite handle_client_sent. intros Hin.
  apply in_app_or in Hin as [Hin | Hin].
  - exact (handle_message_envelopes m w h e Hin).
  - destruct (outcome_of (handle_message rt m w h));
      [| destruct Hin | destruct Hin | destruct Hin].
    exact (IH _ Hin).
Qed.

(** Every envelope sent on a connection is well formed.  A chunk message has
    status "streaming", announces the size of its audio, which is two bytes
    per sample, a duration that is its number of samples over the sample
    rate, 22050 Hz and one channel.  A [tts_response] is either an error with
    empty audio and no metadata, or a success with its fixed message and
    22050 Hz, one channel in its metadata. *)
Theorem server_envelopes_are_well_formed inbound h e :
  In e (sent_of (trace_of (handle_client rt inbound h))) ->
  match e with
  | tts_stream_chunk audio status md =>
      status = "streaming" /\
      cm_chunk_size md = length audio /\
      Forall (fun b => 0 <= b < 256) audio /\
      length audio = (2 * length (decode_pcm16 audio))%nat /\
      (cm_duration md
       == inject_Z (Z.of_nat (length (decode_pcm16 audio))) / inject_Z SAMPLE_RATE)%Q /\
      cm_sample_rate md = 22050 /\ cm_channels md = 1
  | tts_response audio status message md =>
      (status = "error" /\ audio = [] /\ md = None) \/
      (status = "success" /\ message = "Audio generated successfully" /\
       exists m, md = Some m /\ md_sample_rate m = 22050 /\ md_channels m = 1
                 /\ md_duration m = response_duration audio)
  | tts_stream_complete status message =>
      status = "completed" /\ message = "Audio streaming completed"
  | pong status _ => status = "alive"
  end.
Proof.
  intros Hin. apply handle_client_envelopes in Hin.
  destruct Hin
    as [(m & ->) | [(b & ->) | [(audio & config & ->) | [(fmt & c & ->) | ->]]]].
  - left. auto.
  - reflexivity.
  - right. cbn. split; [reflexivity |]. split; [reflexivity |]. eauto.
  - cbn [chunk_envelope cm_chunk_size cm_duration cm_sample_rate cm_channels].
    rewrite decode_chunk_bytes.
    assert (Hlen : length (pcm_data fmt c) = length c)
      by (unfold pcm_data; apply length_map).
    rewrite Hlen. split; [reflexivity |]. split; [reflexivity |].
    split; [apply chunk_bytes_are_bytes |]. split; [apply chunk_bytes_length |].
    split; [reflexivity |]. split; reflexivity.
  - split; reflexivity.
Qed.

Lemma handle_message_answers m w h :
  outcome_of (handle_message rt m w h) = Done tt ->
  (1 <= length (sent_of (trace_of (handle_message rt m w h))))%nat /\
  ((forall a, ~ In (ThreadStart a) (trace_of (handle_message rt m w h))) ->
   length (sent_of (trace_of (handle_message rt m w h))) = 1%nat).
Proof.
  destruct (handle_message_cases rt m w h)
    as [(msg & ->) | [-> | [(data & ->) | (data & ->)]]].
  - intros _. split; [cbn; lia | reflexivity].
  - intros _. split; [cbn; lia | reflexivity].
  - destruct (handle_tts_request_cases rt w data h)
      as [(msg & ->) | [(a & pre & h' & x & -> & Hpre & _)
                       | (a & pre & h' & x & -> & _)]];
      cbn [trace_of outcome_of fst snd].
    + intros _. split; [cbn; lia | reflexivity].
    + intros _. rewrite sent_of_full_trace
        by (destruct Hpre as [(-> & _) | (-> & _)]; auto).
      split; [cbn; lia | reflexivity].
    + intros H. discriminate H.
  - destruct (streaming_anatomy w data h)
      as [(msg & ->) | (a & Hsent & Hout & Hstart & _)].
    + intros _. split; [cbn; lia | reflexivity].
    + cbn zeta in Hsent, Hout. rewrite Hsent, Hout. intros Hj. split.
      * set (b := run_bridge (sample_format w) (schedule w)
                     (bridge_init (generator w a))) in *.
        assert (Hw : consumer_waiting b = false).
        { unfold joined in Hj. destruct (consumer_waiting b); [| reflexivity].
          cbn in Hj. discriminate Hj. }
        destruct (bridge_inv_reached (sample_format w) (generator w a) (schedule w))
          as [got Hw' _ _ | s _ _ Hs _ _ | got _ Hs _].
        -- fold b in Hw'. congruence.
        -- fold b in Hs. rewrite Hs, length_app. cbn. lia.
        -- fold b in Hs. rewrite Hs, length_app. cbn. lia.
      * intros Hno. exfalso. exact (Hno a Hstart).
Qed.

(** Every message of a connection is answered: when the handlers have all
    returned, at least one envelope has been sent per message, and exactly
    one per message when no message started a worker. *)
Theorem every_message_is_answered inbound h :
  outcome_of (handle_client rt inbound h) = Done tt ->
  (length inbound <= length (sent_of (trace_of (handle_client rt inbound h))))%nat /\
  ((forall a, ~ In (ThreadStart a) (trace_of (handle_client rt inbound h))) ->
   length (sent_of (trace_of (handle_client rt inbound h))) = length inbound).
Proof.
  revert h. induction inbound as [| [m w] rest IH]; intros h Hdone.
  - split; [cbn; lia | reflexivity].
  - pose proof (handle_client_sent m w rest h) as Hsent.
    rewrite handle_client_cons in Hdone |- *.
    pose proof (handle_message_answers m w h) as Hone.
    destruct (handle_message rt m w h) as [[h1 t1] [[] | msg | msg |]];
      cbn [trace_of state_of outcome_of fst snd] in *; try discriminate Hdone.
    specialize (IH h1).
    destruct (handle_client rt rest h1) as [[h2 t2] o].
    cbn [trace_of state_of outcome_of fst snd] in *. subst o.
    destruct (IH eq_refl) as [IH1 IH2]. destruct (Hone eq_refl) as [H1 H2].
    rewrite sent_of_app, length_app. cbn [length]. split; [lia |].
    intros Hno. rewrite H2, IH2; [lia | |].
    + intros a Hin. apply (Hno a). apply in_or_app. right. exact Hin.
    + intros a Hin. apply (Hno a). apply in_or_app. left. exact Hin.
Qed.

(** Served through [main], a connection finds the models loaded: if loading
    fails nothing is served and the exception leaves [main]; otherwise every
    pong reports true, and the models are loaded at most once, before the
    first message. *)
Theorem main_serves_after_loading w inbound h :
  (forall e, initialized h = false -> load_models w = Exc e ->
             main rt w inbound h = (h, [], Raised e)) /\
  (forall pre s b post,
      trace_of (main rt w inbound h) = pre ++ Send (pong s b) :: post -> b = true) /\
  (forall pre post,
      trace_of (main rt w inbound h) = pre ++ LoadModels :: post ->
      pre = [] /\ initialized h = false /\ ~ In LoadModels post).
Proof.
  unfold main, bind.
  destruct (initialize_cases w h)
    as [[Hi Heq] | [[Hi Heq] | [Hi (e & Hload & Heq)]]]; rewrite Heq.
  - destruct (handle_client_coherent rt inbound h) as (Hok & _ & _).
    rewrite Hi in Hok.
    destruct (handle_client rt inbound h) as [[h2 t2] o].
    cbn [trace_of fst snd app] in *.
    destruct (trace_ok_loads _ _ Hok) as [_ Hnone]. specialize (Hnone eq_refl).
    split; [intros e Hf; congruence |]. split.
    + intros pre s b post Hsplit.
      destruct (trace_ok_split _ _ _ _ _ _ Hok Hsplit) as [_ ->]. reflexivity.
    + intros pre post Hsplit. exfalso.
      assert (Hin : In LoadModels (List.filter is_load t2)).
      { apply filter_In. split; [| reflexivity].
        rewrite Hsplit. apply in_or_app. right. left. reflexivity. }
      rewrite Hnone in Hin. destruct Hin.
  - destruct (handle_client_coherent rt inbound {| initialized := true |})
      as (Hok & _ & _).
    destruct (handle_client rt inbound {| initialized := true |}) as [[h2 t2] o].
    cbn [trace_of fst snd app initialized] in *.
    destruct (trace_ok_loads _ _ Hok) as [_ Hnone]. specialize (Hnone eq_refl).
    assert (Hnoload : ~ In LoadModels t2).
    { intros Hin.
      assert (Hin' : In LoadModels (List.filter is_load t2))
        by (apply filter_In; split; [exact Hin | reflexivity]).
      rewrite Hnone in Hin'. destruct Hin'. }
    split.
    { intros e _ Hf. unfold initialize in Heq. rewrite Hi, Hf in Heq.
      discriminate Heq. }
    split.
    + intros pre s b post Hsplit.
      destruct pre as [| ev pre]; [discriminate Hsplit |].
      injection Hsplit as _ Hsplit.
      destruct (trace_ok_split _ _ _ _ _ _ Hok Hsplit) as [_ ->]. reflexivity.
    + intros pre post Hsplit.
      destruct pre as [| ev pre].
      * injection Hsplit as <-. auto.
      * exfalso. injection Hsplit as _ Hsplit. apply Hnoload.
        rewrite Hsplit. apply in_or_app. right. left. reflexivity.
  - cbn [trace_of fst snd].
    split; [intros e' _ Hload'; congruence |]. split.
    + intros pre s b post Hsplit. destruct pre; discriminate Hsplit.
    + intros pre post Hsplit. destruct pre; discriminate Hsplit.
Qed.

End ConnectionFacts.

(** ** Requests, further *)

Section RequestFacts.

Variable rt : runtime.

(** A full request that passes validation: the models are loaded if need be,
    the Generator is called once, and one envelope is sent unless a
    [BaseException] leaves the handler. *)
Lemma handle_tts_request_valid w msg d text c h :
  request_with msg d (Some text) c ->
  truthy text = true ->
  handle_tts_request rt w (JObj msg) h =
    match loaded w h with
    | Exc e => (h, [Send (error_envelope e)], Done tt)
    | Ok (h', pre) =>
        (h',
         pre ++ Generate (writer_args text (config_of c))
             :: fst (full_reply rt w (writer_args text (config_of c)) (config_of c)),
         snd (full_reply rt w (writer_args text (config_of c)) (config_of c)))
    end.
Proof.
  intros (Hd & Ht & Hc) Htruthy.
  unfold handle_tts_request. unfold_monad. cbn [py_get].
  rewrite Hd. cbn [py_get]. rewrite Ht, Hc. cbn [from_option id].
  rewrite Htruthy. cbn [negb TTSConfig_init]. fold (config_of c).
  unfold initialize, loaded, _generate_audio, full_reply. unfold_monad.
  destruct (initialized h).
  - destruct (ending_of _); [| reflexivity | reflexivity].
    destruct (emitted _); [reflexivity |].
    destruct (wav_write _ _ _); reflexivity.
  - destruct (load_models w); [| reflexivity].
    destruct (ending_of _); [| reflexivity | reflexivity].
    destruct (emitted _); [reflexivity |].
    destruct (wav_write _ _ _); reflexivity.
Qed.

Lemma loaded_pre w h h' pre :
  loaded w h = Ok (h', pre) -> pre = [] \/ pre = [LoadModels].
Proof.
  intros H. destruct (loaded_cases w h h' pre H) as [(-> & _) | (-> & _)]; auto.
Qed.

Lemma sent_of_reply pre a evs :
  pre = [] \/ pre = [LoadModels] ->
  sent_of (pre ++ Generate a :: evs) = sent_of evs.
Proof. intros [-> | ->]; reflexivity. Qed.

(** A streaming request that passes validation: the models are loaded if
    need be, then the worker is started. *)
Lemma handle_streaming_request_valid w msg d text c h :
  request_with msg d (Some text) c ->
  truthy text = true ->
  handle_streaming_request w (JObj msg) h =
    match loaded w h with
    | Exc e => (h, [Send (error_envelope e)], Done tt)
    | Ok (h', pre) =>
        let b := run_bridge (sample_format w) (schedule w)
                   (bridge_init (generator w (writer_args text (config_of c)))) in
        (h',
         pre ++ ThreadStart (writer_args text (config_of c))
             :: map Send (sent b) ++ (if joined b then [ThreadJoin] else []),
         if joined b then Done tt else Pending)
    end.
Proof.
  intros (Hd & Ht & Hc) Htruthy.
  unfold handle_streaming_request. unfold_monad. cbn [py_get].
  rewrite Hd. cbn [py_get]. rewrite Ht, Hc. cbn [from_option id].
  rewrite Htruthy. cbn [negb TTSConfig_init]. fold (config_of c).
  unfold initialize, loaded, _stream_audio. unfold_monad. cbn zeta.
  destruct (initialized h).
  - destruct (joined _); reflexivity.
  - destruct (load_models w); [| reflexivity].
    destruct (joined _); reflexivity.
Qed.

Lemma handle_message_valid m kind text c w h :
  valid_request rt m kind text c ->
  exists msg d,
    request_with msg d (Some text) c /\
    handle_message rt m w h =
      if String.eqb kind "tts_request" then handle_tts_request rt w (JObj msg) h
      else if String.eqb kind "tts_stream_request"
           then handle_streaming_request w (JObj msg) h
      else if String.eqb kind "ping"
           then (h, [Send (pong "alive" (initialized h))], Done tt)
      else (h, [Send (error_envelope ("Unknown message type: " +:+ kind))], Done tt).
Proof.
  intros (msg & d & Hload & Htype & Hreq & _). exists msg, d. split; [exact Hreq |].
  rewrite (handle_message_dispatch rt m w h (JObj msg) (JStr kind) Hload)
    by (cbn [py_get]; rewrite Htype; reflexivity).
  reflexivity.
Qed.

Lemma falsy_text_full w msg d h :
  default (JObj ∅) (msg !! "data") = JObj d ->
  truthy (default (JStr "") (d !! "text")) = false ->
  handle_tts_request rt w (JObj msg) h
    = (h, [Send (error_envelope "No text provided")], Done tt).
Proof.
  intros Hd Ht. unfold handle_tts_request. unfold_monad.
  cbn [py_get]. rewrite Hd. cbn [py_get]. rewrite Ht. reflexivity.
Qed.

Lemma falsy_text_streaming w msg d h :
  default (JObj ∅) (msg !! "data") = JObj d ->
  truthy (default (JStr "") (d !! "text")) = false ->
  handle_streaming_request w (JObj msg) h
    = (h, [Send (error_envelope "No text provided")], Done tt).
Proof.
  intros Hd Ht. unfold handle_streaming_request. unfold_monad.
  cbn [py_get]. rewrite Hd. cbn [py_get]. rewrite Ht. reflexivity.
Qed.

(** The text is validated by its truth value and before the configuration is
    looked at: a request whose text is any false value (absent, empty, zero,
    null, false, an empty list or dictionary) is refused with
    "No text provided" whatever its configuration, even one that is not a
    dictionary; nothing is loaded or generated. *)
Theorem falsy_text_is_refused_first w msg d h :
  default (JObj ∅) (msg !! "data") = JObj d ->
  truthy (default (JStr "") (d !! "text")) = false ->
  handle_tts_request rt w (JObj msg) h
    = (h, [Send (tts_response [] "error" "No text provided" None)], Done tt) /\
  handle_streaming_request w (JObj msg) h
    = (h, [Send (tts_response [] "error" "No text provided" None)], Done tt).
Proof.
  intros Hd Ht. split.
  - apply (falsy_text_full w msg d h Hd Ht).
  - apply (falsy_text_streaming w msg d h Hd Ht).
Qed.

(** A request whose data is not a dictionary, or whose text passes validation
    but whose configuration is not a dictionary, is refused with one error
    envelope that carries the text of the [AttributeError]; nothing is loaded
    or generated. *)
Theorem non_object_fields_are_refused w msg h v :
  (forall d, v <> JObj d) ->
  msg !! "data" = Some v \/
  (exists d text,
      default (JObj ∅) (msg !! "data") = JObj d /\
      d !! "text" = Some text /\ truthy text = true /\
      d !! "config" = Some v) ->
  handle_tts_request rt w (JObj msg) h
    = (h, [Send (tts_response [] "error"
                   ("'" +:+ type_name v +:+ "' object has no attribute 'get'") None)],
       Done tt) /\
  handle_streaming_request w (JObj msg) h
    = (h, [Send (tts_response [] "error"
                   ("'" +:+ type_name v +:+ "' object has no attribute 'get'") None)],
       Done tt).
Proof.
  intros Hv [Hdata | (d & text & Hd & Ht & Htruthy & Hc)].
  - unfold handle_tts_request, handle_streaming_request. unfold_monad.
    cbn [py_get]. rewrite Hdata. cbn [from_option id].
    destruct v; try (split; reflexivity). exfalso. exact (Hv _ eq_refl).
  - unfold handle_tts_request, handle_streaming_request. unfold_monad.
    cbn [py_get]. rewrite Hd. cbn [py_get]. rewrite Ht, Hc. cbn [from_option id].
    rewrite Htruthy. cbn [negb].
    destruct v; try (split; reflexivity). exfalso. exact (Hv _ eq_refl).
Qed.

Lemma writer_args_agree text (c1 c2 : gmap string json) :
  (forall k, In k generation_keys -> c1 !! k = c2 !! k) ->
  writer_args text (config_of c1) = writer_args text (config_of c2).
Proof.
  intros H. unfold writer_args, config_of. cbn [max_tokens chunk_size lookback_frames].
  rewrite (H "max_tokens"), (H "chunk_size"), (H "lookback_frames");
    [reflexivity | | |]; unfold generation_keys; cbn; auto.
Qed.

Lemma success_envelope_agree audio (c1 c2 : gmap string json) :
  (forall k, In k metadata_keys -> c1 !! k = c2 !! k) ->
  success_envelope audio (config_of c1) = success_envelope audio (config_of c2).
Proof.
  intros H. unfold success_envelope, config_of. cbn [language emotion speed].
  rewrite (H "language"), (H "emotion"), (H "speed");
    [reflexivity | | |]; unfold metadata_keys; cbn; auto.
Qed.

(** Of a request only the text and six keys of the configuration matter.
    A streaming request is handled alike by any two requests with the same
    text whose configurations agree on max_tokens, chunk_size and
    lookback_frames; a full request, when they also agree on language,
    emotion and speed.  Temperature, top_p, voice_id, unknown keys, and every
    other entry of the data or of the message have no effect. *)
Theorem only_text_and_six_keys_matter w msg1 msg2 d1 d2 text c1 c2 h :
  request_with msg1 d1 text c1 ->
  request_with msg2 d2 text c2 ->
  (forall k, In k generation_keys -> c1 !! k = c2 !! k) ->
  handle_streaming_request w (JObj msg1) h = handle_streaming_request w (JObj msg2) h /\
  ((forall k, In k metadata_keys -> c1 !! k = c2 !! k) ->
   handle_tts_request rt w (JObj msg1) h = handle_tts_request rt w (JObj msg2) h).
Proof.
  intros H1 H2 Hgen.
  destruct (truthy (default (JStr "") text)) eqn:Htruthy.
  - destruct text as [text |]; [| discriminate Htruthy]. cbn in Htruthy.
    rewrite (handle_streaming_request_valid w msg1 d1 text c1 h H1 Htruthy).
    rewrite (handle_streaming_request_valid w msg2 d2 text c2 h H2 Htruthy).
    rewrite (handle_tts_request_valid w msg1 d1 text c1 h H1 Htruthy).
    rewrite (handle_tts_request_valid w msg2 d2 text c2 h H2 Htruthy).
    rewrite (writer_args_agree text c1 c2 Hgen). split; [reflexivity |].
    intros Hmeta. unfold full_reply.
    destruct (loaded w h) as [[h' pre] | e]; [| reflexivity].
    destruct (ending_of _); [| reflexivity | reflexivity].
    destruct (emitted _); [reflexivity |].
    destruct (wav_write _ _ _); [| reflexivity].
    rewrite (success_envelope_agree _ c1 c2 Hmeta). reflexivity.
  - destruct H1 as (Hd1 & Ht1 & _), H2 as (Hd2 & Ht2 & _).
    rewrite (falsy_text_streaming w msg1 d1 h Hd1) by (rewrite Ht1; exact Htruthy).
    rewrite (falsy_text_streaming w msg2 d2 h Hd2) by (rewrite Ht2; exact Htruthy).
    rewrite (falsy_text_full w msg1 d1 h Hd1) by (rewrite Ht1; exact Htruthy).
    rewrite (falsy_text_full w msg2 d2 h Hd2) by (rewrite Ht2; exact Htruthy).
    split; reflexivity.
Qed.

(** The metadata of a successful full response echo the request: language,
    emotion and speed are those of its configuration, or "spanish", "neutral"
    and 1.0 where the configuration does not give them. *)
Theorem success_metadata_echo_the_request w msg d text c h audio message md :
  request_with msg d (Some text) c ->
  In (tts_response audio "success" message (Some md))
     (sent_of (trace_of (handle_tts_request rt w (JObj msg) h))) ->
  md_language md = default (JStr "spanish") (c !! "language") /\
  md_emotion md = default (JStr "neutral") (c !! "emotion") /\
  md_speed md = default (JFloat 1) (c !! "speed").
Proof.
  intros Hreq Hin.
  destruct (truthy text) eqn:Htruthy.
  - rewrite (handle_tts_request_valid w msg d text c h Hreq Htruthy) in Hin.
    destruct (loaded w h) as [[h' pre] | e] eqn:Hl; cbn [trace_of fst snd] in Hin.
    + rewrite (sent_of_reply pre _ _ (loaded_pre w h h' pre Hl)) in Hin.
      unfold full_reply in Hin.
      destruct (ending_of _); cbn [fst sent_of flat_map app] in Hin;
        [| destruct Hin as [Hin | []]; discriminate Hin | destruct Hin].
      destruct (emitted _); cbn [fst sent_of flat_map app] in Hin;
        [destruct Hin as [Hin | []]; discriminate Hin |].
      destruct (wav_write _ _ _); cbn [fst sent_of flat_map app] in Hin;
        destruct Hin as [Hin | []]; [| discriminate Hin].
      unfold success_envelope in Hin. injection Hin as _ _ <-. auto.
    + destruct Hin as [Hin | []]. discriminate Hin.
  - destruct Hreq as (Hd & Ht & _).
    rewrite (falsy_text_full w msg d h Hd) in Hin by (rewrite Ht; exact Htruthy).
    destruct Hin as [Hin | []]. discriminate Hin.
Qed.

(** A full request succeeds exactly when the Generator returned with at least
    one chunk and the container could be written; when the Generator raised
    an [Exception], the one envelope sent is an error envelope with the text of the exception
    as it is, and the chunks produced before are not sent. *)
Theorem full_request_outcome_follows_the_run w msg d text c h :
  request_with msg d (Some text) c ->
  truthy text = true ->
  In (Generate (writer_args text (config_of c)))
     (trace_of (handle_tts_request rt w (JObj msg) h)) ->
  let run := generator w (writer_args text (config_of c)) in
  let sent_msgs := sent_of (trace_of (handle_tts_request rt w (JObj msg) h)) in
  (existsb is_success_msg sent_msgs = true <->
   ending_of run = Returns /\ emitted run <> [] /\
   exists audio, wav_write (array_dtype rt) SAMPLE_RATE (concat (emitted run)) = Ok audio) /\
  (forall e, ending_of run = Raises e -> sent_msgs = [tts_response [] "error" e None]).
Proof.
  intros Hreq Htruthy Hin. cbn zeta.
  rewrite (handle_tts_request_valid w msg d text c h Hreq Htruthy) in Hin |- *.
  destruct (loaded w h) as [[h' pre] | e] eqn:Hl; cbn [trace_of fst snd] in Hin |- *.
  - rewrite (sent_of_reply pre _ _ (loaded_pre w h h' pre Hl)). unfold full_reply.
    destruct (ending_of _) as [| msg' | msg'] eqn:Hend.
    + destruct (emitted _) as [| ch chs] eqn:Hem.
      * split; [| discriminate]. split; [discriminate |].
        intros (_ & Hne & _). contradiction.
      * destruct (wav_write _ _ _) as [audio | err] eqn:Hwav.
        -- split; [| discriminate]. split; [| reflexivity].
           intros _. split; [reflexivity |]. split; [discriminate | eauto].
        -- split; [| discriminate]. split; [discriminate |].
           intros (_ & _ & audio & Ha). discriminate Ha.
    + split.
      * split; [discriminate |]. intros (H & _). discriminate H.
      * intros e He. injection He as <-. reflexivity.
    + split.
      * split; [discriminate |]. intros (H & _). discriminate H.
      * intros e He. discriminate He.
  - destruct Hin as [Hin | []]. discriminate Hin.
Qed.

(** A failure to load the models is reported to the request that met it, as
    an error envelope with the text of the exception and without generation;
    the flag stays unset, so that the next valid request loads the models
    again. *)
Theorem failed_loading_is_reported_and_retried m kind text c w h e :
  valid_request rt m kind text c ->
  kind = "tts_request" \/ kind = "tts_stream_request" ->
  initialized h = false ->
  load_models w = Exc e ->
  handle_message rt m w h = (h, [Send (tts_response [] "error" e None)], Done tt) /\
  (forall m' kind' text' c' w',
      valid_request rt m' kind' text' c' ->
      kind' = "tts_request" \/ kind' = "tts_stream_request" ->
      load_models w' = Ok tt ->
      exists rest,
        trace_of (handle_client rt [(m, w); (m', w')] h)
          = Send (tts_response [] "error" e None) :: LoadModels :: rest).
Proof.
  intros Hvalid Hkind Hi Hload.
  assert (Htruthy : truthy text = true) by (destruct Hvalid as (? & ? & _ & _ & _ & H); exact H).
  assert (Hm : handle_message rt m w h = (h, [Send (error_envelope e)], Done tt)).
  { destruct (handle_message_valid m kind text c w h Hvalid) as (msg & d & Hreq & ->).
    destruct Hkind as [-> | ->]; cbn [String.eqb Ascii.eqb Bool.eqb].
    - rewrite (handle_tts_request_valid w msg d text c h Hreq Htruthy).
      unfold loaded. rewrite Hi, Hload. reflexivity.
    - rewrite (handle_streaming_request_valid w msg d text c h Hreq Htruthy).
      unfold loaded. rewrite Hi, Hload. reflexivity. }
  split; [exact Hm |].
  intros m' kind' text' c' w' Hvalid' Hkind' Hload'.
  assert (Htruthy' : truthy text' = true)
    by (destruct Hvalid' as (? & ? & _ & _ & _ & H); exact H).
  rewrite (handle_client_after_reply rt m w [(m', w')] h _ Hm).
  cbn [trace_of fst snd]. rewrite handle_client_cons.
  destruct (handle_message_valid m' kind' text' c' w' h Hvalid') as (msg & d & Hreq & ->).
  destruct Hkind' as [-> | ->]; cbn [String.eqb Ascii.eqb Bool.eqb].
  - rewrite (handle_tts_request_valid w' msg d text' c' h Hreq Htruthy').
    unfold loaded. rewrite Hi, Hload'. cbn [app].
    destruct (full_reply rt w' _ _) as [evs [[] | x | x |]];
      cbn [fst snd]; eexists; reflexivity.
  - rewrite (handle_streaming_request_valid w' msg d text' c' h Hreq Htruthy').
    unfold loaded. rewrite Hi, Hload'. cbn zeta. cbn [app].
    destruct (joined _); eexists; reflexivity.
Qed.

End RequestFacts.

(** ** Further sample runs *)

Lemma pcm16_is_odd_and_monotone_witness :
  pcm_data binary32 (map Num (map Qopp [(32769 # 65536)%Q; (-1 # 3)%Q]))
    = map Z.opp (pcm_data binary32 (map Num [(32769 # 65536)%Q; (-1 # 3)%Q])) /\
  Forall2 Z.le (pcm_data binary32 (map Num [(1 # 4)%Q; (-1 # 3)%Q]))
               (pcm_data binary32 (map Num [(32769 # 65536)%Q; (1 # 100000)%Q])) /\
  pcm_data binary32 (map Num [(1 # 100000)%Q; (- 1 # 65534)%Q]) = [0; 0].
Proof.
  assert (H1 : Forall in_unit_range (map Num [(32769 # 65536)%Q; (-1 # 3)%Q]))
    by (repeat constructor; unfold Qle; cbn; lia).
  assert (H2 : Forall in_unit_range (map Num [(1 # 4)%Q; (-1 # 3)%Q]))
    by (repeat constructor; unfold Qle; cbn; lia).
  assert (H3 : Forall in_unit_range (map Num [(32769 # 65536)%Q; (1 # 100000)%Q]))
    by (repeat constructor; unfold Qle; cbn; lia).
  assert (H4 : Forall in_unit_range (map Num [(1 # 100000)%Q; (- 1 # 65534)%Q]))
    by (repeat constructor; unfold Qle; cbn; lia).
  destruct (pcm16_is_odd_and_monotone binary32 _ _ ltac:(cbn; lia) ltac:(cbn; lia) H1 H4)
    as (Hodd & _ & _).
  destruct (pcm16_is_odd_and_monotone binary32 _ _ ltac:(cbn; lia) ltac:(cbn; lia) H2 H3)
    as (_ & Hmono & _).
  destruct (pcm16_is_odd_and_monotone binary32 _ _ ltac:(cbn; lia) ltac:(cbn; lia) H4 H1)
    as (_ & _ & Hzero).
  split; [exact Hodd |]. split.
  - apply Hmono. repeat constructor; unfold Qle; cbn; lia.
  - apply Hzero. repeat constructor; unfold Qle; cbn; lia.
Defined.

Lemma last_envelope_tells_the_run_witness :
  In (ThreadStart (default_args "Hola"))
     (trace_of (handle_streaming_request sample_world
                  (sample_request "tts_stream_request" "Hola") fresh_handler)) /\
  sent_of (trace_of (handle_streaming_request sample_world
                       (sample_request "tts_stream_request" "Hola") fresh_handler))
    = map (chunk_envelope binary32) (emitted sample_run) ++ [complete_envelope].
Proof.
  assert (Hin : In (ThreadStart (default_args "Hola"))
                  (trace_of (handle_streaming_request sample_world
                     (sample_request "tts_stream_request" "Hola") fresh_handler)))
    by in_list.
  split; [exact Hin |].
  pose proof (last_envelope_tells_the_run sample_world _ fresh_handler _ Hin) as H.
  cbv zeta in H. destruct H as (Hcomplete & _).
  apply Hcomplete. in_list.
Defined.

Lemma completed_stream_carries_every_sample_witness :
  In (ThreadStart (default_args "Hola"))
     (trace_of (handle_streaming_request sample_world
                  (sample_request "tts_stream_request" "Hola") fresh_handler)) /\
  In complete_envelope
     (sent_of (trace_of (handle_streaming_request sample_world
                  (sample_request "tts_stream_request" "Hola") fresh_handler))) /\
  flat_map chunk_audio
    (sent_of (trace_of (handle_streaming_request sample_world
                (sample_request "tts_stream_request" "Hola") fresh_handler)))
    = chunk_bytes binary32 [Num (1 # 4); Num (-1); Num 0].
Proof.
  assert (Hin : In (ThreadStart (default_args "Hola"))
                  (trace_of (handle_streaming_request sample_world
                     (sample_request "tts_stream_request" "Hola") fresh_handler)))
    by in_list.
  assert (Hc : In complete_envelope
                 (sent_of (trace_of (handle_streaming_request sample_world
                    (sample_request "tts_stream_request" "Hola") fresh_handler))))
    by in_list.
  split; [exact Hin |]. split; [exact Hc |].
  pose proof (completed_stream_carries_every_sample sample_world _ fresh_handler _
                Hin Hc) as H.
  cbv zeta in H. exact (proj1 H).
Defined.

Lemma server_envelopes_are_well_formed_witness :
  In (chunk_envelope binary32 [Num 0])
     (sent_of (trace_of (handle_client sample_runtime
                  [("ping", sample_world); ("stream", sample_world)] fresh_handler))) /\
  chunk_size_field (chunk_envelope binary32 [Num 0])
    = length (chunk_audio (chunk_envelope binary32 [Num 0])).
Proof.
  assert (Hin : In (chunk_envelope binary32 [Num 0])
                  (sent_of (trace_of (handle_client sample_runtime
                     [("ping", sample_world); ("stream", sample_world)] fresh_handler))))
    by in_list.
  split; [exact Hin |].
  pose proof (server_envelopes_are_well_formed sample_runtime _ fresh_handler _ Hin) as H.
  unfold chunk_envelope in H. destruct H as (_ & Hsize & _). exact Hsize.
Defined.

Lemma every_message_is_answered_witness :
  outcome_of (handle_client sample_runtime
                [("ping", sample_world); ("say", sample_world); ("stream", sample_world)]
                fresh_handler) = Done tt /\
  (3 <= length (sent_of (trace_of (handle_client sample_runtime
                  [("ping", sample_world); ("say", sample_world); ("stream", sample_world)]
                  fresh_handler))))%nat.
Proof.
  assert (Hdone : outcome_of (handle_client sample_runtime
                    [("ping", sample_world); ("say", sample_world); ("stream", sample_world)]
                    fresh_handler) = Done tt) by (vm_compute; reflexivity).
  split; [exact Hdone |].
  exact (proj1 (every_message_is_answered sample_runtime _ fresh_handler Hdone)).
Defined.

Lemma falsy_text_is_refused_first_witness :
  default (JObj ∅)
    (({["data" := JObj (<["config" := JStr "loud"]> {["text" := JInt 0]})]}
        : gmap string json) !! "data")
    = JObj (<["config" := JStr "loud"]> {["text" := JInt 0]}) /\
  truthy (default (JStr "")
            ((<["config" := JStr "loud"]> {["text" := JInt 0]} : gmap string json)
               !! "text")) = false /\
  handle_tts_request sample_runtime sample_world
    (JObj {["data" := JObj (<["config" := JStr "loud"]> {["text" := JInt 0]})]})
    fresh_handler
    = (fresh_handler, [Send (tts_response [] "error" "No text provided" None)], Done tt).
Proof.
  assert (H1 : default (JObj ∅)
                 (({["data" := JObj (<["config" := JStr "loud"]> {["text" := JInt 0]})]}
                     : gmap string json) !! "data")
               = JObj (<["config" := JStr "loud"]> {["text" := JInt 0]}))
    by (vm_compute; reflexivity).
  assert (H2 : truthy (default (JStr "")
                 ((<["config" := JStr "loud"]> {["text" := JInt 0]} : gmap string json)
                    !! "text")) = false)
    by (vm_compute; reflexivity).
  split; [exact H1 |]. split; [exact H2 |].
  exact (proj1 (falsy_text_is_refused_first sample_runtime sample_world _ _
                  fresh_handler H1 H2)).
Defined.

Lemma non_object_fields_are_refused_witness :
  (forall d, JStr "loud" <> JObj d) /\
  handle_streaming_request sample_world
    (JObj {["data" := JObj (<["config" := JStr "loud"]> {["text" := JStr "Hola"]})]})
    fresh_handler
    = (fresh_handler,
       [Send (tts_response [] "error" "'str' object has no attribute 'get'" None)],
       Done tt).
Proof.
  assert (Hv : forall d, JStr "loud" <> JObj d) by (intros d; discriminate).
  split; [exact Hv |].
  refine (proj2 (non_object_fields_are_refused sample_runtime sample_world
                   {["data" := JObj (<["config" := JStr "loud"]> {["text" := JStr "Hola"]})]}
                   fresh_handler (JStr "loud") Hv _)).
  right. exists (<["config" := JStr "loud"]> {["text" := JStr "Hola"]}), (JStr "Hola").
  split; [vm_compute; reflexivity |].
  split; [vm_compute; reflexivity |].
  split; [reflexivity |]. vm_compute; reflexivity.
Defined.

Lemma only_text_and_six_keys_matter_witness :
  request_with {["data" := JObj (<["config" := JObj {["temperature" := JFloat (9 # 10)]}]>
                                  {["text" := JStr "Hola"]})]}
    (<["config" := JObj {["temperature" := JFloat (9 # 10)]}]> {["text" := JStr "Hola"]})
    (Some (JStr "Hola")) {["temperature" := JFloat (9 # 10)]} /\
  request_with (<["id" := JInt 7]> {["data" := JObj {["text" := JStr "Hola"]}]})
    {["text" := JStr "Hola"]} (Some (JStr "Hola")) ∅ /\
  (forall k, In k generation_keys ->
     ({["temperature" := JFloat (9 # 10)]} : gmap string json) !! k
       = (∅ : gmap string json) !! k) /\
  handle_tts_request sample_runtime sample_world
    (JObj {["data" := JObj (<["config" := JObj {["temperature" := JFloat (9 # 10)]}]>
                              {["text" := JStr "Hola"]})]}) fresh_handler
  = handle_tts_request sample_runtime sample_world
      (JObj (<["id" := JInt 7]> {["data" := JObj {["text" := JStr "Hola"]}]}))
      fresh_handler.
Proof.
  assert (H1 : request_with
                 {["data" := JObj (<["config" := JObj {["temperature" := JFloat (9 # 10)]}]>
                                     {["text" := JStr "Hola"]})]}
                 (<["config" := JObj {["temperature" := JFloat (9 # 10)]}]>
                    {["text" := JStr "Hola"]})
                 (Some (JStr "Hola")) {["temperature" := JFloat (9 # 10)]})
    by (split; [| split]; vm_compute; reflexivity).
  assert (H2 : request_with (<["id" := JInt 7]> {["data" := JObj {["text" := JStr "Hola"]}]})
                 {["text" := JStr "Hola"]} (Some (JStr "Hola")) ∅)
    by (split; [| split]; vm_compute; reflexivity).
  assert (H3 : forall k, In k generation_keys ->
                 ({["temperature" := JFloat (9 # 10)]} : gmap string json) !! k
                   = (∅ : gmap string json) !! k)
    by (intros k [<- | [<- | [<- | []]]]; vm_compute; reflexivity).
  split; [exact H1 |]. split; [exact H2 |]. split; [exact H3 |].
  apply (proj2 (only_text_and_six_keys_matter sample_runtime sample_world _ _ _ _ _ _ _
                  fresh_handler H1 H2 H3)).
  intros k [<- | [<- | [<- | []]]]; vm_compute; reflexivity.
Defined.

Lemma success_metadata_echo_the_request_witness :
  request_with (<["type" := JStr "tts_request"]> {["data" := JObj {["text" := JStr "Hola"]}]})
    {["text" := JStr "Hola"]} (Some (JStr "Hola")) ∅ /\
  In (tts_response pcm_audio "success" "Audio generated successfully" (Some pcm_metadata))
     (sent_of (trace_of (handle_tts_request sample_runtime pcm_world
                           (sample_request "tts_request" "Hola") fresh_handler))) /\
  md_language pcm_metadata = JStr "spanish".
Proof.
  assert (H1 : request_with
                 (<["type" := JStr "tts_request"]> {["data" := JObj {["text" := JStr "Hola"]}]})
                 {["text" := JStr "Hola"]} (Some (JStr "Hola")) ∅)
    by (split; [| split]; vm_compute; reflexivity).
  assert (H2 : In (tts_response pcm_audio "success" "Audio generated successfully"
                     (Some pcm_metadata))
                 (sent_of (trace_of (handle_tts_request sample_runtime pcm_world
                    (sample_request "tts_request" "Hola") fresh_handler))))
    by (left; vm_compute; reflexivity).
  split; [exact H1 |]. split; [exact H2 |].
  exact (proj1 (success_metadata_echo_the_request sample_runtime pcm_world _ _ _ _
                  fresh_handler _ _ _ H1 H2)).
Defined.

Lemma full_request_outcome_follows_the_run_witness :
  request_with (<["type" := JStr "tts_request"]> {["data" := JObj {["text" := JStr "Hola"]}]})
    {["text" := JStr "Hola"]} (Some (JStr "Hola")) ∅ /\
  truthy (JStr "Hola") = true /\
  In (Generate (writer_args (JStr "Hola") (config_of ∅)))
     (trace_of (handle_tts_request sample_runtime failing_world
                  (sample_request "tts_request" "Hola") fresh_handler)) /\
  sent_of (trace_of (handle_tts_request sample_runtime failing_world
                       (sample_request "tts_request" "Hola") fresh_handler))
    = [tts_response [] "error" "CUDA out of memory" None].
Proof.
  assert (H1 : request_with
                 (<["type" := JStr "tts_request"]> {["data" := JObj {["text" := JStr "Hola"]}]})
                 {["text" := JStr "Hola"]} (Some (JStr "Hola")) ∅)
    by (split; [| split]; vm_compute; reflexivity).
  assert (H3 : In (Generate (writer_args (JStr "Hola") (config_of ∅)))
                 (trace_of (handle_tts_request sample_runtime failing_world
                    (sample_request "tts_request" "Hola") fresh_handler)))
    by in_list.
  split; [exact H1 |]. split; [reflexivity |]. split; [exact H3 |].
  pose proof (full_request_outcome_follows_the_run sample_runtime failing_world _ _ _ _
                fresh_handler H1 eq_refl H3) as H.
  cbv zeta in H. apply (proj2 H). reflexivity.
Defined.

Lemma failed_loading_is_reported_and_retried_witness :
  valid_request sample_runtime "say" "tts_request" (JStr "Hola") ∅ /\
  initialized fresh_handler = false /\
  load_models unloadable_world = Exc "weights not found" /\
  handle_message sample_runtime "say" unloadable_world fresh_handler
    = (fresh_handler, [Send (tts_response [] "error" "weights not found" None)], Done tt).
Proof.
  assert (H1 : valid_request sample_runtime "say" "tts_request" (JStr "Hola") ∅).
  { exists (<["type" := JStr "tts_request"]> {["data" := JObj {["text" := JStr "Hola"]}]}),
      {["text" := JStr "Hola"]}.
    split; [reflexivity |]. split; [vm_compute; reflexivity |].
    split; [| reflexivity]. split; [| split]; vm_compute; reflexivity. }
  split; [exact H1 |]. split; [reflexivity |]. split; [reflexivity |].
  exact (proj1 (failed_loading_is_reported_and_retried sample_runtime _ _ _ _
                  unloadable_world fresh_handler _ H1 (or_introl eq_refl)
                  eq_refl eq_refl)).
Defined.
